(** * The China vaccination scraper (cowidev.vax.incremental.china)

    A shallow embedding of [scripts/src/cowidev/vax/incremental/china.py]:
    the two page walks ([read], [read_complete]), the text parsers, the
    metadata pipeline and the merge performed by [export].

    Python values are modelled as follows.
    - A [str] that the patterns are applied to (the text of a page, of an
      anchor, a captured group) is [str], the list of its code points, as
      [re] and [float] see it.  A literal of the source is written
      [u "..."], the code points of the literal.
    - A [str] that is only copied, compared and printed (an address, a
      date in canonical form, the message of an exception) is a [string],
      its UTF-8 encoding.  Comparing two encodings byte by byte orders
      them as Python orders the texts, by code point.
    - A dict that becomes a row of a [DataFrame] is the record [Row]; a
      column that the dict does not set (NaN after [pd.concat]) is [None].
    - A [DataFrame] is the list of its rows.  [pd.DataFrame([])] is the
      frame without columns: reading [.date] on it raises [AttributeError].
    - [float] is IEEE binary64, taken from [SpecFloat] (precision 53,
      [emax] 1024); [int(x)] truncates towards zero.
    - An uncaught exception is the [Raise] result of the monad [M]. *)

From Stdlib Require Import String Ascii List ZArith NArith Bool Lia QArith.
From Stdlib Require Import Qround SpecFloat Sorted.
Import ListNotations.

Local Open Scope string_scope.
Local Open Scope Z_scope.

(** ** Exceptions and results *)

Inductive exn :=
| AttributeError (msg : string)
| ValueError (msg : string)
| OverflowError (msg : string)
| TypeError (msg : string)
| TimeoutException (url : string)
| NoSuchElementException (id : string)
| IndexError (msg : string)
| ParseError (field : string) (url : option string).

Inductive res (A : Type) :=
| Ok (a : A)
| Raise (e : exn).
Arguments Ok {A} a.
Arguments Raise {A} e.

Definition rbind {A B} (r : res A) (k : A -> res B) : res B :=
  match r with
  | Ok a => k a
  | Raise e => Raise e
  end.

(** ** Records *)

Record Row := mkRow {
  date : string;
  total_vaccinations : option Z;
  people_vaccinated : option Z;
  people_fully_vaccinated : option Z;
  total_boosters : option Z;
  source_url : string;
  location : option string;
  vaccine : option string
}.

Definition DataFrame := list Row.

(** [df.empty] *)
Definition empty (df : DataFrame) : bool :=
  match df with
  | [] => true
  | _ :: _ => false
  end.

(** [df.assign(location=v)] and [df.assign(vaccine=v)] *)
Definition assign_location (v : string) (df : DataFrame) : DataFrame :=
  map (fun r => mkRow (date r) (total_vaccinations r) (people_vaccinated r)
                      (people_fully_vaccinated r) (total_boosters r)
                      (source_url r) (Some v) (vaccine r)) df.

Definition assign_vaccine (v : string) (df : DataFrame) : DataFrame :=
  map (fun r => mkRow (date r) (total_vaccinations r) (people_vaccinated r)
                      (people_fully_vaccinated r) (total_boosters r)
                      (source_url r) (location r) (Some v)) df.

(** [series.isin(values)] on one value *)
Definition isin (d : string) (values : list string) : bool :=
  existsb (String.eqb d) values.

(** The [date] column of a frame. *)
Definition dates (df : DataFrame) : list string := map date df.

(** What [Series.max()] gives on a column of dates: the greatest of them,
    or NaN when the column has no row. *)
Inductive watermark :=
| Day (d : string)
| NaN.

Coercion Day : string >-> watermark.

(** [a <= b] for a date [a] and the outcome [b] of [.max()]: two [str] are
    compared as texts; a [str] and the float NaN are not comparable. *)
Definition not_supported : exn :=
  TypeError "'<=' not supported between instances of 'str' and 'float'".

Definition str_le (a : string) (b : watermark) : res bool :=
  match b with
  | Day d => Ok (a <=? d)%string
  | NaN => Raise not_supported
  end.

(** ** Characters

    A text is the list of its code points.  The tables are those of
    Unicode 14.0, which CPython 3.11 carries. *)

Definition str := list N.

Module Utf8.

Definition byte (a : ascii) : N := N_of_ascii a.

(** The six bits that a continuation byte carries. *)
Definition low6 (a : ascii) : N := N.land (byte a) 63.

(** The code points of a text given in UTF-8, as the literals of this
    file are.  The text is taken to be well formed: of a continuation
    byte only the six low bits are read; a byte that cannot start a
    character, or a character cut short by the end of the text, reads as
    U+FFFD. *)
Fixpoint decode (s : string) : str :=
  match s with
  | EmptyString => []
  | String a s1 =>
      let b := byte a in
      if (b <? 128)%N then b :: decode s1
      else if (b <? 192)%N then 65533%N :: decode s1
      else if (b <? 224)%N then
        match s1 with
        | String a1 s2 => ((b - 192) * 64 + low6 a1)%N :: decode s2
        | _ => [65533%N]
        end
      else if (b <? 240)%N then
        match s1 with
        | String a1 (String a2 s3) =>
            ((b - 224) * 4096 + low6 a1 * 64 + low6 a2)%N :: decode s3
        | _ => [65533%N]
        end
      else
        match s1 with
        | String a1 (String a2 (String a3 s4)) =>
            ((b - 240) * 262144 + low6 a1 * 4096 + low6 a2 * 64 + low6 a3)%N
              :: decode s4
        | _ => [65533%N]
        end
  end.

End Utf8.

(** A literal of the source as a text. *)
Definition u (s : string) : str := Utf8.decode s.

Module Unicode.

(** The digit zero of each of the 66 sets of decimal digits (general
    category Nd); the digits of a set follow its zero in order. *)
Definition decimal_zeros : list N :=
  [48; 1632; 1776; 1984; 2406; 2534; 2662; 2790; 2918; 3046; 3174; 3302;
   3430; 3558; 3664; 3792; 3872; 4160; 4240; 6112; 6160; 6470; 6608; 6784;
   6800; 6992; 7088; 7232; 7248; 42528; 43216; 43264; 43472; 43504; 43600;
   44016; 65296; 66720; 68912; 69734; 69872; 69942; 70096; 70384; 70736;
   70864; 71248; 71360; 71472; 71904; 72016; 72784; 73040; 73120; 92768;
   92864; 93008; 120782; 120792; 120802; 120812; 120822; 123200; 123632;
   125264; 130032]%N.

(** [Py_UNICODE_TODECIMAL]: the value of a decimal digit, of any script. *)
Definition todecimal (c : N) : option Z :=
  match find (fun z => (z <=? c)%N && (c <? z + 10)%N) decimal_zeros with
  | Some z => Some (Z.of_N (c - z))
  | None => None
  end.

(** [str.isdecimal] on one character; what [\d] matches. *)
Definition isdecimal (c : N) : bool :=
  match todecimal c with
  | Some _ => true
  | None => false
  end.

(** [str.isspace] on one character; what [\s] matches. *)
Definition isspace (c : N) : bool :=
  existsb (N.eqb c)
    [9; 10; 11; 12; 13; 28; 29; 30; 31; 32; 133; 160; 5760; 8192; 8193; 8194;
     8195; 8196; 8197; 8198; 8199; 8200; 8201; 8202; 8232; 8233; 8239; 8287;
     12288]%N.

(** The full stop. *)
Definition dot : N := 46%N.

End Unicode.

(** ** Regular expressions ([re.search])

    The patterns of the source use literals, the classes [.], [\d], [\s]
    and [[\d\.]], greedy repetition of a class and capture groups that are
    not nested.  [search] is a backtracking matcher for that fragment: the
    leftmost match, every repetition as long as possible.  The patterns
    are [str] patterns compiled without flags, so [\d] and [\s] are the
    Unicode classes and [.] is every character but the line feed. *)
Module Re.

Inductive cls := Any | Digit | Space | DigitDot.

Definition in_cls (c : cls) (a : N) : bool :=
  match c with
  | Any => negb (a =? 10)%N
  | Digit => Unicode.isdecimal a
  | Space => Unicode.isspace a
  | DigitDot => Unicode.isdecimal a || (a =? Unicode.dot)%N
  end.

Inductive tok :=
| Lit (l : str)
| Rep (c : cls) (lo : nat) (hi : option nat)
| Open
| Close.

Definition regex := list tok.

Fixpoint strip_prefix (l s : str) : option str :=
  match l with
  | [] => Some s
  | a :: l' =>
      match s with
      | b :: s' => if (a =? b)%N then strip_prefix l' s' else None
      | [] => None
      end
  end.

Definition below (n : nat) (hi : option nat) : bool :=
  match hi with
  | Some h => (n <? h)%nat
  | None => true
  end.

(** The text of the group that is open, if one is, grows by [l]. *)
Definition grow (cur : option str) (l : str) : option str :=
  option_map (fun g => g ++ l)%list cur.

Definition close (cur : option str) : str :=
  match cur with
  | Some g => g
  | None => []
  end.

(** A class repeated between [lo] and [hi] times, as often as possible;
    [k] matches what follows, [n] counts the repetitions made. *)
Fixpoint repeat_cls (k : str -> option str -> option (list str))
  (c : cls) (lo : nat) (hi : option nat) (s : str) (n : nat)
  (cur : option str) {struct s} : option (list str) :=
  let stop := if (lo <=? n)%nat then k s cur else None in
  match s with
  | a :: s' =>
      if in_cls c a && below n hi then
        match repeat_cls k c lo hi s' (S n) (grow cur [a]) with
        | Some g => Some g
        | None => stop
        end
      else stop
  | [] => stop
  end.

(** A match of [p] at the start of [s]; [done] are the groups closed so
    far. *)
Fixpoint match_here (p : regex) (s : str) (done : list str)
  (cur : option str) {struct p} : option (list str) :=
  match p with
  | [] => Some done
  | Lit l :: p' =>
      match strip_prefix l s with
      | Some s' => match_here p' s' done (grow cur l)
      | None => None
      end
  | Open :: p' => match_here p' s done (Some [])
  | Close :: p' => match_here p' s (done ++ [close cur])%list None
  | Rep c lo hi :: p' =>
      repeat_cls (fun s' cur' => match_here p' s' done cur') c lo hi s O cur
  end.

(** [re.search(p, s)]: [None], or the match object, of which the source
    reads the groups only. *)
Fixpoint search (p : regex) (s : str) : option (list str) :=
  match match_here p s [] None with
  | Some g => Some g
  | None =>
      match s with
      | _ :: s' => search p s'
      | [] => None
      end
  end.

(** The number of groups of a pattern. *)
Fixpoint groups (p : regex) : nat :=
  match p with
  | [] => O
  | Close :: p' => S (groups p')
  | _ :: p' => groups p'
  end.

End Re.

(** ** Floating point ([float], [*], [+], [int]) *)
Module PyFloat.

Definition prec : Z := 53.
Definition emax : Z := 1024.

Definition mul : spec_float -> spec_float -> spec_float := SFmul prec emax.
Definition add : spec_float -> spec_float -> spec_float := SFadd prec emax.

(** An integer literal such as [1e8] (exact below [2^53]). *)
Definition of_Z (n : Z) : spec_float := binary_normalize prec emax n 0 false.

(** Digits with at most one dot among them: the digits read as one
    integer, how many there are, and how many follow the dot.  A decimal
    digit of any script stands for its value, as [float] reads it. *)
Fixpoint scan (s : str) (dot : bool) (n : Z) (nd k : nat)
  : option (Z * nat * nat) :=
  match s with
  | [] => Some (n, nd, k)
  | a :: s' =>
      match Unicode.todecimal a with
      | Some v => scan s' dot (10 * n + v) (S nd) (if dot then S k else k)
      | None =>
          if (a =? Unicode.dot)%N then
            if dot then None else scan s' true n nd k
          else None
      end
  end.

(** The binary64 number nearest to [n / d] (ties to even). *)
Definition of_ratio (n : Z) (d : positive) : spec_float :=
  match n with
  | Zpos m => SFdiv prec emax (S754_finite false m 0) (S754_finite false d 0)
  | _ => S754_zero false
  end.

(** [float(s)] for a text of decimal digits and dots, which is all that a
    group [([\d\.]+)] can capture: the nearest binary64 number, or
    [ValueError] when there is no digit or more than one dot. *)
Definition float (s : str) : res spec_float :=
  match scan s false 0 O O with
  | Some (n, S _, k) => Ok (of_ratio n (Z.to_pos (10 ^ Z.of_nat k)))
  | _ => Raise (ValueError "could not convert string to float")
  end.

(** [int(x)]: truncation towards zero. *)
Definition int (x : spec_float) : res Z :=
  match x with
  | S754_zero _ => Ok 0
  | S754_finite s m e => Ok (cond_Zopp s (Z.shiftl (Zpos m) e))
  | S754_infinity _ =>
      Raise (OverflowError "cannot convert float infinity to integer")
  | S754_nan => Raise (ValueError "cannot convert float NaN to integer")
  end.

(** The rational number that a finite float stands for. *)
Definition to_Q (x : spec_float) : Q :=
  match x with
  | S754_finite s m e =>
      match e with
      | Zneg p => Qmake (cond_Zopp s (Zpos m)) (2 ^ p)
      | _ => inject_Z (cond_Zopp s (Zpos m) * 2 ^ e)
      end
  | _ => 0%Q
  end.

(** [round(x)] of Python: the nearest integer, a tie going to the even
    one. *)
Definition round_half_even (q : Q) : Z :=
  let f := Qfloor q in
  match Qcompare (q - inject_Z f) (1 # 2) with
  | Lt => f
  | Gt => f + 1
  | Eq => if Z.even f then f else f + 1
  end.

Definition nonneg (x : spec_float) : Prop :=
  match x with
  | S754_zero s | S754_infinity s | S754_finite s _ _ => s = false
  | S754_nan => True
  end.

End PyFloat.

(** ** Dates and counts (cowidev.utils.clean)

    The helpers of this module are not among the sources.  They are given
    texts that the patterns of the source have captured, in which a digit
    is any decimal digit; they read each digit by its value. *)
Module Clean.

Definition digit_char (n : Z) : ascii := ascii_of_nat (48 + Z.to_nat n).

Definition pad2 (n : Z) : string :=
  String (digit_char (n / 10 mod 10)) (String (digit_char (n mod 10)) "").

Definition pad4 (n : Z) : string :=
  String (digit_char (n / 1000 mod 10))
    (String (digit_char (n / 100 mod 10)) (pad2 n)).

(** Modelled from the spec: a numeric component of a date, as [clean_date]
    reads it: up to [hi] leading digits of [s], as many as there are. *)
Fixpoint take_digits (hi : nat) (s : str) (n : Z) (cnt : nat)
  : Z * nat * str :=
  match hi with
  | O => (n, cnt, s)
  | S hi' =>
      match s with
      | a :: s' =>
          match Unicode.todecimal a with
          | Some v => take_digits hi' s' (10 * n + v) (S cnt)
          | None => (n, cnt, s)
          end
      | [] => (n, cnt, s)
      end
  end.

Definition field (lo hi : nat) (s : str) : option (Z * str) :=
  let '(n, cnt, s') := take_digits hi s 0 O in
  if (lo <=? cnt)%nat then Some (n, s') else None.

(** Modelled from the spec: how [clean_date] reads a text in a format of
    [%Y] (four digits), [%m] and [%d] (one or two digits) and literal
    characters. *)
Fixpoint strptime (fmt : string) (s : str) (y m d : Z) {struct fmt}
  : option (Z * Z * Z) :=
  match fmt with
  | EmptyString =>
      match s with
      | [] => Some (y, m, d)
      | _ :: _ => None
      end
  | String a fmt' =>
      if Ascii.eqb a "%" then
        match fmt' with
        | String c fmt'' =>
            if Ascii.eqb c "Y" then
              match field 4 4 s with
              | Some (v, s') => strptime fmt'' s' v m d
              | None => None
              end
            else if Ascii.eqb c "m" then
              match field 1 2 s with
              | Some (v, s') => strptime fmt'' s' y v d
              | None => None
              end
            else if Ascii.eqb c "d" then
              match field 1 2 s with
              | Some (v, s') => strptime fmt'' s' y m v
              | None => None
              end
            else None
        | EmptyString => None
        end
      else
        match s with
        | b :: s' =>
            if (Utf8.byte a =? b)%N then strptime fmt' s' y m d else None
        | [] => None
        end
  end.

Definition leap (y : Z) : bool :=
  ((y mod 4 =? 0) && negb (y mod 100 =? 0)) || (y mod 400 =? 0).

Definition days_in_month (y m : Z) : Z :=
  if m =? 2 then (if leap y then 29 else 28)
  else if (m =? 4) || (m =? 6) || (m =? 9) || (m =? 11) then 30
  else 31.

Definition valid_date (y m d : Z) : bool :=
  (1 <=? m) && (m <=? 12) && (1 <=? d) && (d <=? days_in_month y m).

(** [DATE_FORMAT], the canonical form ["%Y-%m-%d"]. *)
Definition strftime (y m d : Z) : string :=
  pad4 y ++ "-" ++ pad2 m ++ "-" ++ pad2 d.

(** Modelled from the spec: [clean_date] of cowidev.utils.clean, which is
    not among the sources.  It reads [text] in format [fmt] and writes the
    day in canonical form; a text that is not a calendar date in that
    format is a [ParseError] on the field ["date"].  The function is given
    no URL, so the error carries none. *)
Definition clean_date (text : str) (fmt : string) : res string :=
  match strptime fmt text 1900 1 1 with
  | Some (y, m, d) =>
      if valid_date y m d then Ok (strftime y m d)
      else Raise (ParseError "date" None)
  | None => Raise (ParseError "date" None)
  end.

(** [sep.join(l)] *)
Fixpoint join (sep : str) (l : list str) : str :=
  match l with
  | [] => []
  | x :: l' =>
      match l' with
      | [] => x
      | _ :: _ => (x ++ sep ++ join sep l')%list
      end
  end.

(** Modelled from the spec: [extract_clean_date] of cowidev.utils.clean,
    which is not among the sources (the spec's [extractDate]): it applies
    the pattern, takes the captured date components and normalizes them;
    no match, or components that are no calendar date, is a [ParseError]
    on the field ["date"]. *)
Definition extract_clean_date (text : str) (regex : Re.regex)
  (date_format : string) : res string :=
  match Re.search regex text with
  | Some groups => clean_date (join (u " ") groups) date_format
  | None => Raise (ParseError "date" None)
  end.

(** Modelled from the spec: the digits of a count, as [clean_count] reads
    them, and how many there are. *)
Fixpoint digits_of (s : str) (n : Z) (cnt : nat) : Z * nat :=
  match s with
  | [] => (n, cnt)
  | a :: s' =>
      match Unicode.todecimal a with
      | Some v => digits_of s' (10 * n + v) (S cnt)
      | None => digits_of s' n cnt
      end
  end.

(** Modelled from the spec: [clean_count] of cowidev.utils.clean, which is
    not among the sources (the spec's [extractCount], whose pattern the
    caller has applied): grouping punctuation and magnitude words are
    stripped and the digits left are read as an integer; a text without a
    digit is a [ParseError]. *)
Definition clean_count (count : str) : res Z :=
  match digits_of count 0 O with
  | (n, S _) => Ok n
  | (_, O) => Raise (ParseError "count" None)
  end.

End Clean.

(** ** The browser and the data file

    A page offers what the scraper reads from it: the text of the element
    with id [xw_box], if there is one, and the anchors selected by [li>a],
    each with its text and its [href].  [web] is what a navigation finds
    at an address; no page is a navigation that times out. *)

Record page := mkPage {
  xw_box : option str;
  anchors : list (str * string)
}.

Definition web := string -> option page.

(** What a run can change: the page the browser shows, the addresses it
    has fetched, in order, how many browser sessions were opened and how
    many were closed, the persisted data file of the location, and, for
    the statements only, the greatest number of sessions that were open
    at the same time. *)
Record state := mkState {
  current : option page;
  visited : list string;
  acquired : nat;
  released : nat;
  datafile : DataFrame;
  peak : nat
}.

Definition M (A : Type) : Type := state -> res A * state.

Definition ret {A} (a : A) : M A := fun s => (Ok a, s).

Definition bind {A B} (c : M A) (k : A -> M B) : M B :=
  fun s =>
    match c s with
    | (Ok a, s') => k a s'
    | (Raise e, s') => (Raise e, s')
    end.

Definition lift {A} (r : res A) : M A := fun s => (r, s).

Notation "x <- c ;; k" := (bind c (fun x => k))
  (at level 61, c at next level, right associativity).
Notation "' pat <- c ;; k" := (bind c (fun x => let 'pat := x in k))
  (at level 61, pat pattern, c at next level, right associativity).
Notation "c ;;; k" := (bind c (fun _ => k))
  (at level 61, right associativity).

Module Driver.

(** [driver.get(url)] *)
Definition get (w : web) (url : string) : M unit :=
  fun s =>
    let s' := mkState (current s) (visited s ++ [url])%list (acquired s)
                      (released s) (datafile s) (peak s) in
    match w url with
    | Some p =>
        (Ok tt, mkState (Some p) (visited s') (acquired s') (released s')
                        (datafile s') (peak s'))
    | None => (Raise (TimeoutException url), s')
    end.

(** [driver.find_element_by_id(id).text]; the pages have one element
    with an id, [xw_box]. *)
Definition find_element_by_id (id : string) : M str :=
  fun s =>
    match current s with
    | Some p =>
        match (if String.eqb id "xw_box" then xw_box p else None) with
        | Some text => (Ok text, s)
        | None => (Raise (NoSuchElementException id), s)
        end
    | None => (Raise (NoSuchElementException id), s)
    end.

(** [driver.find_elements_by_css_selector(sel)]: the elements, each as
    its text and its [href]; the selector of the source is [li>a]. *)
Definition find_elements_by_css_selector (sel : string)
  : M (list (str * string)) :=
  fun s =>
    match current s with
    | Some p => (Ok (if String.eqb sel "li>a" then anchors p else []), s)
    | None => (Ok [], s)
    end.

(** Modelled from the spec: [get_driver] of cowidev.utils.web.scraping,
    which is not among the sources: the browser session as a scoped
    resource.  [with get_driver(...) as driver: body] opens a session with
    a blank page, runs [body], and closes the session on every way out of
    [body], by return or by exception, which it passes on.  The browser is
    taken to start: a session that cannot be started is none acquired,
    and is left out. *)
Definition with_driver {A} (body : M A) : M A :=
  fun s =>
    let s1 := mkState None (visited s) (S (acquired s)) (released s)
                      (datafile s)
                      (Nat.max (peak s) (S (acquired s) - released s)) in
    let (r, s2) := body s1 in
    (r, mkState None (visited s2) (acquired s2) (S (released s2))
                (datafile s2) (peak s2)).

End Driver.

(** ** The data file (CountryVaxBase) *)
Module Store.

(** [.date.max()] of line 107: the greatest date of the column, and NaN
    for a file without rows. *)
Definition greatest (ds : list string) : string :=
  fold_right (fun d m => if (m <=? d)%string then d else m) "" ds.

Definition date_max (ds : list string) : watermark :=
  match ds with
  | [] => NaN
  | _ :: _ => Day (greatest ds)
  end.

(** Modelled from the spec: [load_datafile] of CountryVaxBase, which is
    not among the sources: the persisted dataset of the location. *)
Definition load_datafile : M DataFrame := fun s => (Ok (datafile s), s).

(** Modelled from the spec: the merge of [attach]: the new records, and
    the records on file whose date no new record covers. *)
Definition attach (df prior : DataFrame) : DataFrame :=
  (df ++ filter (fun r => negb (isin (date r) (dates df))) prior)%list.

(** Modelled from the spec: [export_datafile(df, attach=True)] of
    CountryVaxBase, which is not among the sources: the merged dataset is
    computed, then it replaces the file. *)
Definition export_datafile (df : DataFrame) : M unit :=
  fun s =>
    let merged := attach df (datafile s) in
    (Ok tt, mkState (current s) (visited s) (acquired s) (released s) merged
                    (peak s)).

End Store.

(** ** The class [China] *)
Module China.

(** Class attributes; inside this module [location] and [source_url] are
    these, not the columns of a row. *)
Definition location : string := "China".
Definition source_url : string :=
  "http://www.nhc.gov.cn/xcs/yqjzqk/list_gzbd.shtml".
Definition source_url_complete : string :=
  "http://www.nhc.gov.cn/xcs/s2906/new_list.shtml".
Definition num_links_complete : nat := 3.

Import Re.

Definition d12 : tok := Rep Digit 1 (Some 2%nat).
Definition number : tok := Rep DigitDot 1 None.

(** [regex["date"]] *)
Definition regex_date : regex :=
  [Lit (u "截至"); Open; Lit (u "20"); Rep Digit 2 (Some 2%nat); Close;
   Lit (u "年"); Open; d12; Close; Lit (u "月"); Open; d12; Close;
   Lit (u "日")].

(** [regex["total_vaccinations"]] *)
Definition regex_total_vaccinations : regex :=
  [Open; number; Rep Space 0 None; Lit (u "万"); Close; Lit (u "剂次")].

(** [regex_complete["title"]] *)
Definition regex_title : regex :=
  [Lit (u "国务院联防联控机制"); Open; Lit (u "20"); Rep Digit 1 (Some 1%nat);
   Rep Digit 1 (Some 1%nat); Close; Lit (u "年"); Open; d12; Close;
   Lit (u "月"); Open; d12; Close; Lit (u "日新闻发布会文字实录")].

(** [regex_complete["doses"]] *)
Definition regex_doses : regex :=
  [Lit (u "截至"); Open; d12; Close; Lit (u "月"); Open; d12; Close;
   Lit (u "日"); Rep Any 0 None; Lit (u "计报告接种新冠疫苗"); Open; number;
   Close; Lit (u "亿"); Open; number; Close; Lit (u "万剂次")].

(** [regex_complete["people"]] *)
Definition regex_people : regex :=
  [Lit (u "接种总人数达"); Open; number; Close; Lit (u "亿"); Open; number;
   Close; Lit (u "万")].

(** [regex_complete["fully"]] *)
Definition regex_fully : regex :=
  [Lit (u "已完成全程接种"); Open; number; Close; Lit (u "亿"); Open; number;
   Close; Lit (u "万人，覆盖人数占全国总人口的")].

(** [regex_complete["boosters"]] *)
Definition regex_boosters : regex :=
  [Lit (u "完成加强免疫接种"); Open; number; Close; Lit (u "亿"); Open; number;
   Close; Lit (u "万人，其中序贯加强免疫接种")].

Definition none_has_no (attr : string) : exn :=
  AttributeError ("'NoneType' object has no attribute '" ++ attr ++ "'").

(** [re.search(p, text).group(1)] *)
Definition search_group1 (p : regex) (text : str) : res str :=
  match search p text with
  | Some (g :: _) => Ok g
  | Some [] => Raise (IndexError "no such group")
  | None => Raise (none_has_no "group")
  end.

(** [a, b = re.search(p, text).groups()] *)
Definition search_groups2 (p : regex) (text : str) : res (str * str) :=
  match search p text with
  | Some [a; b] => Ok (a, b)
  | Some _ => Raise (ValueError "wrong number of values to unpack")
  | None => Raise (none_has_no "groups")
  end.

(** [a, b, c, d = re.search(p, text).groups()] *)
Definition search_groups4 (p : regex) (text : str)
  : res (str * str * str * str) :=
  match search p text with
  | Some [a; b; c; d] => Ok (a, b, c, d)
  | Some _ => Raise (ValueError "wrong number of values to unpack")
  | None => Raise (none_has_no "groups")
  end.

Definition _get_links : M (list string) :=
  elems <- Driver.find_elements_by_css_selector "li>a" ;;
  ret (map snd elems).

Definition _parse_data (w : web) (url : string) : M Row :=
  Driver.get w url ;;;
  text <- Driver.find_element_by_id "xw_box" ;;
  d <- lift (Clean.extract_clean_date text regex_date "%Y %m %d") ;;
  n <- lift (rbind (search_group1 regex_total_vaccinations text)
                   Clean.clean_count) ;;
  ret (mkRow d (Some n) None None None url None None).

(** The loop of [read]: [data] is the list built so far.  The bulletin is
    fetched and parsed, then its date is compared with [last_update]. *)
Fixpoint read_loop (w : web) (last_update : watermark) (links : list string)
  (data : list Row) : M (list Row) :=
  match links with
  | [] => ret data
  | link :: links' =>
      data_ <- _parse_data w link ;;
      known <- lift (str_le (date data_) last_update) ;;
      if known then ret data
      else read_loop w last_update links' (data ++ [data_])%list
  end.

(** [time.sleep(5)] changes nothing that the model holds. *)
Definition read (w : web) (last_update : watermark) : M DataFrame :=
  Driver.with_driver
    (Driver.get w source_url ;;;
     links <- _get_links ;;
     read_loop w last_update links []).

Definition _get_links_complete : M (list string) :=
  elems <- Driver.find_elements_by_css_selector "li>a" ;;
  ret (map snd
         (filter (fun elem =>
                    match search regex_title (fst elem) with
                    | Some _ => true
                    | None => false
                    end) elems)).

Definition _estimate_metric (position_1 position_2 : str) : res Z :=
  rbind (PyFloat.float position_1) (fun f1 =>
  rbind (PyFloat.float position_2) (fun f2 =>
  PyFloat.int (PyFloat.add (PyFloat.mul f1 (PyFloat.of_Z 100000000))
                           (PyFloat.mul f2 (PyFloat.of_Z 10000))))).

Definition _parse_data_complete (w : web) (url : string) : M Row :=
  Driver.get w url ;;;
  text <- Driver.find_element_by_id "xw_box" ;;
  '(month, day, total_vaccinations_1, total_vaccinations_2) <-
    lift (search_groups4 regex_doses text) ;;
  '(people_vaccinated_1, people_vaccinated_2) <-
    lift (search_groups2 regex_people text) ;;
  '(people_fully_vaccinated_1, people_fully_vaccinated_2) <-
    lift (search_groups2 regex_fully text) ;;
  '(total_boosters_1, total_boosters_2) <-
    lift (search_groups2 regex_boosters text) ;;
  tv <- lift (_estimate_metric total_vaccinations_1 total_vaccinations_2) ;;
  pv <- lift (_estimate_metric people_vaccinated_1 people_vaccinated_2) ;;
  pf <- lift (_estimate_metric people_fully_vaccinated_1
                               people_fully_vaccinated_2) ;;
  tb <- lift (_estimate_metric total_boosters_1 total_boosters_2) ;;
  d <- lift (Clean.clean_date (u "2022-" ++ month ++ u "-" ++ day)%list
                              "%Y-%m-%d") ;;
  ret (mkRow d (Some tv) (Some pv) (Some pf) (Some tb) url None None).

(** The loop of [read_complete]. *)
Fixpoint complete_loop (w : web) (links : list string) (records : list Row)
  : M (list Row) :=
  match links with
  | [] => ret records
  | link :: links' =>
      r <- _parse_data_complete w link ;;
      complete_loop w links' (records ++ [r])%list
  end.

Definition read_complete (w : web) : M DataFrame :=
  Driver.with_driver
    (Driver.get w source_url_complete ;;;
     links <- _get_links_complete ;;
     complete_loop w (firstn num_links_complete links) []).

Definition pipe_metadata (df : DataFrame) : DataFrame :=
  assign_location location df.

Definition pipe_vaccine (df : DataFrame) : DataFrame :=
  assign_vaccine
    "CanSino, Sinopharm/Beijing, Sinopharm/Wuhan, Sinovac, ZF2001" df.

Definition pipeline (df : DataFrame) : DataFrame :=
  pipe_vaccine (pipe_metadata df).

(** The merge of [export]: the new records of the run.  [df_complete.date]
    is read only when [df] is not empty, and raises when [df_complete] is
    the frame without columns. *)
Definition merge (df df_complete : DataFrame) : res DataFrame :=
  if empty df then Ok df_complete
  else
    match df_complete with
    | [] => Raise (AttributeError "'DataFrame' object has no attribute 'date'")
    | _ :: _ =>
        Ok (df_complete
              ++ filter (fun r => negb (isin (date r) (dates df_complete))) df)%list
    end.

Definition export (w : web) : M unit :=
  file <- Store.load_datafile ;;
  let last_update := Store.date_max (dates file) in
  df <- read w last_update ;;
  df_complete <- read_complete w ;;
  let df := if negb (empty df) then pipeline df else df in
  let df_complete :=
    if negb (empty df_complete) then pipeline df_complete else df_complete in
  df <- lift (merge df df_complete) ;;
  Store.export_datafile df.

End China.

(** ** Reconciliation

    [reconcile I C P] is what a run writes when its two streams, after
    the pipeline, are [I] and [C] and the file holds [P]: the merge of
    [export] followed by the attachment to the file. *)
Definition reconcile (I C P : DataFrame) : res DataFrame :=
  rbind (China.merge I C) (fun df => Ok (Store.attach df P)).

(** A dataset with at most one record for a location and a date. *)
Definition key (r : Row) : option string * string := (location r, date r).

Definition one_per_key (df : DataFrame) : Prop := NoDup (map key df).

(** The vaccine string that the pipeline attaches. *)
Definition vaccine_label : string :=
  "CanSino, Sinopharm/Beijing, Sinopharm/Wuhan, Sinovac, ZF2001".

(** What the pipeline may change in a row: nothing but the two labels. *)
Definition labelled (r r' : Row) : Prop :=
  location r' = Some China.location /\
  vaccine r' = Some vaccine_label /\
  date r' = date r /\
  total_vaccinations r' = total_vaccinations r /\
  people_vaccinated r' = people_vaccinated r /\
  people_fully_vaccinated r' = people_fully_vaccinated r /\
  total_boosters r' = total_boosters r /\
  source_url r' = source_url r.

(** The rows of [df] whose date is none of [ds]. *)
Definition fresh (ds : list string) (df : DataFrame) : DataFrame :=
  filter (fun r => negb (isin (date r) ds)) df.

(** The claim as stated: the outcome is the sum rounded to the nearest
    integer. *)
Definition estimate_rounds : Prop :=
  forall (p1 p2 : str) (f1 f2 : spec_float) (n : Z),
    PyFloat.float p1 = Ok f1 -> PyFloat.float p2 = Ok f2 ->
    China._estimate_metric p1 p2 = Ok n ->
    n = PyFloat.round_half_even
          (PyFloat.to_Q
             (PyFloat.add (PyFloat.mul f1 (PyFloat.of_Z 100000000))
                          (PyFloat.mul f2 (PyFloat.of_Z 10000)))).

(** ** Example inputs *)

(** A run of the merge that shows two records for one day: the complete
    stream itself names a day twice, and nothing removes the second. *)
Definition twice : DataFrame :=
  [mkRow "2022-03-17" (Some 3214567000) (Some 1301005000) (Some 1250000000)
         (Some 812345000) "c1" (Some "China") (Some vaccine_label);
   mkRow "2022-03-17" (Some 3214567000) (Some 1301005000) (Some 1250000000)
         (Some 812345000) "c2" (Some "China") (Some vaccine_label)].

(** ** Vocabulary of the statements *)

(** Between two states: no session was opened or closed, and the data
    file is the same. *)
Definition steady (s s' : state) : Prop :=
  acquired s' = acquired s /\ released s' = released s /\
  datafile s' = datafile s /\ peak s' = peak s.

(** Between two states: the pages [l] were fetched, in that order, and
    nothing else changed but the page shown. *)
Definition fetches (l : list string) (s s' : state) : Prop :=
  visited s' = (visited s ++ l)%list /\ steady s s'.

(** A computation that only browses. *)
Definition walk {A} (c : M A) : Prop :=
  forall s r s', c s = (r, s') -> exists l, fetches l s s'.

(** A computation that leaves the state as it is. *)
Definition quiet {A} (c : M A) : Prop :=
  forall s r s', c s = (r, s') -> s' = s.

(** A computation whose outcome depends on the state through the page
    shown only. *)
Definition uniform {A} (c : M A) : Prop :=
  forall s1 s2, current s1 = current s2 ->
    fst (c s1) = fst (c s2) /\ current (snd (c s1)) = current (snd (c s2)).

(** The addresses fetched between [s] and [s']. *)
Definition fetched (s s' : state) : list string :=
  skipn (length (visited s)) (visited s').

(** The bulletin at [link] is parsed to the record [r]. *)
Definition yields (w : web) (link : string) (r : Row) : Prop :=
  forall s, fst (China._parse_data w link s) = Ok r.

(** The complete bulletin at [link] is parsed to the record [r]. *)
Definition yields_complete (w : web) (link : string) (r : Row) : Prop :=
  forall s, fst (China._parse_data_complete w link s) = Ok r.

(** Dates strictly decreasing along a list of records. *)
Definition newer (a b : Row) : Prop := (date b <? date a)%string = true.

(** [v] is the combination of the last two groups of a match. *)
Definition combined (groups : option (list str)) (v : option Z) : Prop :=
  exists pre g1 g2 n,
    groups = Some (pre ++ [g1; g2])%list /\
    China._estimate_metric g1 g2 = Ok n /\ v = Some n.

(** What [read_complete] makes of the bulletin at [link]. *)
Definition complete_record (w : web) (link : string) (r : Row) : Prop :=
  exists p text,
    w link = Some p /\ xw_box p = Some text /\
    source_url r = link /\
    combined (Re.search China.regex_doses text) (total_vaccinations r) /\
    combined (Re.search China.regex_people text) (people_vaccinated r) /\
    combined (Re.search China.regex_fully text) (people_fully_vaccinated r) /\
    combined (Re.search China.regex_boosters text) (total_boosters r).

(** What [_parse_data] makes of the bulletin at [link]: the date pattern
    and the count pattern both matched its text. *)
Definition incremental_record (w : web) (link : string) (r : Row) : Prop :=
  exists p text groups g rest n,
    w link = Some p /\ xw_box p = Some text /\
    source_url r = link /\
    Re.search China.regex_date text = Some groups /\
    Clean.extract_clean_date text China.regex_date "%Y %m %d" = Ok (date r) /\
    Re.search China.regex_total_vaccinations text = Some (g :: rest) /\
    Clean.clean_count g = Ok n /\ total_vaccinations r = Some n.

(** The links that [read_complete] follows from the index page. *)
Definition complete_links (index : page) : list string :=
  firstn China.num_links_complete
    (map snd
       (filter (fun elem =>
                  match Re.search China.regex_title (fst elem) with
                  | Some _ => true
                  | None => false
                  end) (anchors index))).

(** A date of the year 2022 in canonical form. *)
Definition in_2022 (d : string) : Prop :=
  exists m dd : Z,
    1 <= m <= 12 /\ 1 <= dd <= 31 /\
    d = "2022-" ++ Clean.pad2 m ++ "-" ++ Clean.pad2 dd.

(** The date of [r] is read from the month and the day that the [doses]
    pattern captures in the bulletin at [link], behind the year 2022. *)
Definition dated_by_month_day (w : web) (link : string) (r : Row) : Prop :=
  exists p text month day t1 t2,
    w link = Some p /\ xw_box p = Some text /\
    Re.search China.regex_doses text = Some [month; day; t1; t2] /\
    Clean.clean_date (u "2022-" ++ month ++ u "-" ++ day)%list "%Y-%m-%d"
      = Ok (date r).

(** An outcome that is no exception naming a field and a page. *)
Definition plain {A} (r : res A) : Prop :=
  forall e, r = Raise e -> forall field url, e <> ParseError field (Some url).

(** A computation none of whose exceptions names a field and a page. *)
Definition untyped {A} (c : M A) : Prop :=
  forall s e s', c s = (Raise e, s') ->
    forall field url, e <> ParseError field (Some url).

(** An exception that names the field and the page it failed on. *)
Definition typed_parse_error (e : exn) : Prop :=
  exists field url, e = ParseError field (Some url).

(** The claim as stated, on a page that was loaded and has its text: a
    failure of the parser is a [ParseError] with field and page. *)
Definition failures_are_typed : Prop :=
  forall (w : web) (url : string) (p : page) (text : str)
         (s s' : state) (e : exn),
    w url = Some p -> xw_box p = Some text ->
    China._parse_data_complete w url s = (Raise e, s') ->
    typed_parse_error e.

(** The claim as stated, for a listing [links] whose pages are parsed to
    [recs], newest first, and the date of the [k]-th record as the latest
    date on file: the records before the [k]-th are returned and the
    [k]-th page is not fetched. *)
Definition read_skips_known_page : Prop :=
  forall (w : web) (index : page) (links : list string) (recs : DataFrame)
         (k : nat) (rk : Row) (lk : string) (s s' : state)
         (r : res DataFrame),
    w China.source_url = Some index ->
    map snd (anchors index) = links ->
    Forall2 (yields w) links recs ->
    Sorted newer recs ->
    nth_error recs k = Some rk ->
    nth_error links k = Some lk ->
    China.read w (date rk) s = (r, s') ->
    r = Ok (firstn k recs) /\ ~ In lk (fetched s s').

(** The claim as stated: a run of [export] opens one session, and closes
    it. *)
Definition one_session_per_export : Prop :=
  forall (w : web) (s s' : state) (r : res unit),
    China.export w s = (r, s') ->
    acquired s' = S (acquired s) /\ released s' = S (released s).

(** ** A small web *)

Definition bulletin (y m d n : string) : page :=
  mkPage (Some (u ("截至" ++ y ++ "年" ++ m ++ "月" ++ d
                   ++ "日，累计报告接种新冠病毒疫苗" ++ n ++ "万剂次。"))) [].

Definition press_people : string := "接种总人数达13亿100.5万，".

Definition press (m d a b people : string) : page :=
  mkPage (Some (u ("截至" ++ m ++ "月" ++ d ++ "日，全国累计报告接种新冠疫苗"
                   ++ a ++ "亿" ++ b ++ "万剂次，" ++ people
                   ++ "已完成全程接种12亿5000万人，覆盖人数占全国总人口的90%。"
                   ++ "完成加强免疫接种8亿1234.5万人，其中序贯加强免疫接种4000万人。")))
         [].

Definition title (y m d : string) : str :=
  u ("国务院联防联控机制" ++ y ++ "年" ++ m ++ "月" ++ d
     ++ "日新闻发布会文字实录").

Definition incremental_index : page :=
  mkPage None [(u "a", "u1"); (u "b", "u2"); (u "c", "u3")].

Definition complete_index : page :=
  mkPage None [(title "2022" "3" "18", "c1"); (u "other", "x");
               (title "2021" "12" "29", "c2")].

(** Three bulletins, newest first, and two press conferences, the second
    one held in December 2021. *)
Definition web0 : web := fun url =>
  if String.eqb url China.source_url then Some incremental_index
  else if String.eqb url "u1" then Some (bulletin "2022" "3" "17" "321456.7")
  else if String.eqb url "u2" then Some (bulletin "2022" "3" "16" "321400.1")
  else if String.eqb url "u3" then Some (bulletin "2022" "3" "15" "321300")
  else if String.eqb url China.source_url_complete then Some complete_index
  else if String.eqb url "c1" then
    Some (press "3" "17" "32" "1456.7" press_people)
  else if String.eqb url "c2" then
    Some (press "12" "28" "28" "1000" press_people)
  else None.

(** The same web, but the first press conference does not give the number
    of people vaccinated, and there is a bulletin [u9] without a count. *)
Definition web1 : web := fun url =>
  if String.eqb url "c1" then Some (press "3" "17" "32" "1456.7" "")
  else if String.eqb url "u9" then
    Some (mkPage (Some (u "截至2022年3月18日，暂无数据。")) [])
  else web0 url.

(** The same web again, but both press conferences report the state of
    17 March. *)
Definition web2 : web := fun url =>
  if String.eqb url "c2" then Some (press "3" "17" "32" "1456.7" press_people)
  else web0 url.

Definition row_u1 : Row :=
  mkRow "2022-03-17" (Some 3214567) None None None "u1" None None.
Definition row_u2 : Row :=
  mkRow "2022-03-16" (Some 3214001) None None None "u2" None None.
Definition row_u3 : Row :=
  mkRow "2022-03-15" (Some 321300) None None None "u3" None None.

Definition row_c1 : Row :=
  mkRow "2022-03-17" (Some 3214567000) (Some 1301005000) (Some 1250000000)
        (Some 812345000) "c1" None None.
Definition row_c2 : Row :=
  mkRow "2022-12-28" (Some 2810000000) (Some 1301005000) (Some 1250000000)
        (Some 812345000) "c2" None None.

(** An incremental record after the pipeline. *)
Definition row_i : Row :=
  mkRow "2022-03-18" (Some 3215000) None None None "u0" (Some "China")
        (Some vaccine_label).

Definition on_file : DataFrame :=
  [mkRow "2022-03-16" (Some 3214001) None None None "u2" (Some "China")
         (Some vaccine_label)].

Definition state0 : state := mkState None [] 0 0 on_file 0.

(** The first run: the data file has no row. *)
Definition state_new : state := mkState None [] 0 0 [] 0.



(** ** Vocabulary of the further properties *)

(** The records at the head of a listing that are newer than [wm]: those
    before the first one dated [wm] or earlier. *)
Fixpoint newer_prefix (wm : string) (recs : list Row) : list Row :=
  match recs with
  | [] => []
  | r :: recs' =>
      if (date r <=? wm)%string then [] else r :: newer_prefix wm recs'
  end.

(** A row as [_parse_data] builds it for the bulletin at [link]: a date,
    the total count and the address, and no other column. *)
Definition incremental_row (link : string) (r : Row) : Prop :=
  source_url r = link /\
  (exists n, total_vaccinations r = Some n) /\
  people_vaccinated r = None /\
  people_fully_vaccinated r = None /\
  total_boosters r = None /\
  location r = None /\
  vaccine r = None.

(** Parsing the bulletin at [link] raises [e]. *)
Definition fails (w : web) (link : string) (e : exn) : Prop :=
  forall s, fst (China._parse_data w link s) = Raise e.

(** Parsing the complete bulletin at [link] raises [e]. *)
Definition fails_complete (w : web) (link : string) (e : exn) : Prop :=
  forall s, fst (China._parse_data_complete w link s) = Raise e.

(** [l1] is the beginning of [l2]. *)
Definition prefix_of {A} (l1 l2 : list A) : Prop :=
  exists rest, l2 = (l1 ++ rest)%list.

(** ** More of the small web *)

(** The listing out of order: the bulletin of 15 March stands before the
    one of 16 March. *)
Definition web_unsorted : web := fun url =>
  if String.eqb url China.source_url then
    Some (mkPage None [(u "a", "u1"); (u "c", "u3"); (u "b", "u2")])
  else web0 url.

(** The listing with the bulletin [u9], which has no count, in second
    place; and the complete index with the press conference [c1], which
    lacks a numeral group, in second place. *)
Definition web_broken : web := fun url =>
  if String.eqb url China.source_url then
    Some (mkPage None [(u "a", "u1"); (u "x", "u9"); (u "c", "u3")])
  else if String.eqb url China.source_url_complete then
    Some (mkPage None [(title "2021" "12" "29", "c2");
                       (title "2022" "3" "18", "c1");
                       (title "2021" "12" "29", "c2")])
  else web1 url.

(** No press conference is listed. *)
Definition web_no_complete : web := fun url =>
  if String.eqb url China.source_url_complete then
    Some (mkPage None [(u "other", "x")])
  else web0 url.

(** Nothing answers. *)
Definition web_down : web := fun _ => None.

(** ** The texts that a pattern captures *)

(** Every character of [s] is one that [P] accepts. *)
Definition all_chars (P : N -> bool) (s : str) : bool := forallb P s.

Definition within (hi : option nat) (n : nat) : Prop :=
  match hi with
  | Some h => (n <= h)%nat
  | None => True
  end.

(** [g] is matched, from its first to its last character, by the tokens
    [ts] of the inside of a group. *)
Fixpoint body_lang (ts : list Re.tok) (g : str) : Prop :=
  match ts with
  | [] => g = []
  | Re.Lit l :: ts' => exists g', g = (l ++ g')%list /\ body_lang ts' g'
  | Re.Rep c lo hi :: ts' =>
      exists r g',
        g = (r ++ g')%list /\ all_chars (Re.in_cls c) r = true /\
        (lo <= length r)%nat /\ within hi (length r) /\
        body_lang ts' g'
  | _ :: _ => False
  end.

(** The insides of the groups of a pattern, in order; [pend] holds, in
    reverse, the tokens of the group that is open. *)
Fixpoint bodies (p : Re.regex) (pend : option (list Re.tok))
  : list (list Re.tok) :=
  match p with
  | [] => []
  | Re.Open :: p' => bodies p' (Some [])
  | Re.Close :: p' =>
      match pend with
      | Some b => rev b
      | None => []
      end :: bodies p' None
  | t :: p' => bodies p' (option_map (cons t) pend)
  end.

(** The text gathered for the open group is matched by the tokens passed
    since it was opened. *)
Definition gathered (cur : option str) (pend : option (list Re.tok))
  : Prop :=
  match cur, pend with
  | None, None => True
  | Some g, Some b => body_lang (rev b) g
  | _, _ => False
  end.

(** One or two decimal digits. *)
Definition digits12 (g : str) : bool :=
  all_chars Unicode.isdecimal g && (1 <=? length g)%nat
  && (length g <=? 2)%nat.

(** At least one character, each a decimal digit or a dot. *)
Definition numeral (g : str) : bool :=
  all_chars (Re.in_cls Re.DigitDot) g && (1 <=? length g)%nat.

(** [20] and two decimal digits. *)
Definition year20 (g : str) : bool :=
  match g with
  | [a; b; c; d] =>
      (a =? 50)%N && (b =? 48)%N && Unicode.isdecimal c
      && Unicode.isdecimal d
  | _ => false
  end.

(** How many characters of [s] does [P] accept. *)
Fixpoint count_chars (P : N -> bool) (s : str) : nat :=
  match s with
  | [] => O
  | a :: s' => ((if P a then 1 else 0) + count_chars P s')%nat
  end.

(** At most one dot and at least one digit: the numerals that [float]
    reads. *)
Definition one_number (g : str) : bool :=
  (count_chars (fun a => (a =? Unicode.dot)%N) g <=? 1)%nat
  && (1 <=? count_chars Unicode.isdecimal g)%nat.

(** ** Whole numbers *)

(** The value of a decimal digit. *)
Definition digit_val (a : N) : Z :=
  match Unicode.todecimal a with
  | Some v => v
  | None => 0
  end.

(** The number that a text of digits writes, after the digits that made
    [n]. *)
Fixpoint decimal (s : str) (n : Z) : Z :=
  match s with
  | [] => n
  | a :: s' => decimal s' (10 * n + digit_val a)
  end.

(** At least one character, each a decimal digit. *)
Definition whole (g : str) : bool :=
  all_chars Unicode.isdecimal g && (1 <=? length g)%nat.

(** The float [x] is the integer [N], held without error. *)
Definition int_float (N : Z) (x : spec_float) : Prop :=
  (N = 0 /\ x = S754_zero false) \/
  (0 < N /\
   exists (m : positive) (k : Z),
     0 <= k /\ Z.pos m = N * 2 ^ k /\ x = S754_finite false m (- k)).
(** * Properties *)

(** ** The metadata pipeline *)

(** C9: the metadata pipeline maps a stream row by row, in order; every
    output row carries the source's location and vaccine strings, and its
    date, its four counts and its source URL are those of the input row. *)
Theorem pipeline_labels_only :
  forall df : DataFrame, Forall2 labelled df (China.pipeline df).
Proof.
  induction df as [|r df IH]; simpl.
  - constructor.
  - constructor; [|exact IH].
    unfold labelled; simpl; repeat split; reflexivity.
Qed.

(** ** Reconciliation *)

Section Reconcile.

Local Open Scope list_scope.

Lemma isin_In (d : string) (l : list string) : isin d l = true <-> In d l.
Proof.
  unfold isin. rewrite existsb_exists. split.
  - intros [x [Hx He]]. apply String.eqb_eq in He. now subst.
  - intros H. exists d. split; [exact H | apply String.eqb_refl].
Qed.

Lemma isin_false (d : string) (l : list string) :
  isin d l = false <-> ~ In d l.
Proof.
  rewrite <- isin_In. destruct (isin d l); split; intros H;
    try discriminate; try reflexivity; try (intros Hc; discriminate).
  exfalso. now apply H.
Qed.

Lemma In_fresh (ds : list string) (df : DataFrame) (r : Row) :
  In r (fresh ds df) <-> In r df /\ ~ In (date r) ds.
Proof.
  unfold fresh. rewrite filter_In, negb_true_iff, isin_false. tauto.
Qed.

Lemma fresh_covered (df : DataFrame) : fresh (dates df) df = [].
Proof.
  unfold fresh.
  assert (H : forall l, (forall r, In r l -> In (date r) (dates df)) ->
                        filter (fun r => negb (isin (date r) (dates df))) l = []).
  { induction l as [|a l IH]; intros Hl; simpl; [reflexivity|].
    assert (Ha : isin (date a) (dates df) = true)
      by (apply isin_In, Hl; now left).
    rewrite Ha. simpl. apply IH. intros r Hr. apply Hl. now right. }
  apply H. intros r Hr. unfold dates. now apply in_map.
Qed.

Lemma fresh_fresh (ds : list string) (df : DataFrame) :
  fresh ds (fresh ds df) = fresh ds df.
Proof.
  unfold fresh. induction df as [|a l IH]; simpl; [reflexivity|].
  destruct (negb (isin (date a) ds)) eqn:E; simpl; rewrite ?E, IH; reflexivity.
Qed.

Lemma attach_fresh (df prior : DataFrame) :
  Store.attach df prior = df ++ fresh (dates df) prior.
Proof. reflexivity. Qed.

Lemma attach_attach (df prior : DataFrame) :
  Store.attach df (Store.attach df prior) = Store.attach df prior.
Proof.
  rewrite !attach_fresh. f_equal.
  unfold fresh at 1. rewrite filter_app.
  fold (fresh (dates df) df). fold (fresh (dates df) (fresh (dates df) prior)).
  now rewrite fresh_covered, fresh_fresh.
Qed.

Lemma merge_Ok (I C df : DataFrame) :
  China.merge I C = Ok df -> df = C ++ fresh (dates C) I.
Proof.
  unfold China.merge. destruct I as [|i I]; simpl.
  - intros H. injection H as <-. now rewrite app_nil_r.
  - destruct C as [|c C]; [discriminate|]. intros H. now injection H as <-.
Qed.

Lemma merge_total (I C : DataFrame) :
  I = [] \/ C <> [] -> exists df, China.merge I C = Ok df.
Proof.
  unfold China.merge. intros [->|HC]; simpl; [now eexists|].
  destruct I; simpl; [now eexists|].
  destruct C; [congruence|now eexists].
Qed.

Lemma reconcile_Ok (I C P R : DataFrame) :
  reconcile I C P = Ok R ->
  R = C ++ fresh (dates C) I
        ++ fresh (dates (C ++ fresh (dates C) I)) P.
Proof.
  unfold reconcile. destruct (China.merge I C) as [df|e] eqn:E; simpl;
    [|discriminate].
  intros H. injection H as <-. apply merge_Ok in E. subst df.
  rewrite attach_fresh. now rewrite <- app_assoc.
Qed.

Lemma NoDup_dates_fresh (ds : list string) (df : DataFrame) :
  NoDup (dates df) -> NoDup (dates (fresh ds df)).
Proof.
  unfold fresh, dates. induction df as [|a l IH]; simpl; intros H.
  - constructor.
  - inversion H as [|x xs Hnin Hnd]; subst.
    destruct (negb (isin (date a) ds)); simpl; [|now apply IH].
    constructor; [|now apply IH].
    intros Hin. apply Hnin. apply in_map_iff in Hin.
    destruct Hin as [r [Hr Hf]]. apply filter_In in Hf.
    apply in_map_iff. exists r. tauto.
Qed.

Lemma dates_fresh_disjoint (ds : list string) (df : DataFrame) (d : string) :
  In d (dates (fresh ds df)) -> ~ In d ds.
Proof.
  unfold dates. rewrite in_map_iff. intros [r [<- Hr]].
  now apply In_fresh in Hr.
Qed.

Lemma NoDup_app_disjoint {A} (l1 l2 : list A) :
  NoDup l1 -> NoDup l2 -> (forall x, In x l2 -> ~ In x l1) -> NoDup (l1 ++ l2).
Proof.
  induction l1 as [|a l1 IH]; simpl; intros H1 H2 Hd; [exact H2|].
  inversion H1; subst. constructor.
  - rewrite in_app_iff. intros [Hin|Hin]; [contradiction|].
    apply (Hd a Hin). now left.
  - apply IH; auto. intros x Hx Hc. apply (Hd x Hx). now right.
Qed.

Lemma NoDup_dates_key (df : DataFrame) : NoDup (dates df) -> one_per_key df.
Proof.
  unfold one_per_key, dates. induction df as [|a l IH]; simpl; intros H.
  - constructor.
  - inversion H; subst. constructor; [|now apply IH].
    intros Hin. apply in_map_iff in Hin. destruct Hin as [r [Hk Hr]].
    match goal with Hn : ~ In (date a) _ |- _ => apply Hn end.
    apply in_map_iff. exists r. split; [|exact Hr].
    unfold key in Hk. congruence.
Qed.

End Reconcile.

(** C1, as stated, fails: a complete stream with two bulletins for one
    day is reconciled to a dataset with two records for that day. *)
Lemma reconcile_duplicate_day :
  ~ (forall I C P R : DataFrame, reconcile I C P = Ok R -> one_per_key R).
Proof.
  intros H. specialize (H [] twice [] twice eq_refl).
  unfold one_per_key in H. simpl in H.
  inversion H as [|x l Hnin _]; subst. apply Hnin. now left.
Qed.

(** Such streams are scraped: when two press conferences report the state
    of the same day, the run writes two records for that day. *)
Example export_duplicate_day :
  ~ one_per_key (datafile (snd (China.export web2 state0))).
Proof.
  vm_compute. intros H. inversion H as [|x l Hnin _]; subst.
  apply Hnin. now left.
Qed.

(** The merge reads [df_complete.date] whenever there are incremental
    records; with no complete bulletin on the index page that frame has no
    columns, and the run ends in an [AttributeError] before anything is
    written. *)
Example reconcile_without_complete_raises :
  forall P : DataFrame,
    reconcile [row_i] [] P
    = Raise (AttributeError "'DataFrame' object has no attribute 'date'").
Proof. reflexivity. Qed.

(** C1, amended: when reconciliation returns a dataset, every complete
    record is in it; a record of it whose date occurs in the complete
    stream is one of the complete records, whole; every record of it is a
    record of one of the three inputs; an incremental or prior record is
    in it only by a date that the streams before it do not have; and when
    no date occurs twice within the complete stream, within the
    incremental stream and within the prior dataset, the result has at
    most one record for a location and a date. *)
Theorem reconcile_complete_wins :
  forall I C P R : DataFrame,
    reconcile I C P = Ok R ->
    (forall c, In c C -> In c R) /\
    (forall r, In r R -> In (date r) (dates C) -> In r C) /\
    (forall r, In r R ->
       In r C \/
       (In r I /\ ~ In (date r) (dates C)) \/
       (In r P /\ ~ In (date r) (dates C) /\
        forall i, In i I -> date i <> date r)) /\
    (forall i, In i I -> ~ In (date i) (dates C) -> In i R) /\
    (NoDup (dates C) -> NoDup (dates I) -> NoDup (dates P) ->
     NoDup (dates R) /\ one_per_key R).
Proof.
  intros I C P R H. apply reconcile_Ok in H.
  set (I' := fresh (dates C) I) in *.
  set (P' := fresh (dates (C ++ I')%list) P) in *.
  assert (HR : forall r, In r R <-> In r C \/ In r I' \/ In r P').
  { intros r. subst R. rewrite !in_app_iff. tauto. }
  assert (HP' : forall r, In r P' ->
            In r P /\ ~ In (date r) (dates C) /\
            forall i, In i I -> date i <> date r).
  { intros r Hr. apply In_fresh in Hr. destruct Hr as [Hp Hn].
    unfold dates in Hn. rewrite map_app, in_app_iff in Hn.
    split; [exact Hp|]. split; [tauto|].
    intros i Hi Heq. apply Hn. right.
    apply in_map_iff. exists i. split; [exact Heq|].
    apply In_fresh. split; [exact Hi|]. rewrite Heq. tauto. }
  split; [|split; [|split; [|split]]].
  - intros c Hc. apply HR. now left.
  - intros r Hr Hd. apply HR in Hr. destruct Hr as [Hr|[Hr|Hr]].
    + exact Hr.
    + apply In_fresh in Hr. tauto.
    + apply HP' in Hr. tauto.
  - intros r Hr. apply HR in Hr. destruct Hr as [Hr|[Hr|Hr]].
    + now left.
    + right; left. now apply In_fresh in Hr.
    + right; right. now apply HP'.
  - intros i Hi Hn. apply HR. right; left. apply In_fresh. tauto.
  - intros HC HI HP.
    assert (Hnd : NoDup (dates R)).
    { subst R. unfold dates. rewrite !map_app.
      apply NoDup_app_disjoint; [exact HC| |].
      - apply NoDup_app_disjoint.
        + now apply NoDup_dates_fresh.
        + now apply NoDup_dates_fresh.
        + intros x Hx Hc. apply dates_fresh_disjoint in Hx. apply Hx.
          unfold dates. rewrite map_app, in_app_iff. now right.
      - intros x Hx Hc. rewrite in_app_iff in Hx. destruct Hx as [Hx|Hx].
        + now apply dates_fresh_disjoint in Hx.
        + apply dates_fresh_disjoint in Hx. apply Hx.
          unfold dates. rewrite map_app, in_app_iff. now left. }
    split; [exact Hnd | now apply NoDup_dates_key].
Qed.

(** The scenario of the spec: the complete record replaces the record on
    file for 1 January, the incremental record for 3 January is added. *)
Lemma reconcile_complete_wins_witness :
  let c := mkRow "2022-01-01" (Some 110) (Some 90) (Some 80) (Some 5) "c"
                 (Some "China") (Some vaccine_label) in
  let i := mkRow "2022-01-03" (Some 130) None None None "i"
                 (Some "China") (Some vaccine_label) in
  let p := mkRow "2022-01-01" (Some 100) None None None "p"
                 (Some "China") (Some vaccine_label) in
  reconcile [i] [c] [p] = Ok [c; i] /\ one_per_key [c; i].
Proof.
  intros c i p. split; [reflexivity|].
  apply (reconcile_complete_wins [i] [c] [p] [c; i] eq_refl);
    repeat constructor; simpl; tauto.
Defined.

(** C4: reconciliation is idempotent.  Reconciling the same streams with
    the outcome of a reconciliation as the prior dataset gives that outcome
    again (an exception of the first run is the outcome of both sides); and
    reconciling empty streams with a dataset returns that dataset. *)
Theorem reconcile_idempotent :
  (forall I C P : DataFrame,
     rbind (reconcile I C P) (reconcile I C) = reconcile I C P) /\
  (forall R : DataFrame, reconcile [] [] R = Ok R).
Proof.
  split.
  - intros I C P. unfold reconcile.
    destruct (China.merge I C) as [df|e] eqn:E; cbn [rbind]; [|reflexivity].
    now rewrite attach_attach.
  - intros R. unfold reconcile. simpl. rewrite attach_fresh. simpl.
    f_equal. unfold fresh. simpl. induction R as [|a l IH]; simpl; congruence.
Qed.

(** A second run on the scenario of the spec changes nothing. *)
Example reconcile_twice :
  let c := mkRow "2022-01-01" (Some 110) (Some 90) (Some 80) (Some 5) "c"
                 (Some "China") (Some vaccine_label) in
  let i := mkRow "2022-01-03" (Some 130) None None None "i"
                 (Some "China") (Some vaccine_label) in
  reconcile [i] [c] [c; i] = Ok [c; i] /\ reconcile [] [] [c; i] = Ok [c; i].
Proof. split; reflexivity. Qed.

(** ** The two-magnitude combination *)

Section Magnitudes.

Import PyFloat.

Lemma binary_round_aux_sign (mx ex : Z) (lx : SpecFloat.location) :
  nonneg (binary_round_aux prec emax false mx ex lx).
Proof.
  unfold binary_round_aux.
  destruct (shr_fexp prec emax mx ex lx) as [mrs e'].
  destruct (shr_fexp prec emax _ e' loc_Exact) as [mrs' e''].
  destruct (shr_m mrs'); [| destruct (Z.leb _ _) |]; simpl; trivial.
Qed.

Lemma float_nonneg (p : str) (f : spec_float) :
  float p = Ok f -> nonneg f.
Proof.
  unfold float. destruct (scan p false 0 0 0) as [[[n nd] k]|]; [|discriminate].
  destruct nd; [discriminate|]. intros H. injection H as <-.
  unfold of_ratio. destruct n; simpl; try reflexivity.
  unfold SFdiv. destruct (SFdiv_core_binary _ _ _ _ _ _) as [[mz ez] lz].
  apply binary_round_aux_sign.
Qed.

Lemma mul_nonneg (x : spec_float) (m : positive) (e : Z) :
  nonneg x -> nonneg (mul x (S754_finite false m e)).
Proof.
  destruct x as [s|s| |s mx ex]; simpl; intros H; subst; trivial.
  apply binary_round_aux_sign.
Qed.

Lemma add_nonneg (x y : spec_float) :
  nonneg x -> nonneg y -> nonneg (add x y).
Proof.
  destruct x as [sx|sx| |sx mx ex], y as [sy|sy| |sy my ey]; simpl nonneg;
    intros Hx Hy; subst; trivial; try reflexivity.
  unfold add, SFadd, cond_Zopp.
  destruct (shl_align mx ex _) as [m1 e1], (shl_align my ey _) as [m2 e2].
  cbn [fst]. change (Z.pos m1 + Z.pos m2) with (Z.pos (m1 + m2)).
  unfold binary_normalize, binary_round.
  destruct (shl_align _ _ _) as [mz ez].
  apply binary_round_aux_sign.
Qed.

Lemma Q_floor_self (z : Z) :
  (inject_Z z <= inject_Z z)%Q /\ (inject_Z z < inject_Z z + 1)%Q.
Proof.
  split; [apply Qle_refl|].
  unfold Qlt, Qplus, inject_Z; simpl. lia.
Qed.

Lemma int_floor (x : spec_float) (n : Z) :
  nonneg x -> int x = Ok n ->
  0 <= n /\ (inject_Z n <= to_Q x)%Q /\ (to_Q x < inject_Z n + 1)%Q.
Proof.
  destruct x as [s|s| |s m e]; cbn [nonneg int to_Q]; intros Hs H;
    try discriminate.
  - injection H as <-. split; [lia|]. apply (Q_floor_self 0).
  - subst s. injection H as <-. cbn [cond_Zopp].
    destruct e as [|p|p].
    + rewrite Z.shiftl_0_r. change (2 ^ 0) with 1. rewrite Z.mul_1_r.
      split; [lia|]. apply Q_floor_self.
    + rewrite Z.shiftl_mul_pow2 by lia.
      split; [|apply Q_floor_self].
      apply Z.mul_nonneg_nonneg; [lia|]. apply Z.pow_nonneg. lia.
    + change (Z.shiftl (Z.pos m) (Z.neg p)) with (Z.shiftr (Z.pos m) (Z.pos p)).
      rewrite Z.shiftr_div_pow2 by lia.
      assert (Hd : 0 < 2 ^ Z.pos p) by (apply Z.pow_pos_nonneg; lia).
      assert (Hp : Z.pos (2 ^ p) = 2 ^ Z.pos p) by apply Pos2Z.inj_pow.
      pose proof (Z.div_pos (Z.pos m) (2 ^ Z.pos p) ltac:(lia) Hd) as H0.
      pose proof (Z.mul_div_le (Z.pos m) (2 ^ Z.pos p) Hd) as H1.
      pose proof (Z.mul_succ_div_gt (Z.pos m) (2 ^ Z.pos p) Hd) as H2.
      split; [exact H0|].
      unfold Qle, Qlt, Qplus, inject_Z; cbn [Qnum Qden].
      rewrite Hp. split; nia.
Qed.

End Magnitudes.

(** C3, as stated, fails: for the groups [0] and [0.046875] the sum is
    468.75, which [int] cuts to 468 and [round] would take to 469. *)
Lemma estimate_metric_not_round : ~ estimate_rounds.
Proof.
  intros H.
  specialize (H (u "0") (u "0.046875") _ _ 468 eq_refl eq_refl).
  vm_compute in H. specialize (H eq_refl). discriminate H.
Qed.

(** Rounding errors of the products show through the cut: 33.91e8 plus
    6573.2e4 is 3456732000, and the function returns one less. *)
Example estimate_metric_one_less :
  China._estimate_metric (u "33.91") (u "6573.2") = Ok 3456731999.
Proof. vm_compute. reflexivity. Qed.

(** C3, amended: when the combination returns [n], both groups were read
    as numbers and [n] is the binary64 sum [v1 * 1e8 + v2 * 1e4] cut to an
    integer: [0 <= n <= sum < n + 1]; the sum is not rounded to the nearest
    integer.  On the groups [3] and [1500] it returns 315000000. *)
Theorem estimate_metric_truncates :
  (forall (p1 p2 : str) (n : Z),
     China._estimate_metric p1 p2 = Ok n ->
     exists f1 f2 : spec_float,
       PyFloat.float p1 = Ok f1 /\ PyFloat.float p2 = Ok f2 /\
       let sum := PyFloat.add (PyFloat.mul f1 (PyFloat.of_Z 100000000))
                              (PyFloat.mul f2 (PyFloat.of_Z 10000)) in
       0 <= n /\
       (inject_Z n <= PyFloat.to_Q sum)%Q /\
       (PyFloat.to_Q sum < inject_Z n + 1)%Q) /\
  China._estimate_metric (u "3") (u "1500") = Ok 315000000.
Proof.
  split; [|vm_compute; reflexivity].
  intros p1 p2 n H. unfold China._estimate_metric in H.
  destruct (PyFloat.float p1) as [f1|e1] eqn:E1; [|discriminate].
  destruct (PyFloat.float p2) as [f2|e2] eqn:E2; [|discriminate].
  cbn [rbind] in H. exists f1, f2. split; [reflexivity|]. split; [reflexivity|].
  cbv zeta. apply int_floor; [|exact H].
  apply add_nonneg.
  - change (PyFloat.of_Z 100000000) with
      (S754_finite false 6710886400000000 (-26)).
    apply mul_nonneg. eapply float_nonneg; eassumption.
  - change (PyFloat.of_Z 10000) with (S754_finite false 5497558138880000 (-39)).
    apply mul_nonneg. eapply float_nonneg; eassumption.
Qed.

Lemma estimate_metric_truncates_witness :
  exists f1 f2 : spec_float,
    PyFloat.float (u "0") = Ok f1 /\ PyFloat.float (u "0.046875") = Ok f2 /\
    let sum := PyFloat.add (PyFloat.mul f1 (PyFloat.of_Z 100000000))
                           (PyFloat.mul f2 (PyFloat.of_Z 10000)) in
    0 <= 468 /\
    (inject_Z 468 <= PyFloat.to_Q sum)%Q /\
    (PyFloat.to_Q sum < inject_Z 468 + 1)%Q.
Proof.
  apply (proj1 estimate_metric_truncates (u "0") (u "0.046875") 468).
  vm_compute. reflexivity.
Defined.

(** ** The monad and the browser *)

Section Frames.

Local Open Scope list_scope.

Lemma bind_Ok {A B} (c : M A) (k : A -> M B) (s s' : state) (b : B) :
  bind c k s = (Ok b, s') ->
  exists a s1, c s = (Ok a, s1) /\ k a s1 = (Ok b, s').
Proof.
  unfold bind. destruct (c s) as [[a|e] s1]; intros H; [|discriminate].
  now exists a, s1.
Qed.

Lemma bind_Raise {A B} (c : M A) (k : A -> M B) (s s' : state) (e : exn) :
  bind c k s = (Raise e, s') ->
  c s = (Raise e, s') \/
  exists a s1, c s = (Ok a, s1) /\ k a s1 = (Raise e, s').
Proof.
  unfold bind. destruct (c s) as [[a|e0] s1]; intros H.
  - right. now exists a, s1.
  - left. congruence.
Qed.

Lemma lift_inv {A} (r r' : res A) (s s' : state) :
  lift r s = (r', s') -> r' = r /\ s' = s.
Proof. unfold lift. intros H. now injection H as <- <-. Qed.

Lemma steady_refl (s : state) : steady s s.
Proof. unfold steady. tauto. Qed.

Lemma steady_trans (s1 s2 s3 : state) :
  steady s1 s2 -> steady s2 s3 -> steady s1 s3.
Proof. unfold steady. intuition congruence. Qed.

Lemma fetches_nil (s : state) : fetches [] s s.
Proof. split; [now rewrite app_nil_r | apply steady_refl]. Qed.

Lemma fetches_trans (l1 l2 : list string) (s1 s2 s3 : state) :
  fetches l1 s1 s2 -> fetches l2 s2 s3 -> fetches (l1 ++ l2) s1 s3.
Proof.
  intros [H1 S1] [H2 S2]. split; [|eapply steady_trans; eassumption].
  now rewrite H2, H1, app_assoc.
Qed.

Lemma walk_ret {A} (a : A) : walk (ret a).
Proof.
  intros s r s' H. injection H as <- <-. exists []. apply fetches_nil.
Qed.

Lemma walk_lift {A} (r : res A) : walk (lift r).
Proof.
  intros s r' s' H. apply lift_inv in H as [_ ->]. exists [].
  apply fetches_nil.
Qed.

Lemma walk_bind {A B} (c : M A) (k : A -> M B) :
  walk c -> (forall a, walk (k a)) -> walk (bind c k).
Proof.
  intros Hc Hk s r s' H. unfold bind in H.
  destruct (c s) as [[a|e] s1] eqn:E.
  - destruct (Hc _ _ _ E) as [l1 H1]. destruct (Hk a _ _ _ H) as [l2 H2].
    exists (l1 ++ l2). eapply fetches_trans; eassumption.
  - injection H as <- <-. exact (Hc _ _ _ E).
Qed.

Lemma get_fetches (w : web) (url : string) (s s' : state) (r : res unit) :
  Driver.get w url s = (r, s') -> fetches [url] s s'.
Proof.
  unfold Driver.get. destruct (w url); intros H; injection H as <- <-;
    repeat split; reflexivity.
Qed.

Lemma walk_get (w : web) (url : string) : walk (Driver.get w url).
Proof. intros s r s' H. exists [url]. eapply get_fetches, H. Qed.

Lemma walk_find_element (id : string) : walk (Driver.find_element_by_id id).
Proof.
  intros s r s' H. exists []. unfold Driver.find_element_by_id in H.
  destruct (current s) as [p|]; [destruct (if (id =? "xw_box")%string then _ else _)|];
    injection H as <- <-; apply fetches_nil.
Qed.

Lemma walk_find_elements (sel : string) :
  walk (Driver.find_elements_by_css_selector sel).
Proof.
  intros s r s' H. exists []. unfold Driver.find_elements_by_css_selector in H.
  destruct (current s); injection H as <- <-; apply fetches_nil.
Qed.

Lemma quiet_ret {A} (a : A) : quiet (ret a).
Proof. intros s r s' H. now injection H as <- <-. Qed.

Lemma quiet_lift {A} (r : res A) : quiet (lift r).
Proof. intros s r' s' H. now apply lift_inv in H. Qed.

Lemma quiet_bind {A B} (c : M A) (k : A -> M B) :
  quiet c -> (forall a, quiet (k a)) -> quiet (bind c k).
Proof.
  intros Hc Hk s r s' H. unfold bind in H.
  destruct (c s) as [[a|e] s1] eqn:E.
  - apply Hc in E. subst s1. eapply Hk, H.
  - injection H as <- <-. eapply Hc, E.
Qed.

Lemma quiet_find_element (id : string) : quiet (Driver.find_element_by_id id).
Proof.
  intros s r s' H. unfold Driver.find_element_by_id in H.
  destruct (current s) as [p|];
    [destruct (if (id =? "xw_box")%string then _ else _)|];
    now injection H as <- <-.
Qed.

Lemma quiet_find_elements (sel : string) :
  quiet (Driver.find_elements_by_css_selector sel).
Proof.
  intros s r s' H. unfold Driver.find_elements_by_css_selector in H.
  destruct (current s); now injection H as <- <-.
Qed.

Lemma uniform_ret {A} (a : A) : uniform (ret a).
Proof. intros s1 s2 H. simpl. now split. Qed.

Lemma uniform_lift {A} (r : res A) : uniform (lift r).
Proof. intros s1 s2 H. simpl. now split. Qed.

Lemma uniform_bind {A B} (c : M A) (k : A -> M B) :
  uniform c -> (forall a, uniform (k a)) -> uniform (bind c k).
Proof.
  intros Hc Hk s1 s2 H. unfold bind.
  destruct (Hc s1 s2 H) as [Hf Hcur].
  destruct (c s1) as [[a1|e1] t1], (c s2) as [[a2|e2] t2]; simpl in Hf, Hcur;
    try discriminate.
  - injection Hf as ->. now apply Hk.
  - injection Hf as ->. simpl. now split.
Qed.

Lemma uniform_get (w : web) (url : string) : uniform (Driver.get w url).
Proof.
  intros s1 s2 H. unfold Driver.get. destruct (w url); simpl; now split.
Qed.

Lemma uniform_find_element (id : string) :
  uniform (Driver.find_element_by_id id).
Proof.
  intros s1 s2 H. unfold Driver.find_element_by_id. rewrite H.
  destruct (current s2) as [p|] eqn:E;
    [destruct (if (id =? "xw_box")%string then _ else _)|];
    simpl; split; congruence.
Qed.

Lemma uniform_find_elements (sel : string) :
  uniform (Driver.find_elements_by_css_selector sel).
Proof.
  intros s1 s2 H. unfold Driver.find_elements_by_css_selector. rewrite H.
  destruct (current s2) eqn:E; simpl; split; congruence.
Qed.

Lemma with_driver_inv {A} (body : M A) (s s' : state) (r : res A) :
  Driver.with_driver body s = (r, s') ->
  exists s2,
    body (mkState None (visited s) (S (acquired s)) (released s) (datafile s)
                  (Nat.max (peak s) (S (acquired s) - released s)))
      = (r, s2) /\
    s' = mkState None (visited s2) (acquired s2) (S (released s2))
                 (datafile s2) (peak s2).
Proof.
  unfold Driver.with_driver.
  destruct (body _) as [r0 s2]. intros H. injection H as <- <-.
  now exists s2.
Qed.

Lemma with_driver_uniform {A} (body : M A) (s1 s2 : state) :
  uniform body ->
  fst (Driver.with_driver body s1) = fst (Driver.with_driver body s2).
Proof.
  intros Hb. unfold Driver.with_driver.
  match goal with
  | |- fst (let (_, _) := body ?a in _) = fst (let (_, _) := body ?b in _) =>
      destruct (Hb a b eq_refl) as [Hf _];
      destruct (body a), (body b)
  end.
  exact Hf.
Qed.

End Frames.

Create HintDb scraper.

#[local] Hint Resolve walk_ret walk_lift walk_get walk_find_element
  walk_find_elements uniform_ret uniform_lift uniform_get
  uniform_find_element uniform_find_elements quiet_ret quiet_lift
  quiet_find_element quiet_find_elements : scraper.

Ltac scraper :=
  repeat first
    [ progress auto with scraper
    | apply walk_bind; [|intros]
    | apply uniform_bind; [|intros]
    | apply quiet_bind; [|intros]
    | match goal with
      | x : (_ * _)%type |- _ => destruct x
      end ].

(** ** The page parsers *)

Section Parsers.

Local Open Scope list_scope.

Variable w : web.

Lemma walk_parse_data (url : string) : walk (China._parse_data w url).
Proof. unfold China._parse_data. scraper. Qed.

Lemma uniform_parse_data (url : string) : uniform (China._parse_data w url).
Proof. unfold China._parse_data. scraper. Qed.

Lemma walk_parse_data_complete (url : string) :
  walk (China._parse_data_complete w url).
Proof. unfold China._parse_data_complete. scraper. Qed.

Lemma uniform_parse_data_complete (url : string) :
  uniform (China._parse_data_complete w url).
Proof. unfold China._parse_data_complete. scraper. Qed.

Lemma quiet_after_get {A} (url : string) (k : M A) (s s' : state) (r : res A) :
  quiet k -> (Driver.get w url ;;; k) s = (r, s') -> fetches [url] s s'.
Proof.
  intros Hk H. unfold bind in H.
  destruct (Driver.get w url s) as [[[]|e] s1] eqn:E.
  - apply Hk in H. subst s'. eapply get_fetches, E.
  - injection H as <- <-. eapply get_fetches, E.
Qed.

Lemma parse_data_fetches (url : string) (s s' : state) (r : res Row) :
  China._parse_data w url s = (r, s') -> fetches [url] s s'.
Proof. unfold China._parse_data. apply quiet_after_get. scraper. Qed.

Lemma parse_data_complete_fetches (url : string) (s s' : state) (r : res Row) :
  China._parse_data_complete w url s = (r, s') -> fetches [url] s s'.
Proof. unfold China._parse_data_complete. apply quiet_after_get. scraper. Qed.

Lemma get_then_uniform {A} (k : M A) (url : string) (s1 s2 : state) :
  uniform k ->
  fst ((Driver.get w url ;;; k) s1) = fst ((Driver.get w url ;;; k) s2).
Proof.
  intros Hk. unfold bind, Driver.get. destruct (w url); [|reflexivity].
  now apply Hk.
Qed.

Lemma get_at (url : string) (p : page) (s : state) :
  w url = Some p ->
  Driver.get w url s
  = (Ok tt, mkState (Some p) (visited s ++ [url]) (acquired s) (released s)
                    (datafile s) (peak s)).
Proof. unfold Driver.get. now intros ->. Qed.

Lemma fetched_app (s s' : state) (l : list string) :
  visited s' = visited s ++ l -> fetched s s' = l.
Proof.
  unfold fetched. intros ->. rewrite skipn_app, Nat.sub_diag, skipn_all.
  reflexivity.
Qed.

Lemma search_groups2_Ok (p : Re.regex) (text a b : str) :
  China.search_groups2 p text = Ok (a, b) -> Re.search p text = Some [a; b].
Proof.
  unfold China.search_groups2.
  destruct (Re.search p text) as [[|x [|y [|z l]]]|]; intros H;
    try discriminate.
  now injection H as <- <-.
Qed.

Lemma search_groups4_Ok (p : Re.regex) (text a b c d : str) :
  China.search_groups4 p text = Ok (a, b, c, d) ->
  Re.search p text = Some [a; b; c; d].
Proof.
  unfold China.search_groups4.
  destruct (Re.search p text) as [[|x [|y [|z [|u [|v l]]]]]|]; intros H;
    try discriminate.
  now injection H as <- <- <- <-.
Qed.

Lemma search_None_groups2 (p : Re.regex) (text : str) :
  Re.search p text = None ->
  China.search_groups2 p text = Raise (China.none_has_no "groups").
Proof. unfold China.search_groups2. now intros ->. Qed.

Lemma search_None_groups4 (p : Re.regex) (text : str) :
  Re.search p text = None ->
  China.search_groups4 p text = Raise (China.none_has_no "groups").
Proof. unfold China.search_groups4. now intros ->. Qed.

Lemma get_Ok (url : string) (s s' : state) :
  Driver.get w url s = (Ok tt, s') ->
  exists p, w url = Some p /\ current s' = Some p.
Proof.
  unfold Driver.get. destruct (w url) as [p|]; intros H; [|discriminate].
  injection H as <-. now exists p.
Qed.

Lemma find_element_Ok (s s' : state) (text : str) :
  Driver.find_element_by_id "xw_box" s = (Ok text, s') ->
  s' = s /\ exists p, current s = Some p /\ xw_box p = Some text.
Proof.
  unfold Driver.find_element_by_id. simpl.
  destruct (current s) as [p|]; [|discriminate].
  destruct (xw_box p) as [t|] eqn:E; [|discriminate].
  intros H. injection H as <- <-. split; [reflexivity|]. now exists p.
Qed.

(** A record returned by [_parse_data_complete]: all four patterns
    matched, each count is the combination of its two groups, and the date
    is read from the month and the day of the [doses] match behind a fixed
    year. *)
Lemma parse_data_complete_Ok (url : string) (s s' : state) (r : Row) :
  China._parse_data_complete w url s = (Ok r, s') ->
  complete_record w url r /\
  exists month day,
    Clean.clean_date (u "2022-" ++ month ++ u "-" ++ day) "%Y-%m-%d"
      = Ok (date r).
Proof.
  unfold China._parse_data_complete. intros H.
  apply bind_Ok in H as ([] & s1 & Hget & H).
  apply bind_Ok in H as (text & s2 & Hfind & H).
  apply bind_Ok in H as ([[[month day] t1] t2] & s3 & Hd & H).
  apply bind_Ok in H as ([p1 p2] & s4 & Hp & H).
  apply bind_Ok in H as ([f1 f2] & s5 & Hf & H).
  apply bind_Ok in H as ([b1 b2] & s6 & Hb & H).
  apply bind_Ok in H as (tv & s7 & Htv & H).
  apply bind_Ok in H as (pv & s8 & Hpv & H).
  apply bind_Ok in H as (pf & s9 & Hpf & H).
  apply bind_Ok in H as (tb & s10 & Htb & H).
  apply bind_Ok in H as (d & s11 & Hdate & H).
  injection H as <- <-.
  apply lift_inv in Hd as [Hd _], Hp as [Hp _], Hf as [Hf _], Hb as [Hb _],
    Htv as [Htv _], Hpv as [Hpv _], Hpf as [Hpf _], Htb as [Htb _],
    Hdate as [Hdate _].
  apply get_Ok in Hget as (p & Hw & Hcur).
  apply find_element_Ok in Hfind as (-> & p' & Hcur' & Hbox).
  assert (p' = p) by congruence. subst p'.
  symmetry in Hd, Hp, Hf, Hb.
  apply search_groups4_Ok in Hd. apply search_groups2_Ok in Hp, Hf, Hb.
  split.
  - exists p, text. cbn [source_url total_vaccinations people_vaccinated
      people_fully_vaccinated total_boosters].
    repeat split; try assumption.
    + exists [month; day], t1, t2, tv. now rewrite Hd.
    + exists [], p1, p2, pv. now rewrite Hp.
    + exists [], f1, f2, pf. now rewrite Hf.
    + exists [], b1, b2, tb. now rewrite Hb.
  - exists month, day. cbn [date]. now symmetry.
Qed.

Lemma complete_loop_Ok (links : list string) :
  forall (acc : list Row) (s s' : state) (recs : list Row),
    China.complete_loop w links acc s = (Ok recs, s') ->
    exists rs,
      recs = acc ++ rs /\
      Forall2 (fun l r => exists s1 s2,
                 China._parse_data_complete w l s1 = (Ok r, s2)) links rs /\
      fetches links s s'.
Proof.
  induction links as [|l links IH]; intros acc s s' recs H; simpl in H.
  - injection H as <- <-. exists []. rewrite app_nil_r.
    split; [reflexivity|]. split; [constructor|apply fetches_nil].
  - apply bind_Ok in H as (r & s1 & Hr & H).
    apply IH in H as (rs & -> & Hrs & Hf).
    exists (r :: rs). rewrite <- app_assoc. split; [reflexivity|]. split.
    + constructor; [now exists s, s1 | exact Hrs].
    + apply parse_data_complete_fetches in Hr.
      apply (fetches_trans [l] links s s1 s' Hr Hf).
Qed.

Lemma walk_complete_loop (links : list string) :
  forall acc, walk (China.complete_loop w links acc).
Proof.
  induction links as [|l links IH]; intros acc; simpl; [apply walk_ret|].
  apply walk_bind; [apply walk_parse_data_complete | intros; apply IH].
Qed.

Lemma uniform_complete_loop (links : list string) :
  forall acc, uniform (China.complete_loop w links acc).
Proof.
  induction links as [|l links IH]; intros acc; simpl; [apply uniform_ret|].
  apply uniform_bind; [apply uniform_parse_data_complete | intros; apply IH].
Qed.

Lemma walk_read_loop (wm : watermark) (links : list string) :
  forall acc, walk (China.read_loop w wm links acc).
Proof.
  induction links as [|l links IH]; intros acc; cbn [China.read_loop];
    [apply walk_ret|].
  apply walk_bind; [apply walk_parse_data|]. intros r.
  apply walk_bind; [apply walk_lift|].
  intros known. destruct known; [apply walk_ret | apply IH].
Qed.

(** With a date as [last_update] the comparison of the loop is that of
    two texts. *)
Lemma read_loop_cons (wm : string) (l : string) (links : list string)
  (acc : list Row) :
  China.read_loop w wm (l :: links) acc
  = (data_ <- China._parse_data w l ;;
     if (date data_ <=? wm)%string then ret acc
     else China.read_loop w wm links (acc ++ [data_])).
Proof. reflexivity. Qed.

End Parsers.

(** ** Patterns and dates *)

Section Patterns.

Local Open Scope list_scope.

Lemma repeat_cls_groups (k : str -> option str -> option (list str))
  (c : Re.cls) (lo : nat) (hi : option nat) (m : nat) :
  (forall s cur g, k s cur = Some g -> length g = m) ->
  forall s n cur g,
    Re.repeat_cls k c lo hi s n cur = Some g -> length g = m.
Proof.
  intros Hk. induction s as [|a s IH]; intros n cur g; simpl.
  - destruct (lo <=? n)%nat; [apply Hk|discriminate].
  - destruct (Re.in_cls c a && Re.below n hi).
    + destruct (Re.repeat_cls k c lo hi s (S n) _) as [g'|] eqn:E.
      * intros H. injection H as <-. eapply IH, E.
      * destruct (lo <=? n)%nat; [apply Hk|discriminate].
    + destruct (lo <=? n)%nat; [apply Hk|discriminate].
Qed.

Lemma match_here_groups (p : Re.regex) :
  forall s done cur g,
    Re.match_here p s done cur = Some g ->
    length g = (length done + Re.groups p)%nat.
Proof.
  induction p as [|t p IH]; intros s done cur g; simpl.
  - intros H. injection H as <-. lia.
  - destruct t as [l|c lo hi| |]; simpl.
    + destruct (Re.strip_prefix l s); [apply IH|discriminate].
    + apply repeat_cls_groups. intros s' cur' g'. apply IH.
    + apply IH.
    + intros H. apply IH in H. rewrite H, length_app. simpl. lia.
Qed.

Lemma search_groups (p : Re.regex) (s : str) (g : list str) :
  Re.search p s = Some g -> length g = Re.groups p.
Proof.
  induction s as [|a s IH]; simpl.
  - destruct (Re.match_here p [] [] None) eqn:E; [|discriminate].
    intros H. injection H as <-. now apply match_here_groups in E.
  - destruct (Re.match_here p (a :: s) [] None) eqn:E; [|exact IH].
    intros H. injection H as <-. now apply match_here_groups in E.
Qed.

Lemma search_two (p : Re.regex) (text : str) :
  Re.groups p = 2%nat ->
  Re.search p text = None \/
  exists a b, Re.search p text = Some [a; b].
Proof.
  intros Hp. destruct (Re.search p text) as [g|] eqn:E; [right|now left].
  apply search_groups in E. rewrite Hp in E.
  destruct g as [|a [|b [|c g]]]; try discriminate. now exists a, b.
Qed.

Lemma search_four (p : Re.regex) (text : str) :
  Re.groups p = 4%nat ->
  Re.search p text = None \/
  exists a b c d, Re.search p text = Some [a; b; c; d].
Proof.
  intros Hp. destruct (Re.search p text) as [g|] eqn:E; [right|now left].
  apply search_groups in E. rewrite Hp in E.
  destruct g as [|a [|b [|c [|d [|e g]]]]]; try discriminate.
  now exists a, b, c, d.
Qed.

Lemma strptime_month_day (x : str) (y m d y' m' d' : Z) :
  Clean.strptime "%m-%d" x y m d = Some (y', m', d') -> y' = y.
Proof.
  cbn -[Clean.field].
  destruct (Clean.field 1 2 x) as [[v [|b s']]|]; try discriminate.
  match goal with
  | |- (if ?c then _ else _) = _ -> _ => destruct c; [|discriminate]
  end.
  destruct (Clean.field 1 2 s') as [[v' [|c s'']]|]; try discriminate.
  intros H. now injection H as <- _ _.
Qed.

Lemma valid_date_bounds (y m d : Z) :
  Clean.valid_date y m d = true -> 1 <= m <= 12 /\ 1 <= d <= 31.
Proof.
  unfold Clean.valid_date, Clean.days_in_month.
  rewrite !andb_true_iff, !Z.leb_le. intros [[[H1 H2] H3] H4].
  destruct (m =? 2); [destruct (Clean.leap y)|destruct (_ || _)]; lia.
Qed.

(** Whatever the month and the day are, a date read behind ["2022-"] is a
    date of 2022. *)
Lemma clean_date_2022 (month day : str) (d : string) :
  Clean.clean_date (u "2022-" ++ month ++ u "-" ++ day) "%Y-%m-%d" = Ok d ->
  in_2022 d.
Proof.
  unfold Clean.clean_date.
  change (Clean.strptime "%Y-%m-%d" (u "2022-" ++ month ++ u "-" ++ day)
            1900 1 1)
    with (Clean.strptime "%m-%d" (month ++ u "-" ++ day) 2022 1 1).
  destruct (Clean.strptime "%m-%d" _ 2022 1 1) as [[[y m] dd]|] eqn:E;
    [|discriminate].
  apply strptime_month_day in E. subst y.
  destruct (Clean.valid_date 2022 m dd) eqn:V; [|discriminate].
  intros H. injection H as <-. apply valid_date_bounds in V.
  exists m, dd. split; [tauto|]. split; [tauto|]. reflexivity.
Qed.

End Patterns.

(** Digits and white space of other scripts are digits and white space to
    the patterns and to [float]: a title dated in full-width digits is
    matched, an ideographic space may stand before the magnitude word, and
    full-width numerals are combined as the numbers they write. *)
Example title_full_width :
  Re.search China.regex_title (title "2022" "３" "１８")
  = Some [u "2022"; u "３"; u "１８"].
Proof. vm_compute. reflexivity. Qed.

Example count_after_ideographic_space :
  Re.search China.regex_total_vaccinations (u "接种321456.7　万剂次")
  = Some [u "321456.7　万"].
Proof. vm_compute. reflexivity. Qed.

Example estimate_metric_full_width :
  China._estimate_metric (u "３２") (u "１４５６.７") = Ok 3214567000.
Proof. vm_compute. reflexivity. Qed.

Example complete_links_full_width :
  complete_links (mkPage None [(title "2022" "３" "１８", "c1")]) = ["c1"].
Proof. vm_compute. reflexivity. Qed.

(** ** The complete bulletins *)

Section Complete.

Local Open Scope list_scope.

Variable w : web.

Lemma uniform_get_links_complete : uniform China._get_links_complete.
Proof. unfold China._get_links_complete. scraper. Qed.

Lemma uniform_read_complete_body :
  uniform (Driver.get w China.source_url_complete ;;;
           links <- China._get_links_complete ;;
           China.complete_loop w (firstn China.num_links_complete links) []).
Proof.
  apply uniform_bind; [apply uniform_get|]. intros _.
  apply uniform_bind; [apply uniform_get_links_complete|]. intros links.
  apply uniform_complete_loop.
Qed.

Lemma read_complete_Ok (s s' : state) (recs : DataFrame) :
  China.read_complete w s = (Ok recs, s') ->
  exists index,
    w China.source_url_complete = Some index /\
    Forall2 (fun l r => exists s1 s2,
               China._parse_data_complete w l s1 = (Ok r, s2))
            (complete_links index) recs.
Proof.
  unfold China.read_complete. intros H.
  apply with_driver_inv in H as (s2 & H & _).
  apply bind_Ok in H as ([] & s3 & Hget & H).
  apply bind_Ok in H as (links & s4 & Hlinks & H).
  apply get_Ok in Hget as (index & Hw & Hcur).
  exists index. split; [exact Hw|].
  unfold China._get_links_complete in Hlinks.
  apply bind_Ok in Hlinks as (elems & s5 & Helems & Hret).
  injection Hret as <- <-.
  unfold Driver.find_elements_by_css_selector in Helems.
  rewrite Hcur in Helems. simpl in Helems. injection Helems as <- <-.
  apply complete_loop_Ok in H as (rs & -> & Hrs & _).
  exact Hrs.
Qed.

Lemma parse_data_complete_any (url : string) (s1 s2 : state) :
  fst (China._parse_data_complete w url s1)
  = fst (China._parse_data_complete w url s2).
Proof.
  unfold China._parse_data_complete. apply get_then_uniform. scraper.
Qed.

Lemma yields_complete_at (url : string) (r : Row) (s0 : state) :
  fst (China._parse_data_complete w url s0) = Ok r -> yields_complete w url r.
Proof. intros H s. now rewrite (parse_data_complete_any url s s0). Qed.

Lemma complete_loop_runs (links : list string) (recs : list Row) :
  Forall2 (yields_complete w) links recs ->
  forall (acc : list Row) (s : state),
  exists s',
    China.complete_loop w links acc s = (Ok (acc ++ recs), s') /\
    fetches links s s'.
Proof.
  induction 1 as [|l r links recs Hy _ IH]; intros acc s; simpl.
  - exists s. rewrite app_nil_r. split; [reflexivity|apply fetches_nil].
  - unfold bind.
    destruct (China._parse_data_complete w l s) as [x s1] eqn:E.
    pose proof (Hy s) as Hx. rewrite E in Hx. simpl in Hx. subst x.
    destruct (IH (acc ++ [r]) s1) as (s' & Hrun & Hf).
    exists s'. rewrite <- app_assoc in Hrun. split; [exact Hrun|].
    apply parse_data_complete_fetches in E.
    apply (fetches_trans [l] links s s1 s' E Hf).
Qed.

Lemma get_links_complete_at (index : page) (s : state) :
  current s = Some index ->
  China._get_links_complete s
  = (Ok (map snd
           (filter (fun elem =>
                      match Re.search China.regex_title (fst elem) with
                      | Some _ => true
                      | None => false
                      end) (anchors index))), s).
Proof.
  intros H. unfold China._get_links_complete, bind,
    Driver.find_elements_by_css_selector. now rewrite H.
Qed.

Lemma read_complete_runs (index : page) (recs : DataFrame) (s : state) :
  w China.source_url_complete = Some index ->
  Forall2 (yields_complete w) (complete_links index) recs ->
  exists s',
    China.read_complete w s = (Ok recs, s') /\
    fetched s s' = China.source_url_complete :: complete_links index.
Proof.
  intros Hw HF.
  set (s1 := mkState (Some index) (visited s ++ [China.source_url_complete])
                     (S (acquired s)) (released s) (datafile s)
                     (Nat.max (peak s) (S (acquired s) - released s))).
  destruct (complete_loop_runs _ _ HF [] s1) as (s2 & Hrun & Hvis & _).
  exists (mkState None (visited s2) (acquired s2) (S (released s2))
                  (datafile s2) (peak s2)).
  split.
  - unfold China.read_complete, Driver.with_driver. unfold bind at 1.
    rewrite (get_at w _ index _ Hw).
    cbn [visited acquired released datafile peak].
    fold s1. unfold bind at 1.
    rewrite (get_links_complete_at index s1 eq_refl).
    fold (complete_links index). now rewrite Hrun.
  - apply fetched_app. cbn [visited]. rewrite Hvis. unfold s1. cbn [visited].
    now rewrite <- app_assoc.
Qed.

End Complete.

(** C8: when [read_complete] returns records, the index page was loaded
    and the records are, in order, those of the first three links whose
    anchor text matches the title pattern; each record carries the four
    counts, each the two-magnitude combination of the two groups that the
    pattern of the count captures in the bulletin.  The outcome is the same
    from every state: neither the data file nor its latest date is read.
    And it does return them: when the index page loads and the bulletins
    behind those links are parsed, [read_complete] returns their records
    and has fetched the index page and those bulletins, no other page. *)
Theorem read_complete_first_three :
  (forall (w : web) (s s' : state) (recs : DataFrame),
     China.read_complete w s = (Ok recs, s') ->
     China.num_links_complete = 3%nat /\
     (exists index,
        w China.source_url_complete = Some index /\
        Forall2 (complete_record w) (complete_links index) recs) /\
     (forall s2, fst (China.read_complete w s2) = Ok recs)) /\
  (forall (w : web) (index : page) (recs : DataFrame) (s : state),
     w China.source_url_complete = Some index ->
     Forall2 (yields_complete w) (complete_links index) recs ->
     exists s',
       China.read_complete w s = (Ok recs, s') /\
       fetched s s' = China.source_url_complete :: complete_links index).
Proof.
  split.
  - intros w s s' recs H. split; [reflexivity|]. split.
    + apply read_complete_Ok in H as (index & Hw & HF).
      exists index. split; [exact Hw|].
      eapply Forall2_impl; [|exact HF].
      intros l r (s1 & s2 & Hp). now apply parse_data_complete_Ok in Hp.
    + intros s2. transitivity (fst (China.read_complete w s)).
      * apply with_driver_uniform, uniform_read_complete_body.
      * now rewrite H.
  - intros w index recs s. apply read_complete_runs.
Qed.

Lemma read_complete_first_three_witness :
  (China.num_links_complete = 3%nat /\
   (exists index,
      web0 China.source_url_complete = Some index /\
      Forall2 (complete_record web0) (complete_links index)
              [row_c1; row_c2]) /\
   (forall s2, fst (China.read_complete web0 s2) = Ok [row_c1; row_c2])) /\
  (exists s',
     China.read_complete web0 state0 = (Ok [row_c1; row_c2], s') /\
     fetched state0 s'
     = China.source_url_complete :: complete_links complete_index).
Proof.
  split.
  - apply (proj1 read_complete_first_three web0 state0
             (snd (China.read_complete web0 state0))).
    vm_compute. reflexivity.
  - apply (proj2 read_complete_first_three web0 complete_index).
    + reflexivity.
    + repeat constructor;
        apply (yields_complete_at web0 _ _ state0); vm_compute; reflexivity.
Defined.

(** C10: every record that [read_complete] returns is dated in 2022: its
    date is read from the month and the day that the [doses] pattern
    captures in the text of the bulletin, behind the constant year 2022;
    no year of the title or of the text enters it. *)
Theorem complete_date_in_2022 :
  forall (w : web) (s s' : state) (recs : DataFrame),
    China.read_complete w s = (Ok recs, s') ->
    Forall (fun r => in_2022 (date r) /\
                     dated_by_month_day w (source_url r) r) recs.
Proof.
  intros w s s' recs H.
  apply read_complete_Ok in H as (index & _ & HF).
  induction HF as [|l r ls rs (s1 & s2 & Hp) _ IH]; constructor; [|exact IH].
  pose proof (parse_data_complete_Ok w l s1 s2 r Hp) as [Hrec Hdate].
  split.
  - destruct Hdate as (month & day & Hd). eapply clean_date_2022, Hd.
  - destruct Hrec as (p & text & Hw & Hbox & Hurl & _). rewrite Hurl.
    clear Hdate. unfold China._parse_data_complete in Hp.
    apply bind_Ok in Hp as ([] & t1 & Hget & Hp).
    apply bind_Ok in Hp as (text' & t2 & Hfind & Hp).
    apply bind_Ok in Hp as ([[[month day] a] b] & t3 & Hd & Hp).
    apply get_Ok in Hget as (p' & Hw' & Hcur).
    apply find_element_Ok in Hfind as (-> & p'' & Hcur' & Hbox').
    assert (text' = text) by congruence. subst text'.
    apply lift_inv in Hd as [Hd _]. symmetry in Hd.
    apply search_groups4_Ok in Hd.
    exists p, text, month, day, a, b. repeat split; try assumption.
    repeat (apply bind_Ok in Hp as ([? ?] & ? & _ & Hp)).
    repeat (apply bind_Ok in Hp as (? & ? & ?Hq & Hp)).
    injection Hp as <- _. cbn [date].
    match goal with
    | Hl : lift (Clean.clean_date _ _) _ = _ |- _ =>
        apply lift_inv in Hl as [Hl _]; now symmetry
    end.
Qed.

(** The second press conference of the small web was held on 29 December
    2021 and reports the state of 28 December; its record is dated
    2022-12-28. *)
Lemma complete_date_in_2022_witness :
  Forall (fun r => in_2022 (date r) /\
                   dated_by_month_day web0 (source_url r) r)
         [row_c1; row_c2].
Proof.
  apply (complete_date_in_2022 web0 state0
           (snd (China.read_complete web0 state0))).
  vm_compute. reflexivity.
Defined.

(** ** Failures of the parsers *)

Section Failures.

Local Open Scope list_scope.

Ltac plain_cases :=
  intros e H;
  repeat match type of H with
         | context [match ?x with _ => _ end] => destruct x
         | context [if ?x then _ else _] => destruct x
         end;
  try discriminate; injection H as <-; intros; discriminate.

Lemma plain_search_group1 (p : Re.regex) (text : str) :
  plain (China.search_group1 p text).
Proof. unfold plain, China.search_group1, China.none_has_no. plain_cases. Qed.

Lemma plain_search_groups2 (p : Re.regex) (text : str) :
  plain (China.search_groups2 p text).
Proof. unfold plain, China.search_groups2, China.none_has_no. plain_cases. Qed.

Lemma plain_search_groups4 (p : Re.regex) (text : str) :
  plain (China.search_groups4 p text).
Proof. unfold plain, China.search_groups4, China.none_has_no. plain_cases. Qed.

Lemma plain_float (p : str) : plain (PyFloat.float p).
Proof. unfold plain, PyFloat.float. plain_cases. Qed.

Lemma plain_int (x : spec_float) : plain (PyFloat.int x).
Proof. unfold plain, PyFloat.int. plain_cases. Qed.

Lemma plain_rbind {A B} (r : res A) (k : A -> res B) :
  plain r -> (forall a, plain (k a)) -> plain (rbind r k).
Proof.
  intros Hr Hk e H. destruct r as [a|e0]; simpl in H.
  - eapply Hk, H.
  - apply Hr. congruence.
Qed.

Lemma plain_estimate_metric (p1 p2 : str) :
  plain (China._estimate_metric p1 p2).
Proof.
  unfold China._estimate_metric.
  apply plain_rbind; [apply plain_float|]. intros f1.
  apply plain_rbind; [apply plain_float|]. intros f2. apply plain_int.
Qed.

Lemma plain_clean_date (text : str) (fmt : string) : plain (Clean.clean_date text fmt).
Proof. unfold plain, Clean.clean_date. plain_cases. Qed.

Lemma plain_extract_clean_date (text : str) (p : Re.regex) (fmt : string) :
  plain (Clean.extract_clean_date text p fmt).
Proof.
  unfold Clean.extract_clean_date. destruct (Re.search p text).
  - apply plain_clean_date.
  - intros e H. injection H as <-. discriminate.
Qed.

Lemma plain_clean_count (count : str) : plain (Clean.clean_count count).
Proof. unfold plain, Clean.clean_count. plain_cases. Qed.

Lemma untyped_ret {A} (a : A) : untyped (ret a).
Proof. intros s e s' H. discriminate. Qed.

Lemma untyped_lift {A} (r : res A) : plain r -> untyped (lift r).
Proof.
  intros Hr s e s' H. apply lift_inv in H as [H _]. apply (Hr e).
  now symmetry.
Qed.

Lemma untyped_bind {A B} (c : M A) (k : A -> M B) :
  untyped c -> (forall a, untyped (k a)) -> untyped (bind c k).
Proof.
  intros Hc Hk s e s' H. apply bind_Raise in H as [H|(a & s1 & _ & H)].
  - eapply Hc, H.
  - eapply Hk, H.
Qed.

Lemma untyped_get (w : web) (url : string) : untyped (Driver.get w url).
Proof.
  intros s e s' H. unfold Driver.get in H.
  destruct (w url); [discriminate|]. injection H as <- _. discriminate.
Qed.

Lemma untyped_find_element (id : string) :
  untyped (Driver.find_element_by_id id).
Proof.
  intros s e s' H. unfold Driver.find_element_by_id in H.
  destruct (current s) as [p|];
    [destruct (if (id =? "xw_box")%string then _ else _)|];
    try discriminate; injection H as <- _; discriminate.
Qed.

Lemma untyped_parse_data_complete (w : web) (url : string) :
  untyped (China._parse_data_complete w url).
Proof.
  unfold China._parse_data_complete.
  repeat first
    [ apply untyped_ret | apply untyped_get | apply untyped_find_element
    | apply untyped_lift;
      first [ apply plain_search_groups4 | apply plain_search_groups2
            | apply plain_estimate_metric | apply plain_clean_date ]
    | apply untyped_bind; [|intros]
    | match goal with x : (_ * _)%type |- _ => destruct x end ].
Qed.

Lemma untyped_parse_data (w : web) (url : string) :
  untyped (China._parse_data w url).
Proof.
  unfold China._parse_data.
  repeat first
    [ apply untyped_ret | apply untyped_get | apply untyped_find_element
    | apply untyped_lift;
      first [ apply plain_extract_clean_date
            | apply plain_rbind;
              [apply plain_search_group1 | intros; apply plain_clean_count] ]
    | apply untyped_bind; [|intros] ].
Qed.

Lemma get_find (w : web) (url : string) (text : str) (p : page) {A}
  (k : str -> M A) (s : state) :
  w url = Some p -> xw_box p = Some text ->
  (Driver.get w url ;;; t <- Driver.find_element_by_id "xw_box" ;; k t) s
  = k text (mkState (Some p) (visited s ++ [url]) (acquired s) (released s)
                    (datafile s) (peak s)).
Proof.
  intros Hw Hbox. unfold bind, Driver.get, Driver.find_element_by_id.
  rewrite Hw. cbn. now rewrite Hbox.
Qed.

Lemma lift_Raise_bind {A B} (r : res A) (e : exn) (k : A -> M B) (s : state) :
  r = Raise e -> (bind (lift r) k) s = (Raise e, s).
Proof. now intros ->. Qed.

Lemma lift_Ok_bind {A B} (r : res A) (a : A) (k : A -> M B) (s : state) :
  r = Ok a -> (bind (lift r) k) s = k a s.
Proof. now intros ->. Qed.

Lemma groups2_of_search (p : Re.regex) (text a b : str) :
  Re.search p text = Some [a; b] -> China.search_groups2 p text = Ok (a, b).
Proof. unfold China.search_groups2. now intros ->. Qed.

Lemma groups4_of_search (p : Re.regex) (text a b c d : str) :
  Re.search p text = Some [a; b; c; d] ->
  China.search_groups4 p text = Ok (a, b, c, d).
Proof. unfold China.search_groups4. now intros ->. Qed.

(** A complete bulletin in which one of the four patterns finds nothing is
    not parsed: the search returns [None] and reading its groups raises. *)
Lemma missing_group_raises (w : web) (url : string) (text : str) (p : page)
  (s : state) :
  w url = Some p -> xw_box p = Some text ->
  Re.search China.regex_doses text = None \/
  Re.search China.regex_people text = None \/
  Re.search China.regex_fully text = None \/
  Re.search China.regex_boosters text = None ->
  exists s',
    China._parse_data_complete w url s
    = (Raise (China.none_has_no "groups"), s').
Proof.
  intros Hw Hbox Hnone. unfold China._parse_data_complete.
  rewrite (get_find w url text p _ s Hw Hbox).
  destruct (search_four China.regex_doses text eq_refl)
    as [Hd|(a & b & c & d & Hd)].
  { eexists. apply lift_Raise_bind. now apply search_None_groups4. }
  rewrite (lift_Ok_bind _ _ _ _ (groups4_of_search _ _ _ _ _ _ Hd)).
  destruct (search_two China.regex_people text eq_refl) as [Hp|(p1 & p2 & Hp)].
  { eexists. apply lift_Raise_bind. now apply search_None_groups2. }
  rewrite (lift_Ok_bind _ _ _ _ (groups2_of_search _ _ _ _ Hp)).
  destruct (search_two China.regex_fully text eq_refl) as [Hf|(f1 & f2 & Hf)].
  { eexists. apply lift_Raise_bind. now apply search_None_groups2. }
  rewrite (lift_Ok_bind _ _ _ _ (groups2_of_search _ _ _ _ Hf)).
  destruct (search_two China.regex_boosters text eq_refl)
    as [Hb|(b1 & b2 & Hb)].
  { eexists. apply lift_Raise_bind. now apply search_None_groups2. }
  exfalso. destruct Hnone as [H|[H|[H|H]]]; congruence.
Qed.

Lemma missing_count_raises (w : web) (url : string) (text : str) (d : string)
  (p : page) (s : state) :
  w url = Some p -> xw_box p = Some text ->
  Clean.extract_clean_date text China.regex_date "%Y %m %d" = Ok d ->
  Re.search China.regex_total_vaccinations text = None ->
  exists s', China._parse_data w url s = (Raise (China.none_has_no "group"), s').
Proof.
  intros Hw Hbox Hd Hn. unfold China._parse_data.
  rewrite (get_find w url text p _ s Hw Hbox).
  rewrite (lift_Ok_bind _ _ _ _ Hd).
  eexists. apply lift_Raise_bind. unfold China.search_group1. now rewrite Hn.
Qed.

Lemma date_failure_raised (w : web) (url : string) (text : str) (p : page)
  (s : state) (e : exn) :
  w url = Some p -> xw_box p = Some text ->
  Clean.extract_clean_date text China.regex_date "%Y %m %d" = Raise e ->
  exists s', China._parse_data w url s = (Raise e, s').
Proof.
  intros Hw Hbox He. unfold China._parse_data.
  rewrite (get_find w url text p _ s Hw Hbox).
  eexists. now apply lift_Raise_bind.
Qed.

(** A record returned by [_parse_data]: the date pattern and the count
    pattern matched. *)
Lemma parse_data_record (w : web) (url : string) (s s' : state) (r : Row) :
  China._parse_data w url s = (Ok r, s') -> incremental_record w url r.
Proof.
  unfold China._parse_data. intros H.
  apply bind_Ok in H as ([] & s1 & Hget & H).
  apply bind_Ok in H as (text & s2 & Hfind & H).
  apply bind_Ok in H as (d & s3 & Hd & H).
  apply bind_Ok in H as (n & s4 & Hn & H).
  injection H as <- <-.
  apply lift_inv in Hd as [Hd _], Hn as [Hn _].
  apply (get_Ok w) in Hget as (p & Hw & Hcur).
  apply find_element_Ok in Hfind as (-> & p' & Hcur' & Hbox).
  assert (p' = p) by congruence. subst p'.
  assert (Hg : exists groups,
             Re.search China.regex_date text = Some groups).
  { unfold Clean.extract_clean_date in Hd.
    destruct (Re.search China.regex_date text) as [groups|];
      [now exists groups|discriminate]. }
  destruct Hg as (groups & Hg).
  unfold China.search_group1 in Hn.
  destruct (Re.search China.regex_total_vaccinations text)
    as [[|g rest]|] eqn:Ec; try discriminate.
  cbn [rbind] in Hn.
  exists p, text, groups, g, rest, n. cbn [source_url date total_vaccinations].
  repeat split; try assumption; try reflexivity; now symmetry.
Qed.

End Failures.

(** C6, as stated, fails: when the text of a complete bulletin does not
    give the number of people vaccinated, the parser raises the
    [AttributeError] of reading the groups of [None], which names neither
    the field nor the page. *)
Lemma missing_group_is_attribute_error : ~ failures_are_typed.
Proof.
  intros H.
  destruct (H web1 "c1" _ _ state0
              (snd (China._parse_data_complete web1 "c1" state0))
              (China.none_has_no "groups") eq_refl eq_refl)
    as (field & url & Habs).
  - vm_compute. reflexivity.
  - discriminate Habs.
Qed.

(** C6, amended: every failure of a parser is an exception raised at once
    out of the parser, and no record is returned.  A complete bulletin in
    which one of the four count patterns does not match raises the
    [AttributeError] of reading the groups of [None]; so does an
    incremental bulletin whose date was read and whose count pattern does
    not match.  The date pattern of an incremental bulletin is applied by
    the date helper, which is given no page: whatever the helper raises is
    raised by the parser as it is, and when the pattern does not match
    that is the helper's error on the field [date].  A record is returned
    only when every pattern of its parser matched: a complete record has
    both groups of all four counts, so a missing group is never read as
    zero.  No exception of either parser names a field together with a
    page. *)
Theorem parse_failures_are_raised :
  forall (w : web) (url : string),
    (forall (s : state) (p : page) (text : str),
       w url = Some p -> xw_box p = Some text ->
       Re.search China.regex_doses text = None \/
       Re.search China.regex_people text = None \/
       Re.search China.regex_fully text = None \/
       Re.search China.regex_boosters text = None ->
       exists s',
         China._parse_data_complete w url s
         = (Raise (China.none_has_no "groups"), s')) /\
    (forall (s : state) (p : page) (text : str) (e : exn),
       w url = Some p -> xw_box p = Some text ->
       Clean.extract_clean_date text China.regex_date "%Y %m %d" = Raise e ->
       exists s', China._parse_data w url s = (Raise e, s')) /\
    (forall (s : state) (p : page) (text : str),
       w url = Some p -> xw_box p = Some text ->
       Re.search China.regex_date text = None ->
       exists s',
         China._parse_data w url s = (Raise (ParseError "date" None), s')) /\
    (forall (s : state) (p : page) (text : str) (d : string),
       w url = Some p -> xw_box p = Some text ->
       Clean.extract_clean_date text China.regex_date "%Y %m %d" = Ok d ->
       Re.search China.regex_total_vaccinations text = None ->
       exists s',
         China._parse_data w url s = (Raise (China.none_has_no "group"), s')) /\
    (forall (s s' : state) (r : Row),
       China._parse_data_complete w url s = (Ok r, s') ->
       complete_record w url r) /\
    (forall (s s' : state) (r : Row),
       China._parse_data w url s = (Ok r, s') ->
       incremental_record w url r) /\
    untyped (China._parse_data_complete w url) /\
    untyped (China._parse_data w url).
Proof.
  intros w url.
  split; [|split; [|split; [|split; [|split; [|split; [|split]]]]]].
  - intros s p text. apply missing_group_raises.
  - intros s p text e. apply date_failure_raised.
  - intros s p text Hw Hbox Hn.
    apply (date_failure_raised w url text p s _ Hw Hbox).
    unfold Clean.extract_clean_date. now rewrite Hn.
  - intros s p text d. apply missing_count_raises.
  - intros s s' r H. now apply parse_data_complete_Ok in H.
  - intros s s' r. apply parse_data_record.
  - apply untyped_parse_data_complete.
  - apply untyped_parse_data.
Qed.

Lemma parse_failures_are_raised_witness :
  (exists s',
     China._parse_data_complete web1 "c1" state0
     = (Raise (China.none_has_no "groups"), s')) /\
  (exists s',
     China._parse_data web1 "c1" state0
     = (Raise (ParseError "date" None), s')) /\
  (exists s',
     China._parse_data web1 "c1" state0
     = (Raise (ParseError "date" None), s')) /\
  (exists s',
     China._parse_data web1 "u9" state0
     = (Raise (China.none_has_no "group"), s')) /\
  complete_record web0 "c1" row_c1 /\
  incremental_record web0 "u1" row_u1.
Proof.
  split; [|split; [|split; [|split; [|split]]]].
  - apply (proj1 (parse_failures_are_raised web1 "c1") state0
             (press "3" "17" "32" "1456.7" "") _ eq_refl eq_refl).
    right; left. vm_compute. reflexivity.
  - apply (proj1 (proj2 (parse_failures_are_raised web1 "c1")) state0
             (press "3" "17" "32" "1456.7" "") _ _ eq_refl eq_refl).
    vm_compute. reflexivity.
  - apply (proj1 (proj2 (proj2 (parse_failures_are_raised web1 "c1"))) state0
             (press "3" "17" "32" "1456.7" "") _ eq_refl eq_refl).
    vm_compute. reflexivity.
  - apply (proj1 (proj2 (proj2 (proj2 (parse_failures_are_raised web1 "u9"))))
             state0 _ _ "2022-03-18" eq_refl eq_refl); vm_compute; reflexivity.
  - apply (proj1 (proj2 (proj2 (proj2 (proj2
             (parse_failures_are_raised web0 "c1")))))
             state0 (snd (China._parse_data_complete web0 "c1" state0))).
    vm_compute. reflexivity.
  - apply (proj1 (proj2 (proj2 (proj2 (proj2 (proj2
             (parse_failures_are_raised web0 "u1"))))))
             state0 (snd (China._parse_data web0 "u1" state0))).
    vm_compute. reflexivity.
Defined.

(** ** The order of dates *)

Section Order.

Lemma string_compare_refl (a : string) : (a ?= a)%string = Eq.
Proof.
  induction a as [|c a IH]; simpl; [reflexivity|].
  unfold Ascii.compare. now rewrite N.compare_refl.
Qed.

Lemma string_compare_trans (a : string) :
  forall b c, (a ?= b)%string = Lt -> (b ?= c)%string = Lt ->
              (a ?= c)%string = Lt.
Proof.
  induction a as [|x a IH]; intros [|y b] [|z c]; simpl; try discriminate;
    try reflexivity.
  unfold Ascii.compare.
  destruct (N.compare_spec (N_of_ascii x) (N_of_ascii y)) as [E1|L1|G1];
    try discriminate;
    destruct (N.compare_spec (N_of_ascii y) (N_of_ascii z)) as [E2|L2|G2];
    try discriminate; intros H1 H2.
  - rewrite E1, E2, N.compare_refl. now apply (IH b c).
  - now rewrite E1, (proj2 (N.compare_lt_iff _ _) L2).
  - now rewrite <- E2, (proj2 (N.compare_lt_iff _ _) L1).
  - now rewrite (proj2 (N.compare_lt_iff _ _) (N.lt_trans _ _ _ L1 L2)).
Qed.

Lemma newer_trans (a b c : Row) : newer a b -> newer b c -> newer a c.
Proof.
  unfold newer, String.ltb. intros H1 H2.
  destruct (date b ?= date a)%string eqn:E1; try discriminate.
  destruct (date c ?= date b)%string eqn:E2; try discriminate.
  now rewrite (string_compare_trans _ _ _ E2 E1).
Qed.

Lemma newer_not_leb (a b : Row) :
  newer a b -> (date a <=? date b)%string = false.
Proof.
  unfold newer, String.ltb, String.leb. rewrite (String.compare_antisym (date a)).
  destruct (date b ?= date a)%string; try discriminate. reflexivity.
Qed.

Lemma leb_refl (a : string) : (a <=? a)%string = true.
Proof. unfold String.leb. now rewrite string_compare_refl. Qed.

Lemma Sorted_newer_before (l1 : list Row) (x : Row) (l2 : list Row) :
  Sorted newer (l1 ++ x :: l2) -> Forall (fun a => newer a x) l1.
Proof.
  intros H. apply Sorted_StronglySorted in H;
    [|intros a b c; apply newer_trans].
  induction l1 as [|a l1 IH]; simpl in H; [constructor|].
  apply StronglySorted_inv in H as [H Ha]. constructor; [|now apply IH].
  rewrite Forall_forall in Ha. apply Ha. apply in_or_app. right. now left.
Qed.

End Order.

(** ** The incremental walk *)

Section Incremental.

Local Open Scope list_scope.

Variable w : web.

Lemma parse_data_any (url : string) (s1 s2 : state) :
  fst (China._parse_data w url s1) = fst (China._parse_data w url s2).
Proof. unfold China._parse_data. apply get_then_uniform. scraper. Qed.

Lemma yields_at (url : string) (r : Row) (s0 : state) :
  fst (China._parse_data w url s0) = Ok r -> yields w url r.
Proof. intros H s. now rewrite (parse_data_any url s s0). Qed.

Lemma read_loop_stops (wm : string) (lpre : list string) (rpre : list Row) :
  Forall2 (yields w) lpre rpre ->
  Forall (fun r => (date r <=? wm)%string = false) rpre ->
  forall (lk : string) (rk : Row) (lpost : list string),
    yields w lk rk -> (date rk <=? wm)%string = true ->
    forall (acc : list Row) (s : state),
    exists s',
      China.read_loop w wm (lpre ++ lk :: lpost) acc s = (Ok (acc ++ rpre), s')
      /\ fetches (lpre ++ [lk]) s s'.
Proof.
  induction 1 as [|l r lpre rpre Hy _ IH]; intros Hnew lk rk lpost Hk Hold acc s.
  - simpl. unfold bind.
    destruct (China._parse_data w lk s) as [x s1] eqn:E.
    pose proof (Hk s) as Hx. rewrite E in Hx. simpl in Hx. subst x.
    rewrite Hold. exists s1. rewrite app_nil_r. split; [reflexivity|].
    eapply parse_data_fetches, E.
  - inversion Hnew as [|r' rs Hr Hrs]; subst.
    simpl. unfold bind.
    destruct (China._parse_data w l s) as [x s1] eqn:E.
    pose proof (Hy s) as Hx. rewrite E in Hx. simpl in Hx. subst x.
    rewrite Hr.
    destruct (IH Hrs lk rk lpost Hk Hold (acc ++ [r]) s1) as (s' & Hrun & Hf).
    exists s'. rewrite <- app_assoc in Hrun. split; [exact Hrun|].
    apply parse_data_fetches in E.
    apply (fetches_trans [l] (lpre ++ [lk]) s s1 s' E Hf).
Qed.

Lemma get_links_at (index : page) (s : state) :
  current s = Some index ->
  China._get_links s = (Ok (map snd (anchors index)), s).
Proof.
  intros H. unfold China._get_links, bind,
    Driver.find_elements_by_css_selector. now rewrite H.
Qed.

End Incremental.

(** C2, as stated, fails: with the 16 March bulletin as the latest on file,
    [read] returns the 17 March record alone, but it has fetched and parsed
    the page of 16 March to learn its date. *)
Lemma read_fetches_known_page : ~ read_skips_known_page.
Proof.
  intros H.
  destruct (H web0 incremental_index ["u1"; "u2"; "u3"]
              [row_u1; row_u2; row_u3] 1%nat row_u2 "u2" state0
              (snd (China.read web0 "2022-03-16" state0))
              (fst (China.read web0 "2022-03-16" state0)))
    as [_ Hnot].
  - reflexivity.
  - reflexivity.
  - repeat constructor;
      apply (yields_at web0 _ _ state0); vm_compute; reflexivity.
  - repeat constructor.
  - reflexivity.
  - reflexivity.
  - vm_compute. reflexivity.
  - apply Hnot. vm_compute. right. right. now left.
Qed.

(** C2, amended: for a listing whose pages are parsed to records of
    strictly decreasing dates and the date of the [k]-th record (counted
    from 0) as the latest date on file, [read] returns exactly the records
    before the [k]-th, in the order of the listing.  It fetches the index
    page and the pages of the listing up to and including the [k]-th,
    whose date is known only once it is parsed, and no page after it. *)
Theorem read_up_to_watermark :
  forall (w : web) (index : page) (links : list string) (recs : DataFrame)
         (k : nat) (rk : Row) (s : state),
    w China.source_url = Some index ->
    map snd (anchors index) = links ->
    Forall2 (yields w) links recs ->
    Sorted newer recs ->
    nth_error recs k = Some rk ->
    exists s',
      China.read w (date rk) s = (Ok (firstn k recs), s') /\
      fetched s s' = China.source_url :: firstn (S k) links.
Proof.
  intros w index links recs k rk s Hw Hlinks HF Hsorted Hk.
  apply nth_error_split in Hk as (rpre & rpost & -> & Hlen).
  apply Forall2_app_inv_r in HF as (lpre & lrest & Hpre & Hrest & ->).
  inversion Hrest as [|lk rk' lpost rpost' Hyk Hpost]; subst.
  pose proof (Forall2_length Hpre) as Hlen.
  assert (Hnew : Forall (fun r => (date r <=? date rk)%string = false) rpre).
  { apply Sorted_newer_before in Hsorted.
    eapply Forall_impl; [|exact Hsorted]. intros a. apply newer_not_leb. }
  set (s1 := mkState (Some index) (visited s ++ [China.source_url])
                     (S (acquired s)) (released s) (datafile s)
                     (Nat.max (peak s) (S (acquired s) - released s))).
  destruct (read_loop_stops w (date rk) lpre rpre Hpre Hnew lk rk lpost Hyk
              (leb_refl _) [] s1) as (s2 & Hrun & Hvis & _).
  exists (mkState None (visited s2) (acquired s2) (S (released s2))
                  (datafile s2) (peak s2)).
  split.
  - unfold China.read, Driver.with_driver. unfold bind at 1.
    rewrite (get_at w _ index _ Hw).
    cbn [visited acquired released datafile peak].
    fold s1. unfold bind at 1. rewrite (get_links_at index s1 eq_refl).
    rewrite Hlinks, Hrun. cbn [app].
    rewrite firstn_app, firstn_all, Nat.sub_diag. cbn [firstn].
    now rewrite app_nil_r.
  - apply fetched_app. cbn [visited]. rewrite Hvis. unfold s1. cbn [visited].
    rewrite <- app_assoc. f_equal. cbn [app]. f_equal.
    replace (S (length rpre)) with (length (lpre ++ [lk])%list)
      by (rewrite length_app; simpl; lia).
    change (lpre ++ lk :: lpost)%list with (lpre ++ [lk] ++ lpost)%list.
    rewrite app_assoc, firstn_app, firstn_all, Nat.sub_diag. cbn [firstn].
    now rewrite app_nil_r.
Qed.

Lemma read_up_to_watermark_witness :
  exists s',
    China.read web0 "2022-03-16" state0 = (Ok [row_u1], s') /\
    fetched state0 s' = [China.source_url; "u1"; "u2"].
Proof.
  apply (read_up_to_watermark web0 incremental_index ["u1"; "u2"; "u3"]
           [row_u1; row_u2; row_u3] 1%nat row_u2 state0).
  - reflexivity.
  - reflexivity.
  - repeat constructor;
      apply (yields_at web0 _ _ state0); vm_compute; reflexivity.
  - repeat constructor.
  - reflexivity.
Defined.

(** ** Sessions and the data file *)

Section ExportRun.

Local Open Scope list_scope.

Variable w : web.

Lemma walk_get_links : walk China._get_links.
Proof. unfold China._get_links. scraper. Qed.

Lemma walk_get_links_complete : walk China._get_links_complete.
Proof. unfold China._get_links_complete. scraper. Qed.

(** A [with] block around a walk: one session more was opened, one more
    was closed, and the data file is as it was, however the block ends. *)
Lemma with_driver_walk {A} (body : M A) (s s' : state) (r : res A) :
  walk body ->
  Driver.with_driver body s = (r, s') ->
  acquired s' = S (acquired s) /\ released s' = S (released s) /\
  datafile s' = datafile s.
Proof.
  intros Hb H. apply with_driver_inv in H as (s2 & H & ->).
  apply Hb in H as (l & _ & Ha & Hr & Hd & _). simpl in *.
  now rewrite Ha, Hr, Hd.
Qed.

(** The same block, for the sessions open at once: while the block runs
    there is one more than before, and no other is opened inside. *)
Lemma with_driver_peak {A} (body : M A) (s s' : state) (r : res A) :
  walk body ->
  Driver.with_driver body s = (r, s') ->
  peak s' = Nat.max (peak s) (S (acquired s) - released s).
Proof.
  intros Hb H. apply with_driver_inv in H as (s2 & H & ->).
  apply Hb in H as (l & _ & _ & _ & _ & Hp). simpl in *. exact Hp.
Qed.

Lemma read_frame (wm : watermark) (s s' : state) (r : res DataFrame) :
  China.read w wm s = (r, s') ->
  acquired s' = S (acquired s) /\ released s' = S (released s) /\
  datafile s' = datafile s.
Proof.
  unfold China.read. apply with_driver_walk.
  apply walk_bind; [apply walk_get|]. intros _.
  apply walk_bind; [apply walk_get_links|]. intros links.
  apply walk_read_loop.
Qed.

Lemma read_complete_frame (s s' : state) (r : res DataFrame) :
  China.read_complete w s = (r, s') ->
  acquired s' = S (acquired s) /\ released s' = S (released s) /\
  datafile s' = datafile s.
Proof.
  unfold China.read_complete. apply with_driver_walk.
  apply walk_bind; [apply walk_get|]. intros _.
  apply walk_bind; [apply walk_get_links_complete|]. intros links.
  apply walk_complete_loop.
Qed.

Lemma read_peak (wm : watermark) (s s' : state) (r : res DataFrame) :
  China.read w wm s = (r, s') ->
  peak s' = Nat.max (peak s) (S (acquired s) - released s).
Proof.
  unfold China.read. apply with_driver_peak.
  apply walk_bind; [apply walk_get|]. intros _.
  apply walk_bind; [apply walk_get_links|]. intros links.
  apply walk_read_loop.
Qed.

Lemma read_complete_peak (s s' : state) (r : res DataFrame) :
  China.read_complete w s = (r, s') ->
  peak s' = Nat.max (peak s) (S (acquired s) - released s).
Proof.
  unfold China.read_complete. apply with_driver_peak.
  apply walk_bind; [apply walk_get|]. intros _.
  apply walk_bind; [apply walk_get_links_complete|]. intros links.
  apply walk_complete_loop.
Qed.

Lemma pipeline_guard (df : DataFrame) :
  (if negb (empty df) then China.pipeline df else df) = China.pipeline df.
Proof. now destruct df. Qed.

(** The runs of [export], by the step that ends them. *)
Lemma export_cases (s s' : state) (r : res unit) :
  China.export w s = (r, s') ->
  let wm := Store.date_max (dates (datafile s)) in
  (exists e, China.read w wm s = (Raise e, s') /\ r = Raise e) \/
  (exists I s1,
     China.read w wm s = (Ok I, s1) /\
     ((exists e, China.read_complete w s1 = (Raise e, s') /\ r = Raise e) \/
      (exists C s2,
         China.read_complete w s1 = (Ok C, s2) /\
         ((exists e,
             China.merge (China.pipeline I) (China.pipeline C) = Raise e /\
             r = Raise e /\ s' = s2) \/
          (exists df,
             China.merge (China.pipeline I) (China.pipeline C) = Ok df /\
             r = Ok tt /\
             s' = mkState (current s2) (visited s2) (acquired s2)
                          (released s2) (Store.attach df (datafile s2))
                          (peak s2)))))).
Proof.
  intros H wm. unfold China.export in H.
  unfold bind at 1 in H. unfold Store.load_datafile in H. fold wm in H.
  unfold bind at 1 in H.
  destruct (China.read w wm s) as [[I|e] s1] eqn:ER.
  2:{ left. exists e. injection H as <- <-. now split. }
  right. exists I, s1. split; [reflexivity|].
  unfold bind at 1 in H.
  destruct (China.read_complete w s1) as [[C|e] s2] eqn:EC.
  2:{ left. exists e. injection H as <- <-. now split. }
  right. exists C, s2. split; [reflexivity|].
  rewrite !pipeline_guard in H. unfold bind, lift in H.
  destruct (China.merge (China.pipeline I) (China.pipeline C)) as [df|e].
  - right. exists df. unfold Store.export_datafile in H.
    injection H as <- <-. now repeat split.
  - left. exists e. injection H as <- <-. now repeat split.
Qed.

End ExportRun.

(** C5: a run of [export] that ends in an exception, whichever step raised
    it, leaves the data file as it was; and a run that returns has written
    the reconciliation of its two streams with the file as it was, computed
    as a whole before the one write. *)
Theorem export_failure_keeps_file :
  forall (w : web) (s s' : state),
    (forall e, China.export w s = (Raise e, s') ->
               datafile s' = datafile s) /\
    (China.export w s = (Ok tt, s') ->
     exists I C s1 s2,
       China.read w (Store.date_max (dates (datafile s))) s = (Ok I, s1) /\
       China.read_complete w s1 = (Ok C, s2) /\
       reconcile (China.pipeline I) (China.pipeline C) (datafile s)
       = Ok (datafile s')).
Proof.
  intros w s s'. split.
  - intros e H. apply export_cases in H.
    destruct H as [(e1 & HR & _)|(I & s1 & HR & H)].
    + now apply read_frame in HR.
    + apply read_frame in HR as (_ & _ & HdR).
      destruct H as [(e1 & HC & _)|(C & s2 & HC & H)].
      * apply read_complete_frame in HC as (_ & _ & HdC). congruence.
      * apply read_complete_frame in HC as (_ & _ & HdC).
        destruct H as [(e1 & _ & _ & ->)|(df & _ & Habs & _)];
          [congruence|discriminate].
  - intros H. apply export_cases in H.
    destruct H as [(e1 & _ & Habs)|(I & s1 & HR & H)]; [discriminate|].
    destruct H as [(e1 & _ & Habs)|(C & s2 & HC & H)]; [discriminate|].
    destruct H as [(e1 & _ & Habs & _)|(df & Hm & _ & ->)]; [discriminate|].
    exists I, C, s1, s2. split; [exact HR|]. split; [exact HC|].
    apply read_frame in HR as (_ & _ & HdR).
    apply read_complete_frame in HC as (_ & _ & HdC).
    unfold reconcile. rewrite Hm. cbn [rbind datafile]. congruence.
Qed.

(** In the web whose first press conference lacks a numeral group, the run
    raises and the file keeps its one record; in the web where every page
    is parsed, the run writes the reconciliation. *)
Lemma export_failure_keeps_file_witness :
  datafile (snd (China.export web1 state0)) = datafile state0 /\
  exists I C s1 s2,
    China.read web0 (Store.date_max (dates (datafile state0))) state0
    = (Ok I, s1) /\
    China.read_complete web0 s1 = (Ok C, s2) /\
    reconcile (China.pipeline I) (China.pipeline C) (datafile state0)
    = Ok (datafile (snd (China.export web0 state0))).
Proof.
  split.
  - apply (proj1 (export_failure_keeps_file web1 state0
                    (snd (China.export web1 state0)))
                 (China.none_has_no "groups")).
    vm_compute. reflexivity.
  - apply (proj2 (export_failure_keeps_file web0 state0
                    (snd (China.export web0 state0)))).
    vm_compute. reflexivity.
Defined.

(** C7, as stated, fails: a run of [export] that returns has opened two
    sessions, one in [read] and one in [read_complete]. *)
Lemma export_opens_two_sessions : ~ one_session_per_export.
Proof.
  intros H.
  destruct (H web0 state0 (snd (China.export web0 state0))
              (fst (China.export web0 state0))) as [Habs _].
  - vm_compute. reflexivity.
  - vm_compute in Habs. discriminate Habs.
Qed.

(** C7, amended: [read] and [read_complete] each open a session of their
    own in a [with] block, so a run of [export] does not open exactly one.
    Every session opened in a run has been closed when the run ends, by
    return or by exception of any step.  A run opens at most two sessions,
    and two when it returns; when [read] raises, the run ends there with
    that exception, and has opened at most one.  The session of
    [read_complete] is opened after that of [read] was closed: from a
    state with no session open, never more than one is open at a time. *)
Theorem export_sessions_released :
  forall (w : web) (s s' : state) (r : res unit),
    China.export w s = (r, s') ->
    (acquired s' + released s = released s' + acquired s)%nat /\
    (acquired s' <= acquired s + 2)%nat /\
    (r = Ok tt -> acquired s' = (acquired s + 2)%nat) /\
    (forall (e : exn) (s1 : state),
       China.read w (Store.date_max (dates (datafile s))) s = (Raise e, s1) ->
       r = Raise e /\ s' = s1 /\ (acquired s' <= acquired s + 1)%nat) /\
    (released s = acquired s -> (peak s' <= Nat.max (peak s) 1)%nat).
Proof.
  intros w s s' r H. apply export_cases in H.
  destruct H as [(e1 & HR & ->)|(I & s1 & HR & H)].
  - pose proof (read_peak w _ _ _ _ HR) as Hp.
    pose proof (read_frame w _ _ _ _ HR) as (Ha & Hr & _).
    split; [lia|]. split; [lia|]. split; [discriminate|]. split.
    + intros e s1 HR'. rewrite HR in HR'. injection HR' as <- <-.
      split; [reflexivity|]. split; [reflexivity|lia].
    + intros Hbal. rewrite Hp. lia.
  - pose proof (read_peak w _ _ _ _ HR) as Hp.
    pose proof (read_frame w _ _ _ _ HR) as (Ha & Hr & _).
    assert (Hs : acquired s' = S (acquired s1) /\
                 released s' = S (released s1) /\
                 peak s' = Nat.max (peak s1) (S (acquired s1) - released s1)).
    { destruct H as [(e1 & HC & _)|(C & s2 & HC & H)];
        pose proof (read_complete_peak w _ _ _ HC) as Hp2;
        apply read_complete_frame in HC as (Ha2 & Hr2 & _).
      - now repeat split.
      - destruct H as [(e1 & _ & _ & ->)|(df & _ & _ & ->)]; now repeat split. }
    destruct Hs as (Hs1 & Hs2 & Hs3).
    split; [lia|]. split; [lia|]. split; [intros _; lia|]. split.
    + intros e s0 HR'. rewrite HR in HR'. discriminate HR'.
    + intros Hbal. rewrite Hs3, Hp. lia.
Qed.

Lemma export_sessions_released_witness :
  (acquired (snd (China.export web0 state0)) + released state0
   = released (snd (China.export web0 state0)) + acquired state0)%nat /\
  (acquired (snd (China.export web0 state0)) <= acquired state0 + 2)%nat /\
  (Ok tt = Ok tt ->
   acquired (snd (China.export web0 state0)) = (acquired state0 + 2)%nat) /\
  (forall (e : exn) (s1 : state),
     China.read web0 (Store.date_max (dates (datafile state0))) state0
     = (Raise e, s1) ->
     Ok tt = Raise e /\ snd (China.export web0 state0) = s1 /\
     (acquired (snd (China.export web0 state0)) <= acquired state0 + 1)%nat) /\
  (released state0 = acquired state0 ->
   (peak (snd (China.export web0 state0)) <= Nat.max (peak state0) 1)%nat).
Proof.
  apply (export_sessions_released web0 state0
           (snd (China.export web0 state0)) (Ok tt)).
  vm_compute. reflexivity.
Defined.

(** * Further properties *)

(** ** The incremental walk, whatever the order of the listing *)

Section Walk.

Local Open Scope list_scope.
Local Open Scope nat_scope.

Variable w : web.

Lemma session_runs (url : string) (index : page) (s : state) {A}
  (out : res A) (l : list string) (k : M A) :
  w url = Some index ->
  (forall s1, current s1 = Some index ->
              visited s1 = visited s ++ [url] ->
              exists s2, k s1 = (out, s2) /\ fetches l s1 s2) ->
  exists s',
    Driver.with_driver (Driver.get w url ;;; k) s = (out, s') /\
    fetched s s' = url :: l /\
    acquired s' = S (acquired s) /\ released s' = S (released s) /\
    datafile s' = datafile s.
Proof.
  intros Hw Hk.
  set (s1 := mkState (Some index) (visited s ++ [url])
                     (S (acquired s)) (released s) (datafile s)
                     (Nat.max (peak s) (S (acquired s) - released s))).
  destruct (Hk s1 eq_refl eq_refl) as (s3 & Hrun & Hvis & Ha & Hr & Hd & _).
  exists (mkState None (visited s3) (acquired s3) (S (released s3))
                  (datafile s3) (peak s3)).
  split; [|split].
  - unfold Driver.with_driver. unfold bind at 1.
    rewrite (get_at w _ index _ Hw). cbn [visited acquired released datafile peak].
    fold s1. now rewrite Hrun.
  - apply fetched_app. cbn [visited]. rewrite Hvis. unfold s1. cbn [visited].
    now rewrite <- app_assoc.
  - cbn [acquired released datafile]. rewrite Ha, Hr, Hd. now unfold s1.
Qed.

Lemma parse_data_Ok (url : string) (s s' : state) (r : Row) :
  China._parse_data w url s = (Ok r, s') -> incremental_row url r.
Proof.
  unfold China._parse_data. intros H.
  apply bind_Ok in H as ([] & s1 & _ & H).
  apply bind_Ok in H as (text & s2 & _ & H).
  apply bind_Ok in H as (d & s3 & _ & H).
  apply bind_Ok in H as (n & s4 & _ & H).
  injection H as <- _. unfold incremental_row. simpl.
  repeat split; try reflexivity. now exists n.
Qed.

Lemma yields_row (url : string) (r : Row) : yields w url r -> incremental_row url r.
Proof.
  intros H. specialize (H state0).
  destruct (China._parse_data w url state0) as [x s'] eqn:E.
  simpl in H. subst x. eapply parse_data_Ok, E.
Qed.

(** The loop, read backwards from a list that it returned: [parsed] are
    the records of the pages that it fetched. *)
Lemma read_loop_Ok (wm : string) (links : list string) :
  forall (acc : list Row) (s s' : state) (recs : list Row),
    China.read_loop w wm links acc s = (Ok recs, s') ->
    exists parsed,
      Forall2 (yields w) (firstn (length parsed) links) parsed /\
      length parsed <= length links /\
      recs = acc ++ newer_prefix wm parsed /\
      (length parsed = length links \/
       length (newer_prefix wm parsed) < length parsed) /\
      fetches (firstn (length parsed) links) s s'.
Proof.
  induction links as [|l links IH]; intros acc s s' recs H.
  - simpl in H. injection H as <- <-. exists []. simpl.
    rewrite app_nil_r.
    split; [constructor|]. split; [lia|]. split; [reflexivity|].
    split; [now left|apply fetches_nil].
  - rewrite read_loop_cons in H.
    apply bind_Ok in H as (r & s1 & Hp & H).
    pose proof (yields_at w l r s) as Hy. rewrite Hp in Hy.
    specialize (Hy eq_refl). apply parse_data_fetches in Hp.
    destruct (date r <=? wm)%string eqn:Hd.
    + injection H as <- <-. exists [r]. cbn [length firstn newer_prefix].
      rewrite Hd, app_nil_r. simpl.
      split; [now repeat constructor|]. split; [lia|]. split; [reflexivity|].
      split; [right; lia|exact Hp].
    + apply IH in H as (parsed & HF & Hlen & -> & Hstop & Hf).
      exists (r :: parsed). cbn [length firstn newer_prefix]. rewrite Hd.
      split; [now constructor|]. split; [simpl; lia|].
      split; [now rewrite <- app_assoc|]. split.
      * simpl. destruct Hstop; [left|right]; lia.
      * apply (fetches_trans [l] _ s s1 s' Hp Hf).
Qed.

(** The loop, run on a listing of which the first pages are known to be
    parsed, far enough for the loop to end among them. *)
Lemma read_loop_runs (wm : string) (lk : list string) (parsed : list Row) :
  Forall2 (yields w) lk parsed ->
  forall (rest : list string) (acc : list Row) (s : state),
    rest = [] \/ length (newer_prefix wm parsed) < length parsed ->
    exists s',
      China.read_loop w wm (lk ++ rest) acc s
      = (Ok (acc ++ newer_prefix wm parsed), s') /\
      fetches (firstn (S (length (newer_prefix wm parsed))) lk) s s'.
Proof.
  induction 1 as [|l r lk parsed Hy _ IH]; intros rest acc s Hstop.
  - destruct Hstop as [->|Hlt]; [|simpl in Hlt; lia].
    exists s. simpl. rewrite app_nil_r. split; [reflexivity|apply fetches_nil].
  - cbn [newer_prefix app]. rewrite read_loop_cons. unfold bind.
    destruct (China._parse_data w l s) as [x s1] eqn:E.
    pose proof (Hy s) as Hx. rewrite E in Hx. simpl in Hx. subst x.
    apply parse_data_fetches in E.
    cbn [newer_prefix] in Hstop.
    destruct (date r <=? wm)%string.
    + exists s1. rewrite app_nil_r. split; [reflexivity|exact E].
    + destruct (IH rest (acc ++ [r]) s1) as (s' & Hrun & Hf).
      { destruct Hstop as [->|Hlt]; [now left|right]. simpl in Hlt. lia. }
      exists s'. rewrite <- app_assoc in Hrun. split; [exact Hrun|].
      apply (fetches_trans [l] _ s s1 s' E Hf).
Qed.

Lemma read_Ok (wm : string) (s s' : state) (recs : DataFrame) :
  China.read w wm s = (Ok recs, s') ->
  exists index parsed,
    w China.source_url = Some index /\
    Forall2 (yields w)
            (firstn (length parsed) (map snd (anchors index))) parsed /\
    length parsed <= length (anchors index) /\
    recs = newer_prefix wm parsed /\
    (length parsed = length (anchors index) \/
     length (newer_prefix wm parsed) < length parsed) /\
    fetched s s'
    = China.source_url :: firstn (length parsed) (map snd (anchors index)).
Proof.
  unfold China.read. intros H.
  apply with_driver_inv in H as (s2 & H & ->).
  apply bind_Ok in H as ([] & s3 & Hget & H).
  apply bind_Ok in H as (links & s4 & Hlinks & H).
  pose proof (get_fetches _ _ _ _ _ Hget) as [Hv3 _].
  apply get_Ok in Hget as (index & Hw & Hcur).
  rewrite (get_links_at index s3 Hcur) in Hlinks. injection Hlinks as <- <-.
  apply read_loop_Ok in H as (parsed & HF & Hlen & -> & Hstop & Hv & _).
  exists index, parsed. rewrite length_map in Hlen, Hstop.
  split; [exact Hw|]. split; [exact HF|]. split; [exact Hlen|].
  split; [reflexivity|]. split; [exact Hstop|].
  apply fetched_app. cbn [visited]. rewrite Hv, Hv3. cbn [visited].
  now rewrite <- app_assoc.
Qed.

Lemma newer_prefix_newer (wm : string) (recs : list Row) :
  Forall (fun r => (date r <=? wm)%string = false) (newer_prefix wm recs).
Proof.
  induction recs as [|r recs IH]; simpl; [constructor|].
  destruct (date r <=? wm)%string eqn:E; constructor; assumption.
Qed.

Lemma newer_prefix_firstn (wm : string) (recs : list Row) :
  newer_prefix wm recs = firstn (length (newer_prefix wm recs)) recs.
Proof.
  induction recs as [|r recs IH]; simpl; [reflexivity|].
  destruct (date r <=? wm)%string; simpl; [reflexivity|now f_equal].
Qed.

Lemma newer_prefix_length (wm : string) (recs : list Row) :
  length (newer_prefix wm recs) <= length recs.
Proof.
  induction recs as [|r recs IH]; simpl; [lia|].
  destruct (date r <=? wm)%string; simpl; lia.
Qed.

Lemma Forall2_firstn {A B} (R : A -> B -> Prop) (n : nat) :
  forall l1 l2, Forall2 R l1 l2 -> Forall2 R (firstn n l1) (firstn n l2).
Proof.
  induction n as [|n IH]; intros l1 l2 H; simpl; [constructor|].
  destruct H; constructor; auto.
Qed.

Lemma read_runs_prefix (wm : string) (index : page) (lk rest : list string)
  (parsed : list Row) (s : state) :
  w China.source_url = Some index ->
  map snd (anchors index) = lk ++ rest ->
  Forall2 (yields w) lk parsed ->
  rest = [] \/ length (newer_prefix wm parsed) < length parsed ->
  exists s',
    China.read w wm s = (Ok (newer_prefix wm parsed), s') /\
    fetched s s'
    = China.source_url :: firstn (S (length (newer_prefix wm parsed))) lk.
Proof.
  intros Hw Hlinks HF Hstop. unfold China.read.
  destruct (session_runs China.source_url index s (Ok (newer_prefix wm parsed))
              (firstn (S (length (newer_prefix wm parsed))) lk)
              (links <- China._get_links ;;
               China.read_loop w wm links []) Hw) as (s' & Hrun & Hf & _).
  - intros s1 Hcur _. unfold bind. rewrite (get_links_at index s1 Hcur), Hlinks.
    apply (read_loop_runs wm lk parsed HF rest [] s1 Hstop).
  - now exists s'.
Qed.

Lemma read_loop_fails (wm : watermark) (lpre : list string)
  (rpre : list Row) :
  Forall2 (yields w) lpre rpre ->
  Forall (fun r => str_le (date r) wm = Ok false) rpre ->
  forall (lj : string) (e : exn) (lpost : list string),
    fails w lj e ->
    forall (acc : list Row) (s : state),
    exists s',
      China.read_loop w wm (lpre ++ lj :: lpost) acc s = (Raise e, s') /\
      fetches (lpre ++ [lj]) s s'.
Proof.
  induction 1 as [|l r lpre rpre Hy _ IH]; intros Hnew lj e lpost Hj acc s.
  - cbn [app China.read_loop]. unfold bind at 1.
    destruct (China._parse_data w lj s) as [x s1] eqn:E.
    pose proof (Hj s) as Hx. rewrite E in Hx. simpl in Hx. subst x.
    exists s1. split; [reflexivity|]. eapply parse_data_fetches, E.
  - inversion Hnew as [|r' rs Hr Hrs]; subst.
    cbn [app China.read_loop]. unfold bind at 1.
    destruct (China._parse_data w l s) as [x s1] eqn:E.
    pose proof (Hy s) as Hx. rewrite E in Hx. simpl in Hx. subst x.
    unfold bind at 1, lift. rewrite Hr.
    destruct (IH Hrs lj e lpost Hj (acc ++ [r]) s1) as (s' & Hrun & Hf).
    exists s'. split; [exact Hrun|].
    apply parse_data_fetches in E.
    apply (fetches_trans [l] (lpre ++ [lj]) s s1 s' E Hf).
Qed.

Lemma read_loop_any (wm : string) (links : list string) :
  forall (acc : list Row) (s s' : state) (r : res (list Row)),
    China.read_loop w wm links acc s = (r, s') ->
    exists k, k <= length links /\ fetches (firstn k links) s s'.
Proof.
  induction links as [|l links IH]; intros acc s s' r H.
  - simpl in H. injection H as <- <-. exists 0. split; [lia|apply fetches_nil].
  - rewrite read_loop_cons in H. unfold bind in H.
    destruct (China._parse_data w l s) as [[x|e] s1] eqn:E;
      apply parse_data_fetches in E.
    + destruct (date x <=? wm)%string.
      * injection H as <- <-. exists 1. split; [simpl; lia|exact E].
      * apply IH in H as (k & Hk & Hf). exists (S k).
        split; [simpl; lia|]. apply (fetches_trans [l] _ s s1 s' E Hf).
    + injection H as <- <-. exists 1. split; [simpl; lia|exact E].
Qed.

Lemma read_fails_fast_aux (index : page) (lpre : list string) (lj : string)
  (lpost : list string) (rpre : list Row) (e : exn) (wm : watermark)
  (s : state) :
  w China.source_url = Some index ->
  map snd (anchors index) = lpre ++ lj :: lpost ->
  Forall2 (yields w) lpre rpre ->
  Forall (fun r => str_le (date r) wm = Ok false) rpre ->
  fails w lj e ->
  exists s',
    China.read w wm s = (Raise e, s') /\
    fetched s s' = China.source_url :: lpre ++ [lj] /\
    acquired s' = S (acquired s) /\ released s' = S (released s) /\
    datafile s' = datafile s.
Proof.
  intros Hw Hlinks HF Hnew Hj.
  unfold China.read. apply (session_runs China.source_url index s); [exact Hw|].
  intros s1 Hcur _. unfold bind. rewrite (get_links_at index s1 Hcur), Hlinks.
  apply (read_loop_fails wm lpre rpre HF Hnew lj e lpost Hj [] s1).
Qed.

(** With NaN as [last_update] the first bulletin that is parsed ends the
    walk in the [TypeError] of the comparison. *)
Lemma read_without_history (index : page) (l : string) (rest : list string)
  (r : Row) (s : state) :
  w China.source_url = Some index ->
  map snd (anchors index) = l :: rest ->
  yields w l r ->
  exists s',
    China.read w NaN s = (Raise not_supported, s') /\
    fetched s s' = [China.source_url; l] /\
    acquired s' = S (acquired s) /\ released s' = S (released s) /\
    datafile s' = datafile s.
Proof.
  intros Hw Hlinks Hy. unfold China.read.
  apply (session_runs China.source_url index s); [exact Hw|].
  intros s1 Hcur _. unfold bind at 1.
  rewrite (get_links_at index s1 Hcur), Hlinks.
  cbn [China.read_loop]. unfold bind at 1.
  destruct (China._parse_data w l s1) as [x s2] eqn:E.
  pose proof (Hy s1) as Hx. rewrite E in Hx. simpl in Hx. subst x.
  exists s2. split; [reflexivity|]. eapply parse_data_fetches, E.
Qed.

Lemma index_down {A} (url : string) (k : M A) (s s' : state) (r : res A) :
  w url = None ->
  Driver.with_driver (Driver.get w url ;;; k) s = (r, s') ->
  r = Raise (TimeoutException url) /\ fetched s s' = [url].
Proof.
  intros Hw H. apply with_driver_inv in H as (s2 & H & ->).
  unfold bind, Driver.get in H. rewrite Hw in H. injection H as <- <-.
  split; [reflexivity|]. now apply fetched_app.
Qed.

End Walk.

Section Watermarks.

Local Open Scope list_scope.
Local Open Scope nat_scope.

Lemma string_leb_trans (a b c : string) :
  (a <=? b)%string = true -> (b <=? c)%string = true ->
  (a <=? c)%string = true.
Proof.
  unfold String.leb.
  destruct (a ?= b)%string eqn:E1; try discriminate;
    destruct (b ?= c)%string eqn:E2; try discriminate; intros _ _.
  - apply String.compare_eq_iff in E1, E2. subst.
    now rewrite string_compare_refl.
  - apply String.compare_eq_iff in E1. subst. now rewrite E2.
  - apply String.compare_eq_iff in E2. subst. now rewrite E1.
  - now rewrite (string_compare_trans _ _ _ E1 E2).
Qed.

Lemma newer_prefix_mono (wm1 wm2 : string) (recs : list Row) :
  (wm1 <=? wm2)%string = true ->
  prefix_of (newer_prefix wm2 recs) (newer_prefix wm1 recs).
Proof.
  intros Hle. induction recs as [|r recs IH]; simpl.
  - now exists [].
  - destruct (date r <=? wm2)%string eqn:E2.
    + now eexists.
    + destruct (date r <=? wm1)%string eqn:E1.
      * rewrite (string_leb_trans _ _ _ E1 Hle) in E2. discriminate.
      * destruct IH as [rest ->]. now exists rest.
Qed.

Lemma prefix_of_length {A} (l1 l2 : list A) :
  prefix_of l1 l2 -> length l1 <= length l2.
Proof. intros [rest ->]. rewrite length_app. lia. Qed.

Lemma Exists_old (wm : string) (recs : list Row) :
  Exists (fun r => (date r <=? wm)%string = true) recs ->
  length (newer_prefix wm recs) < length recs.
Proof.
  induction 1 as [r recs Hr|r recs _ IH]; simpl.
  - rewrite Hr. simpl. lia.
  - destruct (date r <=? wm)%string; simpl; lia.
Qed.

End Watermarks.

(** X1: [read] stops at the first page that is dated at or before the
    latest date on file, in whatever order the listing is: it returns the
    records of the pages before that one, it has fetched that page and
    none behind it, and the pages behind it need not even be parsable.
    When no page is that old it returns them all. *)
Theorem read_stops_at_first_known :
  forall (w : web) (index : page) (lk rest : list string)
         (parsed : list Row) (wm : string) (s : state),
    w China.source_url = Some index ->
    map snd (anchors index) = (lk ++ rest)%list ->
    Forall2 (yields w) lk parsed ->
    rest = [] \/ Exists (fun r => (date r <=? wm)%string = true) parsed ->
    exists s',
      China.read w wm s = (Ok (newer_prefix wm parsed), s') /\
      fetched s s'
      = China.source_url :: firstn (S (length (newer_prefix wm parsed))) lk.
Proof.
  intros w index lk rest parsed wm s Hw Hlinks HF Hstop.
  apply (read_runs_prefix w wm index lk rest parsed s Hw Hlinks HF).
  destruct Hstop as [->|Hold]; [now left|right]. now apply Exists_old.
Qed.

(** In the listing out of order the bulletin of 16 March is behind the
    one of 15 March, the latest on file: it is newer, and it is neither
    fetched nor returned. *)
Lemma read_stops_at_first_known_witness :
  exists s',
    China.read web_unsorted "2022-03-15" state0 = (Ok [row_u1], s') /\
    fetched state0 s' = [China.source_url; "u1"; "u3"].
Proof.
  apply (read_stops_at_first_known web_unsorted
           (mkPage None [(u "a", "u1"); (u "c", "u3"); (u "b", "u2")])
           ["u1"; "u3"] ["u2"] [row_u1; row_u3] "2022-03-15" state0).
  - reflexivity.
  - reflexivity.
  - repeat constructor;
      apply (yields_at web_unsorted _ _ state0); vm_compute; reflexivity.
  - right. right. left. reflexivity.
Defined.

(** X2: whatever the pages hold, the records that [read] returns are all
    dated after the latest date on file; they are the records of the first
    links of the listing, one for each and in the order of the listing,
    none left out between two of them; and each carries the address of its
    page, a total count, and none of the other counts or labels. *)
Theorem read_returns_only_new :
  forall (w : web) (wm : string) (s s' : state) (recs : DataFrame),
    China.read w wm s = (Ok recs, s') ->
    exists index,
      w China.source_url = Some index /\
      (length recs <= length (anchors index))%nat /\
      Forall (fun r => (date r <=? wm)%string = false) recs /\
      Forall2 incremental_row
              (firstn (length recs) (map snd (anchors index))) recs.
Proof.
  intros w wm s s' recs H.
  apply read_Ok in H as (index & parsed & Hw & HF & Hlen & -> & _ & _).
  exists index. split; [exact Hw|].
  pose proof (newer_prefix_length wm parsed) as Hn.
  split; [lia|]. split; [apply newer_prefix_newer|].
  apply (Forall2_firstn _ (length (newer_prefix wm parsed))) in HF.
  rewrite firstn_firstn, Nat.min_l in HF by exact Hn.
  rewrite <- newer_prefix_firstn in HF.
  eapply Forall2_impl; [|exact HF]. intros l r. apply yields_row.
Qed.

Lemma read_returns_only_new_witness :
  exists index,
    web0 China.source_url = Some index /\
    (length [row_u1] <= length (anchors index))%nat /\
    Forall (fun r => (date r <=? "2022-03-16")%string = false) [row_u1] /\
    Forall2 incremental_row
            (firstn (length [row_u1]) (map snd (anchors index))) [row_u1].
Proof.
  apply (read_returns_only_new web0 "2022-03-16" state0
           (snd (China.read web0 "2022-03-16" state0))).
  vm_compute. reflexivity.
Defined.

(** X3: [read] fails fast.  When the pages before some page are parsed to
    records newer than the latest date on file and that page raises, [read]
    ends in that exception: the records gathered so far are not returned,
    no page behind the failing one is fetched, and the session it opened is
    closed. *)
Theorem read_fails_fast :
  forall (w : web) (index : page) (lpre : list string) (lj : string)
         (lpost : list string) (rpre : list Row) (e : exn) (wm : string)
         (s : state),
    w China.source_url = Some index ->
    map snd (anchors index) = (lpre ++ lj :: lpost)%list ->
    Forall2 (yields w) lpre rpre ->
    Forall (fun r => (date r <=? wm)%string = false) rpre ->
    fails w lj e ->
    exists s',
      China.read w wm s = (Raise e, s') /\
      fetched s s' = China.source_url :: (lpre ++ [lj])%list /\
      acquired s' = S (acquired s) /\ released s' = S (released s) /\
      datafile s' = datafile s.
Proof.
  intros w index lpre lj lpost rpre e wm s Hw Hlinks HF Hnew Hj.
  apply (read_fails_fast_aux w index lpre lj lpost rpre e wm s Hw Hlinks HF);
    [|exact Hj].
  eapply Forall_impl; [|exact Hnew]. intros r Hr. cbn [str_le]. now rewrite Hr.
Qed.

(** The second bulletin of the broken listing has a date but no count. *)
Lemma read_fails_fast_witness :
  exists s',
    China.read web_broken "2022-03-15" state0
    = (Raise (China.none_has_no "group"), s') /\
    fetched state0 s' = [China.source_url; "u1"; "u9"] /\
    acquired s' = S (acquired state0) /\
    released s' = S (released state0) /\
    datafile s' = datafile state0.
Proof.
  apply (read_fails_fast web_broken
           (mkPage None [(u "a", "u1"); (u "x", "u9"); (u "c", "u3")])
           ["u1"] "u9" ["u3"] [row_u1]).
  - reflexivity.
  - reflexivity.
  - constructor; [|constructor].
    apply (yields_at web_broken _ _ state0); vm_compute; reflexivity.
  - repeat constructor.
  - intros s. rewrite (parse_data_any web_broken "u9" s state0).
    vm_compute. reflexivity.
Defined.

(** X4: however a run of [read] ends, the pages it has fetched are the
    index page and then the first [k] links of the listing, in the order of
    the listing, for some [k]; when the index page does not load, the run
    ends in the time-out of the index page and has fetched nothing else. *)
Theorem read_fetches_listing_prefix :
  forall (w : web) (wm : string) (s s' : state) (r : res DataFrame),
    China.read w wm s = (r, s') ->
    (w China.source_url = None /\
     r = Raise (TimeoutException China.source_url) /\
     fetched s s' = [China.source_url]) \/
    (exists index k,
       w China.source_url = Some index /\
       (k <= length (anchors index))%nat /\
       fetched s s'
       = China.source_url :: firstn k (map snd (anchors index))).
Proof.
  intros w wm s s' r H.
  destruct (w China.source_url) as [index|] eqn:Hw.
  - right. unfold China.read in H.
    apply with_driver_inv in H as (s2 & H & ->).
    unfold bind at 1 in H. rewrite (get_at w _ index _ Hw) in H.
    unfold bind at 1 in H.
    match type of H with
    | context [China._get_links ?st] =>
        rewrite (get_links_at index st eq_refl) in H
    end.
    apply read_loop_any in H as (k & Hk & Hv & _).
    exists index, k. rewrite length_map in Hk.
    split; [reflexivity|]. split; [exact Hk|].
    apply fetched_app. cbn [visited] in *. rewrite Hv.
    now rewrite <- app_assoc.
  - left. split; [reflexivity|]. unfold China.read in H.
    now apply (index_down w _ _ s s' r Hw) in H.
Qed.

Lemma read_fetches_listing_prefix_witness :
  (web_down China.source_url = None /\
   fst (China.read web_down "2022-03-15" state0)
   = Raise (TimeoutException China.source_url) /\
   fetched state0 (snd (China.read web_down "2022-03-15" state0))
   = [China.source_url]) \/
  (exists index k,
     web_down China.source_url = Some index /\
     (k <= length (anchors index))%nat /\
     fetched state0 (snd (China.read web_down "2022-03-15" state0))
     = China.source_url :: firstn k (map snd (anchors index))).
Proof.
  apply (read_fetches_listing_prefix web_down "2022-03-15" state0).
  vm_compute. reflexivity.
Defined.

(** X5: a later date on file never brings more.  When [read] returns
    records for the date [wm1], it returns records for every later date
    [wm2] as well, from any state, and they are the first of the records
    it returned for [wm1]. *)
Theorem read_later_watermark_prefix :
  forall (w : web) (wm1 wm2 : string) (s s1 : state) (recs1 : DataFrame),
    (wm1 <=? wm2)%string = true ->
    China.read w wm1 s = (Ok recs1, s1) ->
    forall t : state,
    exists recs2 t',
      China.read w wm2 t = (Ok recs2, t') /\ prefix_of recs2 recs1.
Proof.
  intros w wm1 wm2 s s1 recs1 Hle H t.
  apply read_Ok in H as (index & parsed & Hw & HF & Hlen & -> & Hstop & _).
  pose proof (newer_prefix_mono wm1 wm2 parsed Hle) as Hpre.
  set (links := map snd (anchors index)) in *.
  destruct (read_runs_prefix w wm2 index (firstn (length parsed) links)
              (skipn (length parsed) links) parsed t Hw) as (t' & Hrun & _).
  - now rewrite firstn_skipn.
  - exact HF.
  - destruct Hstop as [Hall|Hlt].
    + left. apply skipn_all2. unfold links. rewrite length_map. lia.
    + right. apply prefix_of_length in Hpre. lia.
  - now exists (newer_prefix wm2 parsed), t'.
Qed.

Lemma read_later_watermark_prefix_witness :
  exists recs2 t',
    China.read web0 "2022-03-16" state0 = (Ok recs2, t') /\
    prefix_of recs2 [row_u1; row_u2].
Proof.
  apply (read_later_watermark_prefix web0 "2022-03-15" "2022-03-16" state0
           (snd (China.read web0 "2022-03-15" state0)) [row_u1; row_u2]).
  - reflexivity.
  - vm_compute. reflexivity.
Defined.

(** ** The walk over the complete bulletins *)

Section CompleteWalk.

Local Open Scope list_scope.
Local Open Scope nat_scope.

Variable w : web.

Lemma complete_loop_fails (lpre : list string) (rpre : list Row) :
  Forall2 (yields_complete w) lpre rpre ->
  forall (lj : string) (e : exn) (lpost : list string),
    fails_complete w lj e ->
    forall (acc : list Row) (s : state),
    exists s',
      China.complete_loop w (lpre ++ lj :: lpost) acc s = (Raise e, s') /\
      fetches (lpre ++ [lj]) s s'.
Proof.
  induction 1 as [|l r lpre rpre Hy _ IH]; intros lj e lpost Hj acc s.
  - cbn [China.complete_loop app]. unfold bind.
    destruct (China._parse_data_complete w lj s) as [x s1] eqn:E.
    pose proof (Hj s) as Hx. rewrite E in Hx. simpl in Hx. subst x.
    exists s1. split; [reflexivity|]. eapply parse_data_complete_fetches, E.
  - cbn [China.complete_loop app]. unfold bind.
    destruct (China._parse_data_complete w l s) as [x s1] eqn:E.
    pose proof (Hy s) as Hx. rewrite E in Hx. simpl in Hx. subst x.
    destruct (IH lj e lpost Hj (acc ++ [r]) s1) as (s' & Hrun & Hf).
    exists s'. split; [exact Hrun|].
    apply parse_data_complete_fetches in E.
    apply (fetches_trans [l] (lpre ++ [lj]) s s1 s' E Hf).
Qed.

Lemma complete_loop_any (links : list string) :
  forall (acc : list Row) (s s' : state) (r : res (list Row)),
    China.complete_loop w links acc s = (r, s') ->
    exists k, k <= length links /\ fetches (firstn k links) s s'.
Proof.
  induction links as [|l links IH]; intros acc s s' r H.
  - simpl in H. injection H as <- <-. exists 0. split; [lia|apply fetches_nil].
  - cbn [China.complete_loop] in H. unfold bind in H.
    destruct (China._parse_data_complete w l s) as [[x|e] s1] eqn:E;
      apply parse_data_complete_fetches in E.
    + apply IH in H as (k & Hk & Hf). exists (S k).
      split; [simpl; lia|]. apply (fetches_trans [l] _ s s1 s' E Hf).
    + injection H as <- <-. exists 1. split; [simpl; lia|exact E].
Qed.

Lemma In_firstn {A} (n : nat) (l : list A) (x : A) :
  In x (firstn n l) -> In x l.
Proof.
  intros H. rewrite <- (firstn_skipn n l). apply in_or_app. now left.
Qed.

Lemma complete_links_titled (index : page) (l : string) :
  In l (complete_links index) ->
  exists text g,
    In (text, l) (anchors index) /\
    Re.search China.regex_title text = Some g.
Proof.
  unfold complete_links. intros H. apply In_firstn in H.
  apply in_map_iff in H as ([text l'] & Hl & H). simpl in Hl. subst l'.
  apply filter_In in H as [Hin Hm]. simpl in Hm.
  destruct (Re.search China.regex_title text) as [g|] eqn:E; [|discriminate].
  now exists text, g.
Qed.

Lemma complete_links_length (index : page) :
  length (complete_links index) <= 3.
Proof. unfold complete_links. apply firstn_le_length. Qed.

End CompleteWalk.

(** X6: [read_complete] fails fast.  When the complete bulletins before
    one of the (at most three) bulletins it follows are parsed and that one
    raises, [read_complete] ends in that exception: no record is returned,
    no bulletin behind the failing one is fetched, and the session it
    opened is closed. *)
Theorem read_complete_fails_fast :
  forall (w : web) (index : page) (lpre : list string) (lj : string)
         (lpost : list string) (rpre : list Row) (e : exn) (s : state),
    w China.source_url_complete = Some index ->
    complete_links index = (lpre ++ lj :: lpost)%list ->
    Forall2 (yields_complete w) lpre rpre ->
    fails_complete w lj e ->
    exists s',
      China.read_complete w s = (Raise e, s') /\
      fetched s s' = China.source_url_complete :: (lpre ++ [lj])%list /\
      acquired s' = S (acquired s) /\ released s' = S (released s) /\
      datafile s' = datafile s.
Proof.
  intros w index lpre lj lpost rpre e s Hw Hlinks HF Hj.
  unfold China.read_complete.
  apply (session_runs w China.source_url_complete index s); [exact Hw|].
  intros s1 Hcur _. unfold bind.
  rewrite (get_links_complete_at index s1 Hcur).
  fold (complete_links index). rewrite Hlinks.
  apply (complete_loop_fails w lpre rpre HF lj e lpost Hj [] s1).
Qed.

(** The second press conference of the broken index lacks a numeral
    group; the third is not fetched. *)
Lemma read_complete_fails_fast_witness :
  exists s',
    China.read_complete web_broken state0
    = (Raise (China.none_has_no "groups"), s') /\
    fetched state0 s' = [China.source_url_complete; "c2"; "c1"] /\
    acquired s' = S (acquired state0) /\
    released s' = S (released state0) /\
    datafile s' = datafile state0.
Proof.
  apply (read_complete_fails_fast web_broken
           (mkPage None [(title "2021" "12" "29", "c2");
                         (title "2022" "3" "18", "c1");
                         (title "2021" "12" "29", "c2")])
           ["c2"] "c1" ["c2"] [row_c2]).
  - reflexivity.
  - vm_compute. reflexivity.
  - constructor; [|constructor].
    apply (yields_complete_at web_broken _ _ state0); vm_compute; reflexivity.
  - intros s. rewrite (parse_data_complete_any web_broken "c1" s state0).
    vm_compute. reflexivity.
Defined.

(** X7: however a run of [read_complete] ends, the pages it has fetched
    are the index page and then the first [k] of the links it follows, with
    [k] at most three; each of them is the address of an anchor of the
    index page whose text matches the title pattern.  When the index page
    does not load, the run ends in its time-out and has fetched nothing
    else. *)
Theorem read_complete_fetches_titled_links :
  forall (w : web) (s s' : state) (r : res DataFrame),
    China.read_complete w s = (r, s') ->
    (w China.source_url_complete = None /\
     r = Raise (TimeoutException China.source_url_complete) /\
     fetched s s' = [China.source_url_complete]) \/
    (exists index k,
       w China.source_url_complete = Some index /\
       (k <= 3)%nat /\
       fetched s s'
       = China.source_url_complete :: firstn k (complete_links index) /\
       forall l, In l (firstn k (complete_links index)) ->
         exists text g,
           In (text, l) (anchors index) /\
           Re.search China.regex_title text = Some g).
Proof.
  intros w s s' r H.
  destruct (w China.source_url_complete) as [index|] eqn:Hw.
  - right. unfold China.read_complete in H.
    apply with_driver_inv in H as (s2 & H & ->).
    unfold bind at 1 in H. rewrite (get_at w _ index _ Hw) in H.
    unfold bind at 1 in H.
    match type of H with
    | context [China._get_links_complete ?st] =>
        rewrite (get_links_complete_at index st eq_refl) in H
    end.
    fold (complete_links index) in H.
    apply complete_loop_any in H as (k & Hk & Hv & _).
    exists index, k. split; [reflexivity|].
    pose proof (complete_links_length index) as Hl.
    split; [apply (Nat.le_trans _ _ _ Hk Hl)|]. split.
    + apply fetched_app. cbn [visited] in *. rewrite Hv.
      now rewrite <- app_assoc.
    + intros l Hin. apply In_firstn in Hin.
      now apply complete_links_titled.
  - left. split; [reflexivity|]. unfold China.read_complete in H.
    now apply (index_down w _ _ s s' r Hw) in H.
Qed.

Lemma read_complete_fetches_titled_links_witness :
  (web0 China.source_url_complete = None /\
   fst (China.read_complete web0 state0)
   = Raise (TimeoutException China.source_url_complete) /\
   fetched state0 (snd (China.read_complete web0 state0))
   = [China.source_url_complete]) \/
  (exists index k,
     web0 China.source_url_complete = Some index /\
     (k <= 3)%nat /\
     fetched state0 (snd (China.read_complete web0 state0))
     = China.source_url_complete :: firstn k (complete_links index) /\
     forall l, In l (firstn k (complete_links index)) ->
       exists text g,
         In (text, l) (anchors index) /\
         Re.search China.regex_title text = Some g).
Proof.
  apply (read_complete_fetches_titled_links web0 state0).
  vm_compute. reflexivity.
Defined.

(** ** The pipeline and the run, once more *)

Section Runs.

Local Open Scope list_scope.

Variable w : web.

Lemma export_after_read_raises (s s1 : state) (e : exn) :
  China.read w (Store.date_max (dates (datafile s))) s = (Raise e, s1) ->
  China.export w s = (Raise e, s1).
Proof.
  intros H. unfold China.export, bind at 1, Store.load_datafile.
  unfold bind at 1. now rewrite H.
Qed.

Lemma export_after_both (s s1 s2 : state) (I C : DataFrame) :
  China.read w (Store.date_max (dates (datafile s))) s = (Ok I, s1) ->
  China.read_complete w s1 = (Ok C, s2) ->
  China.export w s
  = (df <- lift (China.merge (China.pipeline I) (China.pipeline C)) ;;
     Store.export_datafile df) s2.
Proof.
  intros HR HC. unfold China.export, bind at 1, Store.load_datafile.
  unfold bind at 1. rewrite HR. unfold bind at 1. rewrite HC.
  now rewrite !pipeline_guard.
Qed.

End Runs.

(** X8: the pipeline may be run again without effect; its two steps may
    be run in either order; and it keeps the rows, their order and their
    dates. *)
Theorem pipeline_idempotent :
  forall df : DataFrame,
    China.pipeline (China.pipeline df) = China.pipeline df /\
    China.pipe_metadata (China.pipe_vaccine df)
    = China.pipe_vaccine (China.pipe_metadata df) /\
    dates (China.pipeline df) = dates df /\
    length (China.pipeline df) = length df.
Proof.
  intros df. unfold China.pipeline, China.pipe_metadata, China.pipe_vaccine,
    assign_location, assign_vaccine, dates.
  rewrite !map_map, !length_map. repeat split; reflexivity.
Qed.

(** X9: one broken bulletin blocks the run.  When the bulletins before
    some bulletin of the listing are newer than the latest date on file
    and that bulletin raises, [export] ends in that exception after having
    fetched the listing up to that bulletin: the complete bulletins are
    not looked at, nothing is written, and the one session is closed. *)
Theorem export_blocked_by_broken_bulletin :
  forall (w : web) (index : page) (lpre : list string) (lj : string)
         (lpost : list string) (rpre : list Row) (e : exn) (s : state),
    w China.source_url = Some index ->
    map snd (anchors index) = (lpre ++ lj :: lpost)%list ->
    Forall2 (yields w) lpre rpre ->
    Forall (fun r => str_le (date r) (Store.date_max (dates (datafile s)))
                     = Ok false) rpre ->
    fails w lj e ->
    exists s',
      China.export w s = (Raise e, s') /\
      fetched s s' = China.source_url :: (lpre ++ [lj])%list /\
      acquired s' = S (acquired s) /\ released s' = S (released s) /\
      datafile s' = datafile s.
Proof.
  intros w index lpre lj lpost rpre e s Hw Hlinks HF Hnew Hj.
  destruct (read_fails_fast_aux w index lpre lj lpost rpre e
              (Store.date_max (dates (datafile s))) s Hw Hlinks HF Hnew Hj)
    as (s' & Hrun & Hrest).
  exists s'. split; [|exact Hrest]. now apply export_after_read_raises.
Qed.

Lemma export_blocked_by_broken_bulletin_witness :
  exists s',
    China.export web_broken state0
    = (Raise (China.none_has_no "group"), s') /\
    fetched state0 s' = [China.source_url; "u1"; "u9"] /\
    acquired s' = S (acquired state0) /\
    released s' = S (released state0) /\
    datafile s' = datafile state0.
Proof.
  apply (export_blocked_by_broken_bulletin web_broken
           (mkPage None [(u "a", "u1"); (u "x", "u9"); (u "c", "u3")])
           ["u1"] "u9" ["u3"] [row_u1]).
  - reflexivity.
  - reflexivity.
  - constructor; [|constructor].
    apply (yields_at web_broken _ _ state0); vm_compute; reflexivity.
  - repeat constructor.
  - intros s. rewrite (parse_data_any web_broken "u9" s state0).
    vm_compute. reflexivity.
Defined.

(** X10: new bulletins without a press conference end the run.  When
    [read] returns records and the index of the press conferences lists no
    title that matches, [export] raises the [AttributeError] of reading the
    [date] column of a frame without columns; it has fetched that index and
    no page behind it, and nothing is written. *)
Theorem export_raises_without_complete :
  forall (w : web) (s s1 : state) (I : DataFrame) (cindex : page),
    China.read w (Store.date_max (dates (datafile s))) s = (Ok I, s1) ->
    I <> [] ->
    w China.source_url_complete = Some cindex ->
    complete_links cindex = [] ->
    exists s',
      China.export w s
      = (Raise (AttributeError "'DataFrame' object has no attribute 'date'"),
         s') /\
      fetched s1 s' = [China.source_url_complete] /\
      datafile s' = datafile s.
Proof.
  intros w s s1 I cindex HR HI Hw Hnone.
  destruct (read_complete_runs w cindex [] s1 Hw) as (s2 & HC & Hf).
  { rewrite Hnone. constructor. }
  exists s2. rewrite Hnone in Hf.
  rewrite (export_after_both w s s1 s2 I [] HR HC).
  apply read_frame in HR as (_ & _ & HdR).
  apply read_complete_frame in HC as (_ & _ & HdC).
  split; [|split; [exact Hf|congruence]].
  unfold bind, lift. destruct I as [|i I]; [congruence|]. reflexivity.
Qed.

Lemma export_raises_without_complete_witness :
  exists s',
    China.export web_no_complete state0
    = (Raise (AttributeError "'DataFrame' object has no attribute 'date'"),
       s') /\
    fetched (snd (China.read web_no_complete "2022-03-16" state0)) s'
    = [China.source_url_complete] /\
    datafile s' = datafile state0.
Proof.
  apply (export_raises_without_complete web_no_complete state0
           (snd (China.read web_no_complete "2022-03-16" state0))
           [row_u1] (mkPage None [(u "other", "x")])).
  - vm_compute. reflexivity.
  - discriminate.
  - reflexivity.
  - vm_compute. reflexivity.
Defined.

(** X11: a run on a data file without rows.  [.date.max()] is then NaN,
    and comparing the date of the first bulletin with it raises
    [TypeError]: when the listing has a first bulletin and it is parsed,
    [export] ends in that error after the index page and that bulletin,
    whatever the date of the bulletin; the press conferences are not
    looked at, nothing is written, and the one session is closed. *)
Theorem export_without_history :
  forall (w : web) (index : page) (l : string) (rest : list string)
         (r : Row) (s : state),
    datafile s = [] ->
    w China.source_url = Some index ->
    map snd (anchors index) = l :: rest ->
    yields w l r ->
    exists s',
      China.export w s = (Raise not_supported, s') /\
      fetched s s' = [China.source_url; l] /\
      acquired s' = S (acquired s) /\ released s' = S (released s) /\
      datafile s' = [].
Proof.
  intros w index l rest r s Hfile Hw Hlinks Hy.
  destruct (read_without_history w index l rest r s Hw Hlinks Hy)
    as (s' & Hrun & Hf & Ha & Hr & Hd).
  exists s'. split.
  - apply export_after_read_raises. now rewrite Hfile.
  - rewrite Hd, Hfile. now repeat split.
Qed.

(** The first run on the small web: the bulletin of 17 March is fetched
    and parsed, and the run ends. *)
Lemma export_without_history_witness :
  exists s',
    China.export web0 state_new = (Raise not_supported, s') /\
    fetched state_new s' = [China.source_url; "u1"] /\
    acquired s' = S (acquired state_new) /\
    released s' = S (released state_new) /\
    datafile s' = [].
Proof.
  apply (export_without_history web0 incremental_index "u1" ["u2"; "u3"]
           row_u1 state_new).
  - reflexivity.
  - reflexivity.
  - reflexivity.
  - apply (yields_at web0 _ _ state0). vm_compute. reflexivity.
Defined.

(** ** The exceptions of the parsers *)

Section Exceptions.

Import PyFloat.

Lemma iter_pos_keeps {A} (P : A -> Prop) (f : A -> A) :
  (forall x, P x -> P (f x)) ->
  forall (p : positive) (x : A), P x -> P (iter_pos f p x).
Proof.
  intros Hf. induction p as [p IH|p IH|]; intros x Hx; simpl; auto.
Qed.

Lemma shr_1_nonneg (mrs : shr_record) : 0 <= shr_m mrs -> 0 <= shr_m (shr_1 mrs).
Proof.
  destruct mrs as [m r s]. simpl.
  destruct m as [|[p|p|]|[p|p|]]; simpl; lia.
Qed.

Lemma shr_fexp_nonneg (m e : Z) (l : SpecFloat.location) :
  0 <= m -> 0 <= shr_m (fst (shr_fexp prec emax m e l)).
Proof.
  intros Hm. unfold shr_fexp, shr.
  assert (H0 : 0 <= shr_m (shr_record_of_loc m l))
    by (destruct l as [|[]]; exact Hm).
  destruct (fexp prec emax (Zdigits2 m + e) - e) as [|p|p]; simpl; auto.
  now apply iter_pos_keeps; [apply shr_1_nonneg|].
Qed.

(** Rounding a mantissa that is not negative gives a number. *)
Lemma binary_round_aux_number (sx : bool) (mx ex : Z) (lx : SpecFloat.location) :
  0 <= mx -> binary_round_aux prec emax sx mx ex lx <> S754_nan.
Proof.
  intros Hm. unfold binary_round_aux.
  pose proof (shr_fexp_nonneg mx ex lx Hm) as H1.
  destruct (shr_fexp prec emax mx ex lx) as [mrs e']. simpl in H1.
  assert (H2 : 0 <= round_nearest_even (shr_m mrs) (loc_of_shr_record mrs)).
  { unfold round_nearest_even.
    destruct (loc_of_shr_record mrs) as [|[]]; try lia.
    destruct (Z.even (shr_m mrs)); lia. }
  pose proof (shr_fexp_nonneg _ e' loc_Exact H2) as H3.
  destruct (shr_fexp prec emax _ e' loc_Exact) as [mrs' e'']. simpl in H3.
  destruct (shr_m mrs'); [discriminate| |lia].
  destruct (Z.leb _ _); discriminate.
Qed.

Lemma float_number (p : str) (f : spec_float) :
  float p = Ok f -> f <> S754_nan.
Proof.
  unfold float. destruct (scan p false 0 0 0) as [[[n nd] k]|]; [|discriminate].
  destruct nd; [discriminate|]. intros H. injection H as <-.
  unfold of_ratio. destruct n; try discriminate.
  unfold SFdiv, SFdiv_core_binary.
  destruct (Z.div_eucl _ _) as [q r] eqn:E.
  apply binary_round_aux_number.
  match type of E with
  | Z.div_eucl ?a ?b = _ =>
      assert (Ha : 0 <= a);
      [|pose proof (Z.div_pos a b Ha ltac:(lia)) as Hq;
        unfold Z.div in Hq; rewrite E in Hq; exact Hq]
  end.
  destruct (_ - _) as [|s|s]; try lia. apply Z.shiftl_nonneg. lia.
Qed.

Lemma mul_number (x : spec_float) (m : positive) (e : Z) :
  x <> S754_nan -> mul x (S754_finite false m e) <> S754_nan.
Proof.
  destruct x as [s|s| |s mx ex]; simpl; intros H; try discriminate;
    try congruence.
  apply binary_round_aux_number. lia.
Qed.

Lemma add_number (x y : spec_float) :
  nonneg x -> nonneg y -> x <> S754_nan -> y <> S754_nan ->
  add x y <> S754_nan.
Proof.
  destruct x as [sx|sx| |sx mx ex], y as [sy|sy| |sy my ey]; simpl nonneg;
    intros Hx Hy Nx Ny; subst; try congruence; try discriminate.
  unfold add, SFadd, cond_Zopp.
  destruct (shl_align mx ex _) as [m1 e1], (shl_align my ey _) as [m2 e2].
  cbn [fst]. change (Z.pos m1 + Z.pos m2) with (Z.pos (m1 + m2)).
  unfold binary_normalize, binary_round.
  destruct (shl_align _ _ _) as [mz ez].
  apply binary_round_aux_number. lia.
Qed.

(** The combination raises when a group is no number, or when the sum is
    beyond the floats; it raises nothing else. *)
Lemma estimate_metric_raises (p1 p2 : str) (e : exn) :
  China._estimate_metric p1 p2 = Raise e ->
  e = ValueError "could not convert string to float" \/
  e = OverflowError "cannot convert float infinity to integer".
Proof.
  unfold China._estimate_metric.
  destruct (float p1) as [f1|e1] eqn:E1.
  2:{ intros H. injection H as <-. left. unfold float in E1.
      destruct (scan p1 false 0 0 0) as [[[n [|nd]] k]|];
        try discriminate; now injection E1 as <-. }
  destruct (float p2) as [f2|e2] eqn:E2.
  2:{ intros H. injection H as <-. left. unfold float in E2.
      destruct (scan p2 false 0 0 0) as [[[n [|nd]] k]|];
        try discriminate; now injection E2 as <-. }
  cbn [rbind].
  change (of_Z 100000000) with (S754_finite false 6710886400000000 (-26)).
  change (of_Z 10000) with (S754_finite false 5497558138880000 (-39)).
  pose proof (add_number _ _
                (mul_nonneg f1 6710886400000000 (-26) (float_nonneg _ _ E1))
                (mul_nonneg f2 5497558138880000 (-39) (float_nonneg _ _ E2))
                (mul_number f1 6710886400000000 (-26) (float_number _ _ E1))
                (mul_number f2 5497558138880000 (-39) (float_number _ _ E2)))
    as Hn.
  destruct (add _ _) as [s|s| |s m ex]; simpl; try discriminate.
  - intros H. injection H as <-. now right.
  - congruence.
Qed.

End Exceptions.

Section Taxonomy.

Local Open Scope list_scope.

Lemma groups2_raises (p : Re.regex) (text : str) (e : exn) :
  Re.groups p = 2%nat ->
  China.search_groups2 p text = Raise e -> e = China.none_has_no "groups".
Proof.
  intros Hp. unfold China.search_groups2.
  destruct (search_two p text Hp) as [->|(a & b & ->)]; intros H;
    [now injection H as <-|discriminate].
Qed.

Lemma groups4_raises (p : Re.regex) (text : str) (e : exn) :
  Re.groups p = 4%nat ->
  China.search_groups4 p text = Raise e -> e = China.none_has_no "groups".
Proof.
  intros Hp. unfold China.search_groups4.
  destruct (search_four p text Hp) as [->|(a & b & c & d & ->)]; intros H;
    [now injection H as <-|discriminate].
Qed.

Lemma group1_raises (p : Re.regex) (text : str) (e : exn) :
  Re.groups p = 1%nat ->
  China.search_group1 p text = Raise e -> e = China.none_has_no "group".
Proof.
  intros Hp. unfold China.search_group1.
  destruct (Re.search p text) as [g|] eqn:E.
  - apply search_groups in E. rewrite Hp in E.
    destruct g; [discriminate|]. discriminate.
  - intros H. now injection H as <-.
Qed.

Lemma clean_date_raises (text : str) (fmt : string) (e : exn) :
  Clean.clean_date text fmt = Raise e -> e = ParseError "date" None.
Proof.
  unfold Clean.clean_date.
  destruct (Clean.strptime fmt text 1900 1 1) as [[[y m] d]|];
    [destruct (Clean.valid_date y m d)|]; intros H; try discriminate;
    now injection H as <-.
Qed.

Lemma get_Raise (w : web) (url : string) (s s' : state) (e : exn) :
  Driver.get w url s = (Raise e, s') ->
  e = TimeoutException url /\ w url = None.
Proof.
  unfold Driver.get. destruct (w url); [discriminate|].
  intros H. now injection H as <- _.
Qed.

Lemma find_element_Raise (s s' : state) (e : exn) :
  Driver.find_element_by_id "xw_box" s = (Raise e, s') ->
  e = NoSuchElementException "xw_box".
Proof.
  unfold Driver.find_element_by_id. simpl.
  destruct (current s) as [p|]; [destruct (xw_box p)|];
    intros H; try discriminate; now injection H as <- _.
Qed.

Lemma lift_Raise {A} (r : res A) (s s' : state) (e : exn) :
  lift r s = (Raise e, s') -> r = Raise e.
Proof. intros H. now apply lift_inv in H as [<- _]. Qed.

End Taxonomy.

(** X12: the exceptions of [_parse_data_complete] are these and no other:
    the time-out of the page; the missing element [xw_box]; the
    [AttributeError] of reading the groups of a pattern that did not match;
    the [ValueError] of a group that is no number; the [OverflowError] of a
    sum beyond the floats; and the error of a month and a day that are no
    date.  Unpacking the groups never fails, and whatever is raised, the
    page was fetched and nothing else was. *)
Theorem parse_data_complete_exceptions :
  forall (w : web) (url : string) (s s' : state) (e : exn),
    China._parse_data_complete w url s = (Raise e, s') ->
    (e = TimeoutException url \/
     e = NoSuchElementException "xw_box" \/
     e = China.none_has_no "groups" \/
     e = ValueError "could not convert string to float" \/
     e = OverflowError "cannot convert float infinity to integer" \/
     e = ParseError "date" None) /\
    fetched s s' = [url].
Proof.
  intros w url s s' e H. split.
  2:{ apply parse_data_complete_fetches in H as [Hv _].
      now apply fetched_app. }
  unfold China._parse_data_complete in H.
  apply bind_Raise in H as [H|([] & s1 & _ & H)].
  { apply get_Raise in H as [-> _]. now left. }
  apply bind_Raise in H as [H|(text & s2 & _ & H)].
  { apply find_element_Raise in H as ->. right; now left. }
  apply bind_Raise in H as [H|([[[month day] t1] t2] & s3 & _ & H)].
  { apply lift_Raise, groups4_raises in H as ->; [|reflexivity].
    right; right; now left. }
  apply bind_Raise in H as [H|([p1 p2] & s4 & _ & H)].
  { apply lift_Raise, groups2_raises in H as ->; [|reflexivity].
    right; right; now left. }
  apply bind_Raise in H as [H|([f1 f2] & s5 & _ & H)].
  { apply lift_Raise, groups2_raises in H as ->; [|reflexivity].
    right; right; now left. }
  apply bind_Raise in H as [H|([b1 b2] & s6 & _ & H)].
  { apply lift_Raise, groups2_raises in H as ->; [|reflexivity].
    right; right; now left. }
  assert (Hest : forall a b t, lift (China._estimate_metric a b) t = (Raise e, s') ->
            e = ValueError "could not convert string to float" \/
            e = OverflowError "cannot convert float infinity to integer").
  { intros a b t Ht. apply lift_Raise in Ht.
    now apply estimate_metric_raises in Ht. }
  apply bind_Raise in H as [H|(tv & s7 & _ & H)].
  { apply Hest in H. tauto. }
  apply bind_Raise in H as [H|(pv & s8 & _ & H)].
  { apply Hest in H. tauto. }
  apply bind_Raise in H as [H|(pf & s9 & _ & H)].
  { apply Hest in H. tauto. }
  apply bind_Raise in H as [H|(tb & s10 & _ & H)].
  { apply Hest in H. tauto. }
  apply bind_Raise in H as [H|(d & s11 & _ & H)].
  { apply lift_Raise, clean_date_raises in H as ->. tauto. }
  discriminate H.
Qed.

Lemma parse_data_complete_exceptions_witness :
  (China.none_has_no "groups" = TimeoutException "c1" \/
   China.none_has_no "groups" = NoSuchElementException "xw_box" \/
   China.none_has_no "groups" = China.none_has_no "groups" \/
   China.none_has_no "groups"
   = ValueError "could not convert string to float" \/
   China.none_has_no "groups"
   = OverflowError "cannot convert float infinity to integer" \/
   China.none_has_no "groups" = ParseError "date" None) /\
  fetched state0 (snd (China._parse_data_complete web1 "c1" state0)) = ["c1"].
Proof.
  apply (parse_data_complete_exceptions web1 "c1" state0).
  vm_compute. reflexivity.
Defined.

(** ** What the patterns capture *)

Section Captures.

Local Open Scope list_scope.
Local Open Scope nat_scope.

Lemma body_lang_app (ts1 ts2 : list Re.tok) :
  forall g1 g2,
    body_lang ts1 g1 -> body_lang ts2 g2 ->
    body_lang (ts1 ++ ts2) (g1 ++ g2).
Proof.
  induction ts1 as [|t ts1 IH]; intros g1 g2 H1 H2; simpl in *.
  - now subst g1.
  - destruct t as [l|c lo hi| |]; try contradiction.
    + destruct H1 as (g' & -> & H1). exists (g' ++ g2).
      split; [symmetry; apply app_assoc|]. now apply IH.
    + destruct H1 as (r & g' & -> & Hc & Hlo & Hhi & H1).
      exists r, (g' ++ g2).
      split; [symmetry; apply app_assoc|]. repeat split; auto.
Qed.

Lemma grow_grow (cur : option str) (a b : str) :
  Re.grow (Re.grow cur a) b = Re.grow cur (a ++ b).
Proof. destruct cur; simpl; [now rewrite <- app_assoc|reflexivity]. Qed.

Lemma grow_nil (cur : option str) : Re.grow cur [] = cur.
Proof. destruct cur; simpl; [now rewrite app_nil_r|reflexivity]. Qed.

(** A repetition consumes characters of its class, as many as its bounds
    allow, and hands the rest to what follows. *)
Lemma repeat_cls_consumes
  (k : str -> option str -> option (list str))
  (c : Re.cls) (lo : nat) (hi : option nat) :
  forall (s : str) (n : nat) (cur : option str) (gs : list str),
    within hi n ->
    Re.repeat_cls k c lo hi s n cur = Some gs ->
    exists r s',
      all_chars (Re.in_cls c) r = true /\
      lo <= n + length r /\ within hi (n + length r) /\
      k s' (Re.grow cur r) = Some gs.
Proof.
  assert (Hstop : forall s n cur gs,
            within hi n ->
            (if lo <=? n then k s cur else None) = Some gs ->
            exists r s',
              all_chars (Re.in_cls c) r = true /\
              lo <= n + length r /\ within hi (n + length r) /\
              k s' (Re.grow cur r) = Some gs).
  { intros s n cur gs Hn H. destruct (lo <=? n) eqn:E; [|discriminate].
    apply Nat.leb_le in E. exists [], s. simpl.
    rewrite Nat.add_0_r, grow_nil. auto. }
  induction s as [|a s IH]; intros n cur gs Hn H; simpl in H.
  - eapply Hstop; eassumption.
  - destruct (Re.in_cls c a && Re.below n hi) eqn:E;
      [|eapply Hstop; eassumption].
    destruct (Re.repeat_cls k c lo hi s (S n) _) as [g|] eqn:Er;
      [|eapply Hstop; eassumption].
    injection H as <-. apply andb_true_iff in E as [Ea Eb].
    apply IH in Er as (r & s' & Hr & Hlo & Hhi & Hk).
    + exists (a :: r), s'. simpl. rewrite Ea, Hr.
      rewrite Nat.add_succ_r. rewrite grow_grow in Hk. simpl in Hk. auto.
    + unfold Re.below in Eb. destruct hi as [h|]; simpl; [|exact I].
      apply Nat.ltb_lt in Eb. lia.
Qed.

Lemma match_here_bodies (p : Re.regex) :
  forall (s : str) (done : list str) (cur : option str)
         (pend : option (list Re.tok)) (gs : list str),
    gathered cur pend ->
    Re.match_here p s done cur = Some gs ->
    exists new, gs = done ++ new /\ Forall2 body_lang (bodies p pend) new.
Proof.
  induction p as [|t p IH]; intros s done cur pend gs Hg H; simpl in H.
  - injection H as <-. exists []. rewrite app_nil_r. split; [reflexivity|].
    constructor.
  - destruct t as [l|c lo hi| |]; cbn [bodies].
    + destruct (Re.strip_prefix l s) as [s'|]; [|discriminate].
      apply (IH s' done (Re.grow cur l) (option_map (cons (Re.Lit l)) pend));
        [|exact H].
      destruct cur as [g|], pend as [b|]; simpl in *; try contradiction; auto.
      apply body_lang_app; [exact Hg|]. simpl. exists [].
      now rewrite app_nil_r.
    + apply repeat_cls_consumes in H as (r & s' & Hr & Hlo & Hhi & H);
        [|destruct hi; simpl; [lia|exact I]].
      apply (IH s' done (Re.grow cur r)
               (option_map (cons (Re.Rep c lo hi)) pend)); [|exact H].
      destruct cur as [g|], pend as [b|]; simpl in *; try contradiction; auto.
      apply body_lang_app; [exact Hg|]. simpl. exists r, [].
      rewrite app_nil_r. auto.
    + apply (IH s done (Some []) (Some [])); [|exact H].
      simpl. reflexivity.
    + apply (IH s (done ++ [Re.close cur]) None None gs I) in H
        as (new & -> & Hnew).
      exists (Re.close cur :: new). rewrite <- app_assoc.
      split; [reflexivity|]. constructor; [|exact Hnew].
      destruct cur as [g|], pend as [b|]; simpl in *; try contradiction; auto.
Qed.

(** The groups of a match are, in order, texts matched by the insides
    of the groups of the pattern. *)
Lemma search_bodies (p : Re.regex) (s : str) (gs : list str) :
  Re.search p s = Some gs -> Forall2 body_lang (bodies p None) gs.
Proof.
  induction s as [|a s IH]; simpl.
  - destruct (Re.match_here p [] [] None) eqn:E; [|discriminate].
    intros H. injection H as <-.
    apply (match_here_bodies p _ _ None None _ I) in E as (new & -> & Hn).
    exact Hn.
  - destruct (Re.match_here p (a :: s) [] None) eqn:E; [|exact IH].
    intros H. injection H as <-.
    apply (match_here_bodies p _ _ None None _ I) in E as (new & -> & Hn).
    exact Hn.
Qed.

Lemma body_d12 (g : str) : body_lang [China.d12] g -> digits12 g = true.
Proof.
  simpl. intros (r & g' & -> & Hc & Hlo & Hhi & ->).
  change (all_chars Unicode.isdecimal r = true) in Hc.
  rewrite app_nil_r. unfold digits12.
  now rewrite Hc, (proj2 (Nat.leb_le _ _) Hlo), (proj2 (Nat.leb_le _ _) Hhi).
Qed.

Lemma body_number (g : str) :
  body_lang [China.number] g -> numeral g = true.
Proof.
  simpl. intros (r & g' & -> & Hc & Hlo & _ & ->).
  rewrite app_nil_r. unfold numeral.
  now rewrite Hc, (proj2 (Nat.leb_le _ _) Hlo).
Qed.

Lemma all_chars_two (P : N -> bool) (r : str) :
  all_chars P r = true -> 2 <= length r -> length r <= 2 ->
  exists a b, r = [a; b] /\ P a = true /\ P b = true.
Proof.
  destruct r as [|a [|b [|c r]]]; simpl; intros H H1 H2; try lia.
  apply andb_true_iff in H as [Ha H]. apply andb_true_iff in H as [Hb _].
  now exists a, b.
Qed.

Lemma body_year (g : str) :
  body_lang [Re.Lit (u "20"); Re.Rep Re.Digit 2 (Some 2)] g ->
  year20 g = true.
Proof.
  simpl. intros (g1 & -> & r & g' & -> & Hc & Hlo & Hhi & ->).
  rewrite app_nil_r.
  destruct (all_chars_two _ r Hc Hlo Hhi) as (a & b & -> & Ha & Hb).
  simpl in *. now rewrite Ha, Hb.
Qed.

Lemma all_chars_one (P : N -> bool) (r : str) :
  all_chars P r = true -> 1 <= length r -> length r <= 1 ->
  exists a, r = [a] /\ P a = true.
Proof.
  destruct r as [|a [|b r]]; simpl; intros H H1 H2; try lia.
  apply andb_true_iff in H as [Ha _]. now exists a.
Qed.

Lemma body_title_year (g : str) :
  body_lang [Re.Lit (u "20"); Re.Rep Re.Digit 1 (Some 1);
             Re.Rep Re.Digit 1 (Some 1)] g ->
  year20 g = true.
Proof.
  simpl. intros (g1 & -> & r1 & g2 & -> & Hc1 & Hlo1 & Hhi1
                 & r2 & g3 & -> & Hc2 & Hlo2 & Hhi2 & ->).
  rewrite app_nil_r.
  destruct (all_chars_one _ r1 Hc1 Hlo1 Hhi1) as (a & -> & Ha).
  destruct (all_chars_one _ r2 Hc2 Hlo2 Hhi2) as (b & -> & Hb).
  simpl in *. now rewrite Ha, Hb.
Qed.

End Captures.

(** X13: what the patterns of the source hand on.  In any text, the month
    and the day captured by the [doses] pattern are texts of one or two
    decimal digits, of any script, and each numeral group of the four
    count patterns is a text of at least one character, each a decimal
    digit or a dot.  The year captured by the [date] and [title] patterns
    is [20] and two decimal digits, their month and day one or two decimal
    digits.  The group of the incremental count pattern is such a numeral,
    then white space, then the magnitude word. *)
Theorem captured_groups_shape :
  forall text : str,
    (forall m d a b,
       Re.search China.regex_doses text = Some [m; d; a; b] ->
       digits12 m = true /\ digits12 d = true /\
       numeral a = true /\ numeral b = true) /\
    (forall p a b,
       In p [China.regex_people; China.regex_fully; China.regex_boosters] ->
       Re.search p text = Some [a; b] ->
       numeral a = true /\ numeral b = true) /\
    (forall p y m d,
       In p [China.regex_date; China.regex_title] ->
       Re.search p text = Some [y; m; d] ->
       year20 y = true /\ digits12 m = true /\ digits12 d = true) /\
    (forall g,
       Re.search China.regex_total_vaccinations text = Some [g] ->
       exists n sp,
         g = (n ++ sp ++ u "万")%list /\ numeral n = true /\
         all_chars Unicode.isspace sp = true).
Proof.
  intros text. split; [|split; [|split]].
  - intros m d a b H. apply search_bodies in H. cbn in H.
    inversion H as [|? ? ? ? Hm H1]; subst; clear H.
    inversion H1 as [|? ? ? ? Hd H2]; subst; clear H1.
    inversion H2 as [|? ? ? ? Ha H3]; subst; clear H2.
    inversion H3 as [|? ? ? ? Hb _]; subst; clear H3.
    repeat split;
      first [now apply body_d12 | now apply body_number].
  - intros p a b Hp H. apply search_bodies in H.
    assert (Hb : bodies p None = [[China.number]; [China.number]]).
    { destruct Hp as [<-|[<-|[<-|[]]]]; reflexivity. }
    rewrite Hb in H.
    inversion H as [|? ? ? ? Ha H1]; subst; clear H.
    inversion H1 as [|? ? ? ? Hb' _]; subst; clear H1.
    split; now apply body_number.
  - intros p y m d Hp H. apply search_bodies in H.
    destruct Hp as [<-|[<-|[]]]; cbn [bodies China.regex_date
      China.regex_title option_map rev app] in H;
      inversion H as [|? ? ? ? Hy H1]; subst; clear H;
      inversion H1 as [|? ? ? ? Hm H2]; subst; clear H1;
      inversion H2 as [|? ? ? ? Hd _]; subst; clear H2;
      (split; [|split; now apply body_d12]).
    + now apply body_year.
    + now apply body_title_year.
  - intros g H. apply search_bodies in H.
    cbn [bodies China.regex_total_vaccinations option_map rev app] in H.
    inversion H as [|? ? ? ? Hg _]; subst; clear H.
    destruct Hg as (n & g1 & -> & Hn & Hlo & _ & sp & g2 & -> & Hsp & _ & _
                    & g3 & -> & ->).
    exists n, sp. split; [now rewrite app_nil_r|].
    split; [|exact Hsp]. unfold numeral.
    change (all_chars (Re.in_cls Re.DigitDot) n = true) in Hn.
    now rewrite Hn, (proj2 (Nat.leb_le _ _) Hlo).
Qed.

(** A press conference that writes the day in full-width digits. *)
Lemma captured_groups_shape_witness :
  digits12 (u "３") = true /\ digits12 (u "１７") = true /\
  numeral (u "32") = true /\ numeral (u "1456.7") = true.
Proof.
  apply (proj1 (captured_groups_shape
                  (u "截至３月１７日，全国累计报告接种新冠疫苗32亿1456.7万剂次"))).
  vm_compute. reflexivity.
Defined.

(** ** Numerals that are no numbers *)

Section Numerals.

Local Open Scope nat_scope.

Import PyFloat.

Lemma isdecimal_Some (a : N) (v : Z) :
  Unicode.todecimal a = Some v -> Unicode.isdecimal a = true.
Proof. unfold Unicode.isdecimal. now intros ->. Qed.

Lemma isdecimal_None (a : N) :
  Unicode.todecimal a = None -> Unicode.isdecimal a = false.
Proof. unfold Unicode.isdecimal. now intros ->. Qed.

Lemma digit_not_dot (a : N) :
  Unicode.isdecimal a = true -> (a =? Unicode.dot)%N = false.
Proof.
  intros H. destruct (N.eqb_spec a Unicode.dot) as [->|]; [|reflexivity].
  vm_compute in H. discriminate H.
Qed.

Lemma scan_numeral (s : str) :
  all_chars (Re.in_cls Re.DigitDot) s = true ->
  forall (dot : bool) (n : Z) (nd k : nat),
    if (if dot then 1 else 0)
       + count_chars (fun a => (a =? Unicode.dot)%N) s <=? 1
    then exists n' k',
           scan s dot n nd k
           = Some (n', nd + count_chars Unicode.isdecimal s, k')
    else scan s dot n nd k = None.
Proof.
  induction s as [|a s IH]; intros Hs dot n nd k.
  - simpl. destruct dot; simpl; rewrite Nat.add_0_r; now eexists _, _.
  - unfold all_chars in Hs. cbn [forallb] in Hs.
    apply andb_true_iff in Hs as [Ha Hs].
    cbn [scan count_chars]. destruct (Unicode.todecimal a) as [v|] eqn:Ed.
    + rewrite (isdecimal_Some a v Ed).
      rewrite (digit_not_dot a (isdecimal_Some a v Ed)). cbn [Nat.add].
      specialize (IH Hs dot (10 * n + v)%Z (S nd) (if dot then S k else k)).
      destruct (_ <=? 1); [|exact IH].
      destruct IH as (n' & k' & ->). exists n', k'.
      now rewrite Nat.add_succ_r.
    + rewrite (isdecimal_None a Ed).
      unfold Re.in_cls in Ha. rewrite (isdecimal_None a Ed) in Ha.
      cbn [orb] in Ha. rewrite Ha.
      destruct dot.
      * destruct (_ <=? 1) eqn:E; [|reflexivity].
        apply Nat.leb_le in E. lia.
      * specialize (IH Hs true n nd k). cbn [Nat.add] in *. exact IH.
Qed.

(** [float] reads a numeral exactly when it has one dot at most and a
    digit. *)
Lemma float_numeral (g : str) :
  numeral g = true ->
  if one_number g then exists f, float g = Ok f
  else float g = Raise (ValueError "could not convert string to float").
Proof.
  unfold numeral. intros H. apply andb_true_iff in H as [Hs _].
  pose proof (scan_numeral g Hs false 0%Z 0 0) as Hscan.
  unfold one_number, float. cbn [Nat.add] in Hscan.
  destruct (count_chars (fun a => (a =? Unicode.dot)%N) g <=? 1).
  - destruct Hscan as (n' & k' & ->). cbn [andb].
    destruct (count_chars Unicode.isdecimal g) as [|d]; simpl;
      [reflexivity|].
    now eexists.
  - now rewrite Hscan.
Qed.

End Numerals.

(** X14: the count patterns accept numerals that are no numbers.  For two
    groups such as the patterns capture (decimal digits of any script and
    dots), the combination
    raises the [ValueError] of [float] exactly when one of them has more
    than one dot or no digit; otherwise it returns an integer, or raises
    the [OverflowError] of a sum beyond the floats. *)
Theorem estimate_metric_value_error :
  forall g1 g2 : str,
    numeral g1 = true -> numeral g2 = true ->
    (one_number g1 && one_number g2 = false <->
     China._estimate_metric g1 g2
     = Raise (ValueError "could not convert string to float")) /\
    (one_number g1 && one_number g2 = true ->
     (exists n, China._estimate_metric g1 g2 = Ok n) \/
     China._estimate_metric g1 g2
     = Raise (OverflowError "cannot convert float infinity to integer")).
Proof.
  intros g1 g2 H1 H2.
  pose proof (float_numeral g1 H1) as F1.
  pose proof (float_numeral g2 H2) as F2.
  assert (Hok : one_number g1 && one_number g2 = true ->
            (exists n, China._estimate_metric g1 g2 = Ok n) \/
            China._estimate_metric g1 g2
            = Raise (OverflowError "cannot convert float infinity to integer")).
  { intros Hb. apply andb_true_iff in Hb as [B1 B2].
    rewrite B1 in F1. rewrite B2 in F2.
    destruct F1 as [f1 F1], F2 as [f2 F2].
    destruct (China._estimate_metric g1 g2) as [n|e] eqn:E;
      [left; now exists n|right].
    destruct (estimate_metric_raises g1 g2 e E) as [He|He]; subst e;
      [|reflexivity].
    unfold China._estimate_metric in E. rewrite F1, F2 in E. cbn [rbind] in E.
    destruct (PyFloat.add _ _); discriminate E. }
  split; [|exact Hok]. split.
  - intros Hb. unfold China._estimate_metric.
    destruct (one_number g1).
    + destruct F1 as [f1 ->]. cbn [rbind]. simpl in Hb. rewrite Hb in F2.
      now rewrite F2.
    + now rewrite F1.
  - intros E. destruct (one_number g1 && one_number g2) eqn:Hb;
      [|reflexivity].
    destruct (Hok eq_refl) as [[n Hn]|Ho]; congruence.
Qed.

(** [1.2.3] is a numeral for the pattern and no number for [float]. *)
Lemma estimate_metric_value_error_witness :
  (one_number (u "1.2.3") && one_number (u "1456.7") = false <->
   China._estimate_metric (u "1.2.3") (u "1456.7")
   = Raise (ValueError "could not convert string to float")) /\
  (one_number (u "1.2.3") && one_number (u "1456.7") = true ->
   (exists n, China._estimate_metric (u "1.2.3") (u "1456.7") = Ok n) \/
   China._estimate_metric (u "1.2.3") (u "1456.7")
   = Raise (OverflowError "cannot convert float infinity to integer")).
Proof.
  apply (estimate_metric_value_error (u "1.2.3") (u "1456.7")); reflexivity.
Defined.

(** ** Whole numbers are combined without error *)

Section Exact.

Import PyFloat.

Lemma size_digits (m : positive) : digits2_pos m = Pos.size m.
Proof. induction m as [m IH|m IH|]; simpl; congruence. Qed.

Lemma digits_log2 (m : positive) :
  Z.pos (digits2_pos m) = Z.log2 (Z.pos m) + 1.
Proof.
  destruct m as [m|m|]; simpl; rewrite ?size_digits; lia.
Qed.

Lemma shr_1_even (m : Z) :
  0 <= m -> (2 | m) ->
  shr_1 (Build_shr_record m false false)
  = Build_shr_record (m / 2) false false.
Proof.
  intros Hm [q Hq]. subst m. rewrite Z.div_mul by lia.
  destruct q as [|q|q]; simpl; try reflexivity; try lia.
  - now replace (q * 2)%positive with (q~0)%positive by lia.
Qed.

Lemma iter_shr_exact (p : positive) :
  forall m : Z,
    0 <= m -> (2 ^ Z.pos p | m) ->
    iter_pos shr_1 p (Build_shr_record m false false)
    = Build_shr_record (m / 2 ^ Z.pos p) false false.
Proof.
  assert (Hdiv : forall m a b, 0 <= a -> 0 <= b -> (2 ^ (a + b) | m) ->
            (2 ^ a | m) /\ (2 ^ b | m / 2 ^ a) /\
            m / 2 ^ a / 2 ^ b = m / 2 ^ (a + b)).
  { intros m a b Ha Hb [q Hq]. subst m. rewrite Z.pow_add_r by lia.
    assert (0 < 2 ^ a) by (apply Z.pow_pos_nonneg; lia).
    assert (0 < 2 ^ b) by (apply Z.pow_pos_nonneg; lia).
    replace (q * (2 ^ a * 2 ^ b)) with (q * 2 ^ b * 2 ^ a) by ring.
    rewrite Z.div_mul by lia. split; [now exists (q * 2 ^ b)|].
    split; [now exists q|]. rewrite Z.div_mul by lia.
    replace (q * 2 ^ b * 2 ^ a) with (q * (2 ^ a * 2 ^ b)) by ring.
    rewrite Z.div_mul by lia. reflexivity. }
  induction p as [p IH|p IH|]; intros m Hm Hd; cbn [iter_pos].
  - replace (Z.pos p~1) with (1 + (Z.pos p + Z.pos p)) in * by lia.
    destruct (Hdiv m 1 (Z.pos p + Z.pos p)) as (H1 & H2 & H3);
      try lia; try exact Hd.
    change (2 ^ 1) with 2 in *.
    rewrite (shr_1_even m Hm H1).
    assert (Hm2 : 0 <= m / 2) by (apply Z.div_pos; lia).
    destruct (Hdiv (m / 2) (Z.pos p) (Z.pos p)) as (H4 & H5 & H6);
      try lia; try exact H2.
    rewrite (IH (m / 2) Hm2 H4).
    rewrite IH; [|apply Z.div_pos; [lia|apply Z.pow_pos_nonneg; lia]|exact H5].
    now rewrite H6, H3.
  - replace (Z.pos p~0) with (Z.pos p + Z.pos p) in * by lia.
    destruct (Hdiv m (Z.pos p) (Z.pos p)) as (H4 & H5 & H6);
      try lia; try exact Hd.
    rewrite (IH m Hm H4).
    rewrite IH; [|apply Z.div_pos; [lia|apply Z.pow_pos_nonneg; lia]|exact H5].
    now rewrite H6.
  - change (2 ^ 1) with 2 in *. now apply shr_1_even.
Qed.

(** Rounding an integer below [2^53], held with whatever trailing zeros,
    changes nothing of its value. *)
Lemma round_int (N k : Z) :
  0 < N < 2 ^ 53 -> 0 <= k ->
  int_float N (binary_round_aux prec emax false (N * 2 ^ k) (- k) loc_Exact).
Proof.
  intros HN Hk.
  assert (Hl : 0 <= Z.log2 N <= 52).
  { split; [apply Z.log2_nonneg|].
    assert (Z.log2 N < 53) by (apply Z.log2_lt_pow2; lia). lia. }
  assert (Hfexp : forall j, 0 <= j ->
            fexp prec emax (Zdigits2 (N * 2 ^ j) + - j) = Z.log2 N - 52).
  { intros j Hj. assert (0 < 2 ^ j) by (apply Z.pow_pos_nonneg; lia).
    destruct (N * 2 ^ j) as [|m|m] eqn:Em; try nia.
    cbn [Zdigits2]. rewrite digits_log2, <- Em, Z.log2_mul_pow2 by lia.
    unfold fexp, emin, prec, emax. lia. }
  assert (Hfinal : forall j, 0 <= j -> Z.log2 N - 52 - - j <= 0 ->
            shr_fexp prec emax (N * 2 ^ j) (- j) loc_Exact
            = (Build_shr_record (N * 2 ^ j) false false, - j)).
  { intros j Hj Hs. unfold shr_fexp. rewrite (Hfexp j Hj). unfold shr.
    destruct (Z.log2 N - 52 - - j) as [|q|q] eqn:Eq; try lia; reflexivity. }
  unfold binary_round_aux.
  destruct (Z_le_gt_dec (Z.log2 N - 52 - - k) 0) as [Hs|Hs].
  - pose proof (Hfinal k Hk Hs) as Hshr. rewrite Hshr.
    cbn [shr_m loc_of_shr_record round_nearest_even].
    rewrite Hshr. cbn [shr_m].
    assert (0 < 2 ^ k) by (apply Z.pow_pos_nonneg; lia).
    destruct (N * 2 ^ k) as [|m|m] eqn:Em; try nia.
    replace (- k <=? emax - prec) with true
      by (symmetry; apply Z.leb_le; unfold emax, prec; lia).
    right. split; [lia|]. exists m, k. now rewrite Em.
  - set (n := Z.log2 N - 52 - - k) in *.
    assert (Hkn : 0 <= k - n) by (unfold n; lia).
    assert (H2k : 0 < 2 ^ k) by (apply Z.pow_pos_nonneg; lia).
    assert (H2n : 0 < 2 ^ n) by (apply Z.pow_pos_nonneg; lia).
    assert (Hsplit : N * 2 ^ k = N * 2 ^ (k - n) * 2 ^ n).
    { rewrite <- Z.mul_assoc, <- Z.pow_add_r by lia. do 2 f_equal. lia. }
    unfold shr_fexp at 1. rewrite (Hfexp k Hk). fold n. unfold shr.
    destruct n as [|p|p] eqn:En; try lia.
    cbn [shr_record_of_loc].
    rewrite iter_shr_exact; [|nia|exists (N * 2 ^ (k - Z.pos p)); exact Hsplit].
    rewrite Hsplit, Z.div_mul by lia.
    cbn [shr_m loc_of_shr_record round_nearest_even].
    replace (- k + Z.pos p) with (- (k - Z.pos p)) by lia.
    assert (Hshr : shr_fexp prec emax (N * 2 ^ (k - Z.pos p))
                     (- (k - Z.pos p)) loc_Exact
                   = (Build_shr_record (N * 2 ^ (k - Z.pos p)) false false,
                      - (k - Z.pos p))).
    { apply Hfinal; [exact Hkn|]. rewrite <- En. unfold n. lia. }
    rewrite Hshr. cbn [shr_m].
    assert (0 < 2 ^ (k - Z.pos p)) by (apply Z.pow_pos_nonneg; lia).
    destruct (N * 2 ^ (k - Z.pos p)) as [|m|m] eqn:Em; try nia.
    replace (- (k - Z.pos p) <=? emax - prec) with true
      by (symmetry; apply Z.leb_le; unfold emax, prec; lia).
    right. split; [lia|]. exists m, (k - Z.pos p). now rewrite Em.
Qed.

Lemma mul_int (N1 N2 : Z) (x y : spec_float) :
  int_float N1 x -> int_float N2 y -> 0 < N2 -> N1 * N2 < 2 ^ 53 ->
  int_float (N1 * N2) (mul x y).
Proof.
  intros [[-> ->]|(H1 & m1 & k1 & Hk1 & E1 & ->)] Hy H2 Hlt;
    destruct Hy as [[-> _]|(_ & m2 & k2 & Hk2 & E2 & ->)]; try lia.
  - left. split; reflexivity.
  - unfold mul, SFmul. cbn [xorb].
    replace (Z.pos (m1 * m2)) with (N1 * N2 * 2 ^ (k1 + k2))
      by (rewrite Pos2Z.inj_mul, E1, E2, Z.pow_add_r by lia; ring).
    replace (- k1 + - k2) with (- (k1 + k2)) by lia.
    apply round_int; [nia|lia].
Qed.

Lemma pos_iter_xO (m d : positive) :
  Z.pos (Pos.iter xO m d) = Z.pos m * 2 ^ Z.pos d.
Proof.
  induction d as [|d IH] using Pos.peano_ind.
  - simpl. lia.
  - rewrite Pos.iter_succ, Pos2Z.inj_succ, Z.pow_succ_r by lia.
    rewrite Pos2Z.inj_xO, IH. ring.
Qed.

Lemma shl_align_value (m : positive) (e e' : Z) :
  e' <= e ->
  Z.pos (fst (shl_align m e e')) = Z.pos m * 2 ^ (e - e') /\
  snd (shl_align m e e') = e'.
Proof.
  intros Hle. unfold shl_align.
  destruct (e' - e) as [|d|d] eqn:Ed; try lia; cbn [fst snd].
  - replace (e - e') with 0 by lia. split; lia.
  - rewrite pos_iter_xO. replace (e - e') with (Z.pos d) by lia. now split.
Qed.

Lemma add_int (N1 N2 : Z) (x y : spec_float) :
  int_float N1 x -> int_float N2 y -> N1 + N2 < 2 ^ 53 ->
  int_float (N1 + N2) (add x y).
Proof.
  intros [[-> ->]|(H1 & m1 & k1 & Hk1 & E1 & ->)]
         [[-> ->]|(H2 & m2 & k2 & Hk2 & E2 & ->)] Hlt.
  - left. split; reflexivity.
  - right. split; [lia|]. now exists m2, k2.
  - rewrite Z.add_0_r. right. split; [lia|]. now exists m1, k1.
  - unfold add, SFadd. cbn [cond_Zopp].
    set (ez := Z.min (- k1) (- k2)).
    destruct (shl_align_value m1 (- k1) ez ltac:(unfold ez; lia)) as [V1 _].
    destruct (shl_align_value m2 (- k2) ez ltac:(unfold ez; lia)) as [V2 _].
    rewrite V1, V2, E1, E2.
    assert (Hsum : N1 * 2 ^ k1 * 2 ^ (- k1 - ez) + N2 * 2 ^ k2 * 2 ^ (- k2 - ez)
                   = (N1 + N2) * 2 ^ (- ez)).
    { rewrite <- !Z.mul_assoc, <- !Z.pow_add_r by (unfold ez; lia).
      replace (k1 + (- k1 - ez)) with (- ez) by lia.
      replace (k2 + (- k2 - ez)) with (- ez) by lia. ring. }
    rewrite Hsum. set (N := N1 + N2) in *.
    assert (HK : 0 <= - ez) by (unfold ez; lia).
    assert (H2K : 0 < 2 ^ (- ez)) by (apply Z.pow_pos_nonneg; lia).
    destruct (N * 2 ^ (- ez)) as [|m|m] eqn:Em; try nia.
    unfold binary_normalize, binary_round.
    assert (Hl : 0 <= Z.log2 N <= 52).
    { split; [apply Z.log2_nonneg|].
      assert (Z.log2 N < 53) by (apply Z.log2_lt_pow2; lia). lia. }
    assert (Hf : fexp prec emax (Z.pos (digits2_pos m) + ez) = Z.log2 N - 52).
    { rewrite digits_log2, <- Em, Z.log2_mul_pow2 by lia.
      unfold fexp, emin, prec, emax. lia. }
    rewrite Hf.
    destruct (Z_le_gt_dec ez (Z.log2 N - 52)) as [Hc|Hc].
    + unfold shl_align.
      destruct (Z.log2 N - 52 - ez) as [|d|d] eqn:Ed; try lia.
      * replace (Z.pos m) with (N * 2 ^ (- ez)) by exact Em.
        replace ez with (- - ez) at 2 by lia. apply round_int; lia.
      * replace (Z.pos m) with (N * 2 ^ (- ez)) by exact Em.
        replace ez with (- - ez) at 2 by lia. apply round_int; lia.
    + destruct (shl_align_value m ez (Z.log2 N - 52) ltac:(lia)) as [V E].
      destruct (shl_align m ez (Z.log2 N - 52)) as [mz ez'].
      cbn [fst snd] in V, E. subst ez'. rewrite V, <- Em.
      rewrite <- Z.mul_assoc, <- Z.pow_add_r by lia.
      replace (- ez + (ez - (Z.log2 N - 52))) with (52 - Z.log2 N) by lia.
      replace (Z.log2 N - 52) with (- (52 - Z.log2 N)) by lia.
      apply round_int; lia.
Qed.

Lemma todecimal_bounds (a : N) (v : Z) :
  Unicode.todecimal a = Some v -> 0 <= v <= 9.
Proof.
  unfold Unicode.todecimal.
  destruct (find _ Unicode.decimal_zeros) as [z|] eqn:E; [|discriminate].
  apply find_some in E as [_ E]. apply andb_true_iff in E as [E1 E2].
  apply N.leb_le in E1. apply N.ltb_lt in E2.
  intros H. injection H as <-. lia.
Qed.

Lemma digit_val_bounds (a : N) :
  Unicode.isdecimal a = true -> 0 <= digit_val a <= 9.
Proof.
  unfold Unicode.isdecimal, digit_val.
  destruct (Unicode.todecimal a) as [v|] eqn:E; [|discriminate].
  intros _. eapply todecimal_bounds, E.
Qed.

Lemma decimal_nonneg (s : str) :
  all_chars Unicode.isdecimal s = true ->
  forall n, 0 <= n -> 0 <= decimal s n.
Proof.
  unfold all_chars.
  induction s as [|a s IH]; cbn [decimal forallb]; intros H n Hn;
    [exact Hn|].
  apply andb_true_iff in H as [Ha Hs].
  apply IH; [exact Hs|]. pose proof (digit_val_bounds a Ha). lia.
Qed.

Lemma scan_whole (s : str) :
  all_chars Unicode.isdecimal s = true ->
  forall (n : Z) (nd k : nat),
    scan s false n nd k = Some (decimal s n, (nd + length s)%nat, k).
Proof.
  unfold all_chars.
  induction s as [|a s IH]; intros H n nd k; cbn [scan decimal length].
  - now rewrite Nat.add_0_r.
  - cbn [forallb] in H. apply andb_true_iff in H as [Ha Hs].
    unfold digit_val. unfold Unicode.isdecimal in Ha.
    destruct (Unicode.todecimal a) as [v|]; [|discriminate].
    rewrite (IH Hs). now rewrite Nat.add_succ_r.
Qed.

(** [float] of the digits of an integer below [2^53] is that integer. *)
Lemma float_whole (g : str) :
  whole g = true -> decimal g 0 < 2 ^ 53 ->
  exists f, float g = Ok f /\ int_float (decimal g 0) f.
Proof.
  unfold whole. intros H Hlt. apply andb_true_iff in H as [Hd Hl].
  apply Nat.leb_le in Hl. unfold float. rewrite (scan_whole g Hd).
  destruct (length g) as [|l] eqn:El; [lia|]. cbn [Nat.add].
  eexists. split; [reflexivity|].
  pose proof (decimal_nonneg g Hd 0 ltac:(lia)) as Hn.
  change (Z.to_pos (10 ^ Z.of_nat 0)) with 1%positive.
  unfold of_ratio. destruct (decimal g 0) as [|m|m] eqn:Em; try lia.
  - left. split; reflexivity.
  - unfold SFdiv, SFdiv_core_binary. cbn [xorb Zdigits2].
    change (Z.pos (digits2_pos 1)) with 1.
    assert (Hl2 : 0 <= Z.log2 (Z.pos m) <= 52).
    { split; [apply Z.log2_nonneg|].
      assert (Z.log2 (Z.pos m) < 53) by (apply Z.log2_lt_pow2; lia). lia. }
    rewrite digits_log2.
    replace (Z.min (fexp prec emax (Z.log2 (Z.pos m) + 1 + 0 - (1 + 0)))
                   (0 - 0))
      with (- (53 - Z.log2 (Z.pos m)))
      by (unfold fexp, emin, prec, emax; lia).
    replace (0 - 0 - - (53 - Z.log2 (Z.pos m)))
      with (53 - Z.log2 (Z.pos m)) by lia.
    destruct (53 - Z.log2 (Z.pos m)) as [|s|s] eqn:Es; try lia.
    rewrite Z.shiftl_mul_pow2 by lia.
    pose proof (Z.div_1_r (Z.pos m * 2 ^ Z.pos s)) as Hq.
    pose proof (Z.mod_1_r (Z.pos m * 2 ^ Z.pos s)) as Hr.
    unfold Z.div, Z.modulo in Hq, Hr.
    destruct (Z.div_eucl (Z.pos m * 2 ^ Z.pos s) 1) as [q r].
    subst q r. change (new_location 1 0) with loc_Exact.
    apply round_int; lia.
Qed.

Lemma int_of_int_float (N : Z) (x : spec_float) :
  int_float N x -> int x = Ok N.
Proof.
  intros [[-> ->]|(H & m & k & Hk & E & ->)]; [reflexivity|].
  cbn [int cond_Zopp]. f_equal.
  rewrite Z.shiftl_div_pow2 by lia. rewrite Z.opp_involutive, E.
  apply Z.div_mul. apply Z.pow_nonzero; lia.
Qed.

End Exact.

(** X15: whole numbers are combined without error.  For two groups of
    decimal digits only, of any script, that write the integers [a] and
    [b], with [a * 10^8 + b * 10^4] below [2^53], the combination returns
    exactly [a * 10^8 + b * 10^4]. *)
Theorem estimate_metric_exact_on_whole :
  forall g1 g2 : str,
    whole g1 = true -> whole g2 = true ->
    decimal g1 0 * 100000000 + decimal g2 0 * 10000 < 2 ^ 53 ->
    China._estimate_metric g1 g2
    = Ok (decimal g1 0 * 100000000 + decimal g2 0 * 10000).
Proof.
  intros g1 g2 W1 W2 Hlt.
  assert (Ha : 0 <= decimal g1 0).
  { apply decimal_nonneg; [|lia]. unfold whole in W1.
    now apply andb_true_iff in W1 as [W1 _]. }
  assert (Hb : 0 <= decimal g2 0).
  { apply decimal_nonneg; [|lia]. unfold whole in W2.
    now apply andb_true_iff in W2 as [W2 _]. }
  destruct (float_whole g1 W1 ltac:(lia)) as (f1 & F1 & I1).
  destruct (float_whole g2 W2 ltac:(lia)) as (f2 & F2 & I2).
  unfold China._estimate_metric. rewrite F1, F2. cbn [rbind].
  apply int_of_int_float. apply add_int; [| |exact Hlt].
  - apply mul_int; [exact I1| |lia|lia].
    right. split; [lia|]. exists 6710886400000000%positive, 26.
    repeat split; lia.
  - apply mul_int; [exact I2| |lia|lia].
    right. split; [lia|]. exists 5497558138880000%positive, 39.
    repeat split; lia.
Qed.

Lemma estimate_metric_exact_on_whole_witness :
  China._estimate_metric (u "１２") (u "5000")
  = Ok (decimal (u "１２") 0 * 100000000 + decimal (u "5000") 0 * 10000).
Proof.
  apply (estimate_metric_exact_on_whole (u "１２") (u "5000"));
    [reflexivity|reflexivity|vm_compute; reflexivity].
Defined.

(** ** Records on file *)

Section History.

Local Open Scope list_scope.

Lemma string_leb_false (a b : string) :
  (a <=? b)%string = false -> (b <=? a)%string = true.
Proof.
  intros H. destruct (String.leb_total a b) as [Hab|Hba]; congruence.
Qed.

(** The greatest date of a column is at or after every date of it. *)
Lemma greatest_bound (ds : list string) (d : string) :
  In d ds -> (d <=? Store.greatest ds)%string = true.
Proof.
  induction ds as [|x ds IH]; intros H; [contradiction|].
  cbn [Store.greatest fold_right]. fold (Store.greatest ds).
  destruct (Store.greatest ds <=? x)%string eqn:E.
  - destruct H as [->|H]; [apply leb_refl|].
    apply (string_leb_trans _ _ _ (IH H) E).
  - destruct H as [->|H]; [now apply string_leb_false|now apply IH].
Qed.

(** The latest date on file is at or after every date on file. *)
Lemma date_max_bound (ds : list string) (d : string) :
  In d ds ->
  Store.date_max ds = Day (Store.greatest ds) /\
  (d <=? Store.greatest ds)%string = true.
Proof.
  intros H. split; [|now apply greatest_bound].
  destruct ds; [contradiction|reflexivity].
Qed.

End History.

(** X16: the incremental stream never displaces a record on file.  After
    a run of [export] that returns, with the attachment to the file as the
    spec describes it, every record that was on file is still on file,
    unless a complete record of the run has its date: the records that
    [read] returns are all dated after the latest date on file. *)
Theorem export_keeps_history :
  forall (w : web) (s s' : state),
    China.export w s = (Ok tt, s') ->
    exists (C : DataFrame) (s1 s2 : state),
      China.read_complete w s1 = (Ok C, s2) /\
      forall r, In r (datafile s) -> ~ In (date r) (dates C) ->
                In r (datafile s').
Proof.
  intros w s s' H. apply export_cases in H.
  destruct H as [(e1 & _ & Habs)|(I & s1 & HR & H)]; [discriminate|].
  destruct H as [(e1 & _ & Habs)|(C & s2 & HC & H)]; [discriminate|].
  destruct H as [(e1 & _ & Habs & _)|(df & Hm & _ & ->)]; [discriminate|].
  exists C, s1, s2. split; [exact HC|]. intros r Hr Hn. cbn [datafile].
  pose proof (read_frame w _ _ _ _ HR) as (_ & _ & HdR).
  pose proof (read_complete_frame w _ _ _ HC) as (_ & _ & HdC).
  rewrite HdC, HdR. rewrite attach_fresh. apply in_or_app. right.
  apply In_fresh. split; [exact Hr|].
  apply merge_Ok in Hm. subst df.
  assert (HdI : dates (China.pipeline I) = dates I)
    by (unfold China.pipeline, China.pipe_metadata, China.pipe_vaccine,
          assign_location, assign_vaccine, dates; now rewrite !map_map).
  assert (HdCp : dates (China.pipeline C) = dates C)
    by (unfold China.pipeline, China.pipe_metadata, China.pipe_vaccine,
          assign_location, assign_vaccine, dates; now rewrite !map_map).
  unfold dates at 1. rewrite map_app. fold (dates (China.pipeline C)).
  rewrite in_app_iff, HdCp. intros [Hc|Hi]; [contradiction|].
  apply in_map_iff in Hi as (i' & Hdate & Hi).
  apply In_fresh in Hi as [Hi _].
  assert (Hin : In (date i') (dates I))
    by (rewrite <- HdI; unfold dates; now apply in_map).
  apply in_map_iff in Hin as (i & Hdi & Hin).
  destruct (date_max_bound (dates (datafile s)) (date r)) as [Hmax Hold];
    [unfold dates; now apply in_map|].
  rewrite Hmax in HR.
  apply read_Ok in HR as (index & parsed & _ & _ & _ & -> & _ & _).
  pose proof (newer_prefix_newer
                (Store.greatest (dates (datafile s))) parsed) as Hnew.
  rewrite Forall_forall in Hnew. specialize (Hnew i Hin).
  congruence.
Qed.

(** The record of 16 March on file is kept by the run on the small web,
    whose complete records are dated 17 March and 28 December. *)
Lemma export_keeps_history_witness :
  exists (C : DataFrame) (s1 s2 : state),
    China.read_complete web0 s1 = (Ok C, s2) /\
    forall r, In r (datafile state0) -> ~ In (date r) (dates C) ->
              In r (datafile (snd (China.export web0 state0))).
Proof.
  apply (export_keeps_history web0 state0).
  vm_compute. reflexivity.
Defined.
